(** * Vocal-analysis pipeline: pitch fusion, temporal detectors, scoring,
      classification and label persistence.

    Shallow embedding of [virtual_listener.py], [professional_vocal_analyzer.py]
    and [label_database.py].

    Numbers.  Python floats are embedded as exact rationals ([Q]); equalities
    between computed numbers are stated with [==].  The numeric library
    routines that are not rational-valued are handled as follows:
    - [np.log2] occurs in [freq_to_note] only under a floor, and
      [floor (12 * log2 x) = floor (log2 (x ^ 12))], which is computed exactly
      on rationals by [floor_log2];
    - [np.sqrt] occurs in [_classify_vowel_shape] only inside comparisons
      between non-negative quantities, which are carried out on the squares;
    - [np.log10] (in [_calculate_hnr]) is a section variable, and so are
      [np.std], [np.log2] outside a floor and the magnitude spectrum
      [np.abs(np.fft.rfft(...))] where the vibrato, resonance and
      articulation analyses use them;
    - [round] of [12 * log2 x] in [_frequency_to_note_detailed] is the floor
      of [log2 (2 * x ^ 24) / 2], again computed by [floor_log2].

    Exceptions.  Code that can raise inside a [try] block is written in the
    [exc] monad; the [except] handler is the [catch] combinator.

    State.  The listener is a record of its mutable fields that the reading
    loop threads through the frames; one listener serves all sessions, and
    a session resets its labels only.  The table of labels is the list of
    its rows in the order of their ids; a value is stored with the affinity
    of its column, and the routines of SQLite that write and read numbers
    as text are the fields of a record [sqlite]. *)

From Stdlib Require Import ZArith QArith Qpower Qabs Qminmax Qround Lqa Lia.
From Stdlib Require Import List String Ascii DecimalString Bool Sorted.
From stdpp Require Import gmap strings list fin_maps.

Open Scope Q_scope.

(* ===================================================================== *)
(** * Numeric helpers *)
(* ===================================================================== *)

Module Num.

Definition Qltb (x y : Q) : bool := negb (Qle_bool y x).

Definition Qnat (n : nat) : Q := inject_Z (Z.of_nat n).

Definition Qsum (l : list Q) : Q := fold_right Qplus 0 l.

(** [np.mean] of a Python list of numbers. *)
Definition mean (l : list Q) : Q := Qsum l / Qnat (length l).

(** [l[-n:]] *)
Definition last_n {A} (n : nat) (l : list A) : list A :=
  skipn (length l - n) l.

(** The integer [n] with [2 ^ n <= q < 2 ^ (n + 1)], for [0 < q]:
    [floor (log2 q)]. *)
Definition floor_log2 (q : Q) : Z :=
  let k := (Z.log2 (Qnum q) - Z.log2 (Zpos (Qden q)))%Z in
  if Qle_bool (Qpower 2 k) q then k else (k - 1)%Z.

(** Python's [str] of an [int]. *)
Definition str_of_int (z : Z) : string := NilZero.string_of_int (Z.to_int z).

(** [round(x, 1)]: nearest multiple of one tenth, ties to the even
    neighbour. *)
Definition round_half_even (x : Q) : Z :=
  let f := Qfloor x in
  let r := x - inject_Z f in
  if Qltb r (1#2) then f
  else if Qltb (1#2) r then (f + 1)%Z
  else if Z.even f then f else (f + 1)%Z.

Definition round1 (x : Q) : Q := inject_Z (round_half_even (x * 10)) / 10.

End Num.

(* ===================================================================== *)
(** * Exceptions *)
(* ===================================================================== *)

Inductive exc (A : Type) : Type :=
| Ok (a : A)
| Raised.
Arguments Ok {A} a.
Arguments Raised {A}.

#[global] Instance exc_ret : MRet exc := fun A a => Ok a.
#[global] Instance exc_bind : MBind exc := fun A B k m =>
  match m with
  | Ok a => k a
  | Raised => Raised
  end.

(** [try: body  except Exception: handler] *)
Definition catch {A} (body : exc A) (handler : A) : A :=
  match body with
  | Ok a => a
  | Raised => handler
  end.

(** [not xs], for a list. *)
Definition is_empty {A} (l : list A) : bool :=
  match l with [] => true | _ => false end.

(** [[xs[i] for i in idx]]; an index out of range raises [IndexError]. *)
Fixpoint select {A} (xs : list A) (idx : list nat) : exc (list A) :=
  match idx with
  | [] => Ok []
  | i :: rest =>
      match nth_error xs i with
      | Some x => r ← select xs rest; Ok (x :: r)
      | None => Raised
      end
  end.

(* ===================================================================== *)
(** * virtual_listener.py *)
(* ===================================================================== *)

Module VirtualListener.
Import Num.

(** The JSON body of a pitch server's answer, read with
    [result.get(key, [])]. *)
Record engine_body := {
  pitches : list Q;
  confidences : list Q;
  body_notes : list string
}.

(** Outcome of [requests.post(..., timeout=5)] followed by
    [response.json()]. *)
Inductive engine_reply :=
| RequestFailed                                   (* timeout, refused connection *)
| HttpReply (status : Z) (body : option engine_body). (* [None]: body is not JSON *)

Record estimate := {
  frequency : Q;
  confidence : Q;
  est_notes : list string;
  source : string
}.

Definition min_confidence : Q := 6 # 10.

(** [[i for i, c in enumerate(confidences) if c > self.min_confidence]] *)
Fixpoint valid_indices_from (i : nat) (cs : list Q) : list nat :=
  match cs with
  | [] => []
  | c :: rest =>
      if Qltb min_confidence c then i :: valid_indices_from (S i) rest
      else valid_indices_from (S i) rest
  end.

Definition valid_indices (cs : list Q) : list nat := valid_indices_from 0 cs.

(** Body of the [try] block of [_analyze_with_crepe]; falling out of the
    block without [return] is [Ok None]. *)
Definition crepe_try (r : engine_reply) : exc (option estimate) :=
  match r with
  | RequestFailed => Raised
  | HttpReply status body =>
      if (status =? 200)%Z then
        match body with
        | None => Raised
        | Some result =>
            if negb (is_empty (pitches result)) && negb (is_empty (confidences result)) then
              let vi := valid_indices (confidences result) in
              if negb (is_empty vi) then
                valid_pitches ← select (pitches result) vi;
                valid_confidences ← select (confidences result) vi;
                Ok (Some {| frequency := mean valid_pitches;
                            confidence := mean valid_confidences;
                            est_notes := [];
                            source := "CREPE" |})
              else Ok None
            else Ok None
        end
      else Ok None
  end.

Definition _analyze_with_crepe (r : engine_reply) : option estimate :=
  catch (crepe_try r) None.

Definition spice_try (r : engine_reply) : exc (option estimate) :=
  match r with
  | RequestFailed => Raised
  | HttpReply status body =>
      if (status =? 200)%Z then
        match body with
        | None => Raised
        | Some result =>
            if negb (is_empty (pitches result)) && negb (is_empty (confidences result)) then
              let vi := valid_indices (confidences result) in
              if negb (is_empty vi) then
                valid_pitches ← select (pitches result) vi;
                valid_confidences ← select (confidences result) vi;
                valid_notes ← (if negb (is_empty (body_notes result))
                                then select (body_notes result) vi else Ok []);
                Ok (Some {| frequency := mean valid_pitches;
                            confidence := mean valid_confidences;
                            est_notes := valid_notes;
                            source := "SPICE" |})
              else Ok None
            else Ok None
        end
      else Ok None
  end.

Definition _analyze_with_spice (r : engine_reply) : option estimate :=
  catch (spice_try r) None.

Definition notes : list string :=
  ["C"; "C#"; "D"; "D#"; "E"; "F"; "F#"; "G"; "G#"; "A"; "A#"; "B"]%string.

(** [floor (12 * np.log2 (freq / A4) + 57)] for [0 < freq]. *)
Definition halfsteps_from_c0 (freq : Q) : Z :=
  (floor_log2 ((freq / 440) ^ 12) + 57)%Z.

(** [int(h // 12)] and [int(h % 12)] of the float [h] are the quotient and
    the remainder of [floor h] by 12. *)
Definition freq_to_note (freq : Q) : string :=
  if Qle_bool freq 0 then "C4"%string
  else
    let h := halfsteps_from_c0 freq in
    let octave := (h / 12)%Z in
    let note_idx := (h mod 12)%Z in
    (nth (Z.to_nat note_idx) notes "" ++ str_of_int octave)%string.

(** [classify_technique(freq)] as called by [_create_combined_label]:
    [formant_data] is [None]. *)
Definition classify_technique (freq : Q) : string :=
  if Qle_bool freq 0 then "unknown"%string
  else
    let basic_technique :=
      if Qltb freq 200 then "chest"%string
      else if Qltb freq 400 then "mixed"%string
      else "head"%string in
    if Qle_bool 350 freq && Qle_bool freq 450 then "passaggio"%string
    else basic_technique.

(** The combined label.  The [vibrato] and [dynamics] entries, which are
    read from the history buffers and feed no field below, are left out. *)
Record label := {
  l_time : Z;
  l_frequency : Q;
  l_note : string;
  l_confidence : Q;
  l_technique : string;
  l_amplitude : Q;
  l_source : string
}.

Definition _create_combined_label (crepe_result spice_result : option estimate)
    (time_offset : Z) (amplitude : Q) : option label :=
  match crepe_result, spice_result with
  | None, None => None
  | _, _ =>
      let '(freq, conf, src) :=
        match crepe_result, spice_result with
        | Some c, Some s =>
            ((frequency c * confidence c + frequency s * confidence s)
               / (confidence c + confidence s),
             (confidence c + confidence s) / 2,
             "CREPE+SPICE"%string)
        | Some c, None => (frequency c, confidence c, "CREPE"%string)
        | None, Some s => (frequency s, confidence s, "SPICE"%string)
        | None, None => (0, 0, ""%string)
        end in
      Some {| l_time := time_offset;
              l_frequency := freq;
              l_note := freq_to_note freq;
              l_confidence := conf;
              l_technique := classify_technique freq;
              l_amplitude := amplitude;
              l_source := src |}
  end.

Record pitch_entry := { p_time : Z; p_frequency : Q; p_confidence : Q }.
Record amplitude_entry := { a_time : Z; a_amplitude : Q }.

(** The mutable fields of [VirtualListener] that [analyze_chunk] updates. *)
Record listener := {
  labels : list label;
  pitch_history : list pitch_entry;
  amplitude_history : list amplitude_entry;
  breath_positions : list Z
}.

Definition init : listener :=
  {| labels := []; pitch_history := []; amplitude_history := [];
     breath_positions := [] |}.

(** One frame as [analyze_chunk] sees it: the two servers' answers and
    [np.max(np.abs(audio_chunk))]. *)
Record frame := {
  crepe_reply : engine_reply;
  spice_reply : engine_reply;
  amplitude : Q
}.

Definition analyze_chunk (st : listener) (fr : frame) (time_offset : Z) : listener :=
  let crepe_result := _analyze_with_crepe (crepe_reply fr) in
  let spice_result := _analyze_with_spice (spice_reply fr) in
  let amp := amplitude fr in
  let amplitude_history' :=
    amplitude_history st ++ [{| a_time := time_offset; a_amplitude := amp |}] in
  let '(labels', pitch_history') :=
    match _create_combined_label crepe_result spice_result time_offset amp with
    | Some combined_label =>
        (labels st ++ [combined_label],
         if Qltb 0 (l_frequency combined_label)
         then pitch_history st ++
                [{| p_time := time_offset;
                    p_frequency := l_frequency combined_label;
                    p_confidence := l_confidence combined_label |}]
         else pitch_history st)
    | None => (labels st, pitch_history st)
    end in
  let breath_positions' :=
    if Qltb amp (1#100) && (5 <? length amplitude_history')%nat then
      let recent_amplitudes := map a_amplitude (last_n 5 amplitude_history') in
      if forallb (fun a => Qltb a (2#100)) recent_amplitudes
      then breath_positions st ++ [time_offset]
      else breath_positions st
    else breath_positions st in
  {| labels := labels';
     pitch_history := pitch_history';
     amplitude_history := amplitude_history';
     breath_positions := breath_positions' |}.

(** The reading loop of [listen_and_analyze]: one chunk per second,
    [time_offset] counting from the given start. *)
Fixpoint listen_from (st : listener) (time_offset : Z) (chunks : list frame) : listener :=
  match chunks with
  | [] => st
  | fr :: rest => listen_from (analyze_chunk st fr time_offset) (time_offset + 1) rest
  end.

(** The first session of a listener, all of whose histories are empty when
    it starts. *)
Definition listen (chunks : list frame) : listener := listen_from init 0 chunks.

(** A session on a listener in any state, as [virtual_listen] runs it:
    [self.labels = []], then the reading loop (the look-up of the stream
    and the saving of the result are left out).  The server keeps one
    listener for all its requests and nothing else is reset, so the pitch
    history, the amplitude history and the breath positions of earlier
    sessions are still there, and the time offsets start again at 0. *)
Definition virtual_listen (st : listener) (chunks : list frame) : listener :=
  listen_from {| labels := [];
                 pitch_history := pitch_history st;
                 amplitude_history := amplitude_history st;
                 breath_positions := breath_positions st |} 0 chunks.

(** ** Performance score *)

(** The entries of [basic_stats] and [advanced_stats] that
    [_calculate_performance_score] reads.  A field is [None] when the key
    (or the sub-dictionary holding it) is missing, in which case the
    default of the [.get] call applies.  Counts are results of [len]. *)
Record vibrato_summary := {
  v_detected : bool;
  v_average_rate : Q;
  v_average_depth : Q;
  v_consistency : Q
}.

Record stats := {
  s_confidence_avg : option Q;
  s_variety_score : option nat;
  s_vibrato_analysis : option vibrato_summary;
  s_dynamic_variety : option nat;
  s_breath_support_score : option Q;
  s_detected_transitions : option nat
}.

Record score_components := {
  pitch_accuracy : Q;
  technique_variety : Q;
  vibrato_quality : Q;
  dynamics_control : Q;
  breath_support : Q;
  passaggio_handling : Q
}.

Record performance_score := {
  total_score : Q;
  grade : string;
  score_breakdown : score_components
}.

Definition score_breakdown_of (st : stats) : score_components :=
  let confidence_avg := default 0 (s_confidence_avg st) in
  let pitch_score := Qmin (confidence_avg * 25) 25 in
  let variety_score := Qnat (default 0%nat (s_variety_score st)) in
  let technique_score := Qmin (variety_score * 5) 20 in
  let vibrato_score :=
    match s_vibrato_analysis st with
    | Some v =>
        if v_detected v then
          let rate_score := Qmax 0 (10 - Qabs (v_average_rate v - (55#10)) * 2) in
          let depth_score := Qmax 0 (5 - Qabs (v_average_depth v - 50) * (1#10)) in
          rate_score + depth_score + v_consistency v * 5
        else 5
    | None => 5
    end in
  let dynamic_variety := Qnat (default 0%nat (s_dynamic_variety st)) in
  let dynamics_score := Qmin (dynamic_variety * 5) 15 in
  let breath_score := (default 70 (s_breath_support_score st) - 70) * (5#10) in
  let transitions := Qnat (default 0%nat (s_detected_transitions st)) in
  let passaggio_score := Qmin (transitions * 5) 10 in
  {| pitch_accuracy := pitch_score;
     technique_variety := technique_score;
     vibrato_quality := Qmin vibrato_score 15;
     dynamics_control := dynamics_score;
     breath_support := Qmax 0 (Qmin breath_score 15);
     passaggio_handling := passaggio_score |}.

(** [sum(score_components.values())] *)
Definition sum_components (c : score_components) : Q :=
  pitch_accuracy c + technique_variety c + vibrato_quality c
  + dynamics_control c + breath_support c + passaggio_handling c.

Definition grade_of (total : Q) : string :=
  if Qle_bool 90 total then "S"%string
  else if Qle_bool 80 total then "A"%string
  else if Qle_bool 70 total then "B"%string
  else if Qle_bool 60 total then "C"%string
  else "D"%string.

(** The [description] text and the [recommendations] list are not part of
    the score and are left out. *)
Definition _calculate_performance_score (st : stats) : performance_score :=
  let score_components := score_breakdown_of st in
  let total := sum_components score_components in
  {| total_score := round1 total;
     grade := grade_of total;
     score_breakdown := score_components |}.

(** Position of a grade on the scale D < C < B < A < S. *)
Definition grade_rank (g : string) : nat :=
  if String.eqb g "S" then 4
  else if String.eqb g "A" then 3
  else if String.eqb g "B" then 2
  else if String.eqb g "C" then 1
  else 0.

(** ** Scenarios *)

(** An answer with status 200 carrying the given pitches and confidences. *)
Definition reply_of (ps cs : list Q) : engine_reply :=
  HttpReply 200 (Some {| pitches := ps; confidences := cs; body_notes := [] |}).

(** Both engines report: (440.0 Hz, 0.9) and (438.0 Hz, 0.8). *)
Definition two_engine_frame : frame :=
  {| crepe_reply := reply_of [440] [9#10];
     spice_reply := reply_of [438] [8#10];
     amplitude := 5#10 |}.

(** One engine reports (196.0 Hz, 0.85), the call to the other fails. *)
Definition one_engine_frame : frame :=
  {| crepe_reply := reply_of [196] [85#100];
     spice_reply := RequestFailed;
     amplitude := 5#10 |}.

(** Exactly one engine yields an estimate for the frame. *)
Definition sole_estimate (fr : frame) (e : estimate) : Prop :=
  (_analyze_with_crepe (crepe_reply fr) = Some e
   /\ _analyze_with_spice (spice_reply fr) = None)
  \/ (_analyze_with_crepe (crepe_reply fr) = None
      /\ _analyze_with_spice (spice_reply fr) = Some e).

(** The breath condition at frame [n] of a session with amplitudes
    [amps]: at least five frames precede it, its amplitude is below 0.01,
    and the amplitudes of frames [n - 4 .. n] are all below 0.02. *)
Definition breath_at (amps : list Q) (n : nat) : Prop :=
  (5 <= n)%nat
  /\ (n < length amps)%nat
  /\ nth n amps 0 < 1 # 100
  /\ forall i, (n - 4 <= i <= n)%nat -> nth i amps 0 < 2 # 100.

(** Frames with the given amplitudes, both engine calls failing. *)
Definition silent_frames (amps : list Q) : list frame :=
  map (fun a => {| crepe_reply := RequestFailed;
                   spice_reply := RequestFailed;
                   amplitude := a |}) amps.

(** The amplitude history [0.5, 0.4, 0.01, 0.01, 0.01, 0.01, 0.01]. *)
Definition breath_scenario : list Q :=
  [5#10; 4#10; 1#100; 1#100; 1#100; 1#100; 1#100].

(** The amplitudes seen so far. *)
Definition amplitudes (st : listener) : list Q :=
  map a_amplitude (amplitude_history st).

(** The test that guards the append to [breath_positions]. *)
Definition breath_test (st : listener) (fr : frame) (t : Z) : bool :=
  let h := amplitude_history st ++ [{| a_time := t; a_amplitude := amplitude fr |}] in
  Qltb (amplitude fr) (1#100) && (5 <? length h)%nat
  && forallb (fun a => Qltb a (2#100)) (map a_amplitude (last_n 5 h)).

(** The same history with the quiet frames at 0.005. *)
Definition quiet_scenario : list Q :=
  [5#10; 4#10; 5#1000; 5#1000; 5#1000; 5#1000; 5#1000].

(** Session statistics in which a vibrato was detected in some frame
    while the averaged rate, depth and consistency are those of irregular
    pitch movement. *)
Definition irregular_vibrato_stats : stats :=
  {| s_confidence_avg := Some (9#10);
     s_variety_score := Some 2%nat;
     s_vibrato_analysis :=
       Some {| v_detected := true;
               v_average_rate := 12;
               v_average_depth := 150;
               v_consistency := - (4#10) |};
     s_dynamic_variety := Some 2%nat;
     s_breath_support_score := Some 85;
     s_detected_transitions := Some 1%nat |}.

(** The inputs under which no score component can be negative. *)
Definition plausible_stats (st : stats) : Prop :=
  0 <= default 0 (s_confidence_avg st)
  /\ match s_vibrato_analysis st with
     | Some v => v_detected v = true -> 0 <= v_consistency v
     | None => True
     end.

(** ** Vibrato and dynamics from the history buffers *)

(** [np.diff] of a list of numbers. *)
Fixpoint differences (xs : list Q) : list Q :=
  match xs with
  | x :: (y :: _) as rest => (y - x) :: differences rest
  | _ => []
  end.

(** [np.where(np.diff(np.signbit(d)))[0]]: the positions [i], counted from
    [start], at which [d[i]] and [d[i + 1]] differ in sign. *)
Fixpoint sign_change_positions (start : nat) (d : list Q) : list nat :=
  match d with
  | x :: (y :: _) as rest =>
      if eqb (Qltb x 0) (Qltb y 0)
      then sign_change_positions (S start) rest
      else start :: sign_change_positions (S start) rest
  | _ => []
  end.

(** The dictionary returned by [_detect_vibrato_advanced]; the key
    [consistency] is present on one path only. *)
Record vibrato_info := {
  vi_detected : bool;
  vi_rate : Q;
  vi_depth : Q;
  vi_consistency : option Q
}.

Definition no_vibrato : vibrato_info :=
  {| vi_detected := false; vi_rate := 0; vi_depth := 0; vi_consistency := None |}.

Definition vibrato_window : nat := 10.

Section VibratoDetector.

(** [np.std] and [np.log2]. *)
Variable np_std : list Q -> Q.
Variable np_log2 : Q -> Q.

Definition _detect_vibrato_advanced (st : listener) : vibrato_info :=
  if (length (pitch_history st) <? vibrato_window)%nat then no_vibrato
  else
    let recent := last_n vibrato_window (pitch_history st) in
    let recent_pitches := map p_frequency recent in
    let recent_times := map (fun p => inject_Z (p_time p)) recent in
    if (length recent_pitches <? 5)%nat then no_vibrato
    else
      let pitch_changes := differences recent_pitches in
      let time_changes := differences recent_times in
      let zero_crossings := map Qnat (sign_change_positions 0 pitch_changes) in
      if (2 <? length zero_crossings)%nat then
        let vibrato_period := mean (differences zero_crossings) * mean time_changes in
        let vibrato_rate :=
          if Qltb 0 vibrato_period then 1 / (2 * vibrato_period) else 0 in
        let pitch_std := np_std recent_pitches in
        let base_pitch := mean recent_pitches in
        let vibrato_depth :=
          if Qltb 0 base_pitch
          then 1200 * np_log2 ((base_pitch + pitch_std) / base_pitch)
          else 0 in
        let is_vibrato :=
          Qle_bool 4 vibrato_rate && Qle_bool vibrato_rate 7
          && Qle_bool 10 vibrato_depth && Qle_bool vibrato_depth 100 in
        let mean_abs := mean (map Qabs pitch_changes) in
        {| vi_detected := is_vibrato;
           vi_rate := vibrato_rate;
           vi_depth := vibrato_depth;
           vi_consistency :=
             Some (if Qltb 0 mean_abs then 1 - np_std pitch_changes / mean_abs else 0) |}
      else no_vibrato.

End VibratoDetector.

(** The dictionary returned by [_analyze_dynamics], without its
    [variation] entry (a standard deviation); [amplitude] is absent on the
    short-history path. *)
Record dynamics_info := {
  dy_level : string;
  dy_change : string;
  dy_trend : string;
  dy_amplitude : option Q
}.

Definition _analyze_dynamics (st : listener) (current_amplitude : Q) : dynamics_info :=
  if (length (amplitude_history st) <? 5)%nat then
    {| dy_level := "medium"; dy_change := "stable"; dy_trend := "neutral";
       dy_amplitude := None |}
  else
    let recent_amps := map a_amplitude (last_n 5 (amplitude_history st)) in
    let level :=
      if Qltb (7#10) current_amplitude then "forte"%string
      else if Qltb (4#10) current_amplitude then "medium"%string
      else if Qltb (1#10) current_amplitude then "piano"%string
      else "pianissimo"%string in
    let '(change, trend) :=
      if (2 <=? length recent_amps)%nat then
        let change_rate :=
          (List.last recent_amps 0 - hd 0 recent_amps) / Qnat (length recent_amps) in
        if Qltb (5#100) change_rate then ("crescendo"%string, "rising"%string)
        else if Qltb change_rate (- (5#100)) then ("diminuendo"%string, "falling"%string)
        else ("stable"%string, "neutral"%string)
      else ("stable"%string, "neutral"%string) in
    {| dy_level := level; dy_change := change; dy_trend := trend;
       dy_amplitude := Some current_amplitude |}.

(** ** Technique classification with formant data *)

(** The formant dictionary passed to [classify_technique], read with
    [.get(key, 0)]. *)
Record formant_dict := {
  fd_f1 : option Q;
  fd_f2 : option Q;
  fd_singers_formant : option Q
}.

(** [classify_technique(freq, formant_data)]; [None] stands for a missing
    or empty dictionary.  The [amplitude] argument is not used by the
    function. *)
Definition classify_technique_with (freq : Q) (formant_data : option formant_dict)
    : string :=
  if Qle_bool freq 0 then "unknown"%string
  else
    let basic_technique :=
      if Qltb freq 200 then "chest"%string
      else if Qltb freq 400 then "mixed"%string
      else "head"%string in
    let by_formants : option string :=
      match formant_data with
      | Some fd =>
          let f1 := default 0 (fd_f1 fd) in
          let f2 := default 0 (fd_f2 fd) in
          let singers_formant := default 0 (fd_singers_formant fd) in
          if Qltb 600 f1 && Qltb (6#10) singers_formant then Some "belt"%string
          else if Qltb f1 400 && Qltb 2000 f2 then Some "head"%string
          else if Qle_bool 400 f1 && Qle_bool f1 600 && Qltb (3#10) singers_formant
          then Some "mixed"%string
          else if Qltb 600 f1 && Qltb singers_formant (3#10) then Some "chest"%string
          else None
      | None => None
      end in
    match by_formants with
    | Some technique => technique
    | None =>
        if Qle_bool 350 freq && Qle_bool freq 450 then "passaggio"%string
        else basic_technique
    end.

(** ** Recommendations and session statistics *)

Definition _generate_recommendations (c : score_components) : list string :=
  let recommendations :=
    (if Qltb (pitch_accuracy c) 20
     then ["피치 정확도 개선: 스케일 연습과 튜닝 앱 활용"%string] else [])
    ++ (if Qltb (technique_variety c) 15
        then ["발성 기법 다양화: chest/mixed/head voice 연습"%string] else [])
    ++ (if Qltb (vibrato_quality c) 10
        then ["비브라토 개발: 5-6Hz, 50 cents 깊이로 연습"%string] else [])
    ++ (if Qltb (dynamics_control c) 10
        then ["다이나믹스 조절: 크레센도/디미누엔도 연습"%string] else [])
    ++ (if Qltb (breath_support c) 10
        then ["호흡 지지력 강화: 복식 호흡과 브레스 컨트롤 연습"%string] else [])
    ++ (if Qltb (passaggio_handling c) 5
        then ["전환음 연습: 중간 음역대에서 부드러운 연결 연습"%string] else []) in
  if is_empty recommendations
  then ["훌륭한 성능입니다! 현재 수준을 유지하며 더 도전적인 곡으로 연습해보세요."%string]
  else recommendations.

(** [len(set(xs))] *)
Fixpoint count_distinct (xs : list string) : nat :=
  match xs with
  | [] => 0
  | x :: rest =>
      if existsb (String.eqb x) rest then count_distinct rest
      else S (count_distinct rest)
  end.

(** The statistics that [generate_analysis] hands to
    [_calculate_performance_score], for a session with at least one label.
    The vibrato summary and the number of distinct dynamic changes are
    computed by [generate_analysis] from the [vibrato] and [dynamics]
    entries of the labels, and are arguments here. *)
Definition session_stats (st : listener) (vibrato : option vibrato_summary)
    (dynamic_variety : option nat) : stats :=
  let confidences := map l_confidence (labels st) in
  let techniques := map l_technique (labels st) in
  let breaths := length (breath_positions st) in
  {| s_confidence_avg :=
       Some (if is_empty confidences then 0
             else Qsum confidences / Qnat (length confidences));
     s_variety_score := Some (count_distinct techniques);
     s_vibrato_analysis := vibrato;
     s_dynamic_variety := dynamic_variety;
     s_breath_support_score := Some (Qmin (85 + Qnat breaths * 2) 100);
     s_detected_transitions :=
       Some (length (List.filter (fun l => String.eqb (l_technique l) "passaggio")
                                 (labels st))) |}.

(** [generate_analysis] up to the performance score: nothing for a session
    without labels. *)
Definition overall_performance (st : listener) (vibrato : option vibrato_summary)
    (dynamic_variety : option nat) : option performance_score :=
  if is_empty (labels st) then None
  else Some (_calculate_performance_score (session_stats st vibrato dynamic_variety)).

(** A label of a session whose frames have the time offsets [lo .. hi - 1]:
    its time is one of them, its confidence is above the engine threshold,
    and its note and technique are those of its frequency. *)
Definition label_ok (lo hi : Z) (l : label) : Prop :=
  (lo <= l_time l < hi)%Z
  /\ min_confidence < l_confidence l
  /\ l_note l = freq_to_note (l_frequency l)
  /\ l_technique l = classify_technique (l_frequency l).

(** The time stamps of the pitch history. *)
Definition pitch_times (st : listener) : list Z := map p_time (pitch_history st).

(** The message of [_generate_recommendations] for a score without
    deficiency. *)
Definition praise : string :=
  "훌륭한 성능입니다! 현재 수준을 유지하며 더 도전적인 곡으로 연습해보세요.".

(** No component of the score is below its recommendation threshold. *)
Definition no_deficiency (c : score_components) : Prop :=
  20 <= pitch_accuracy c /\ 15 <= technique_variety c /\ 10 <= vibrato_quality c
  /\ 10 <= dynamics_control c /\ 10 <= breath_support c /\ 5 <= passaggio_handling c.

(** The rise of the amplitude over the last five frames of the history. *)
Definition recent_rise (st : listener) : Q :=
  let amps := amplitudes st in
  nth (length amps - 1) amps 0 - nth (length amps - 5) amps 0.

(** A session of three frames with both engines reporting. *)
Definition three_frames : list frame :=
  [two_engine_frame; two_engine_frame; two_engine_frame].

(** A frame in which one engine reports the frequency [f], and a frame in
    which none reports. *)
Definition tone (f : Q) : frame :=
  {| crepe_reply := reply_of [f] [9#10];
     spice_reply := RequestFailed;
     amplitude := 5#10 |}.

Definition no_tone : frame :=
  {| crepe_reply := RequestFailed; spice_reply := RequestFailed; amplitude := 5#10 |}.

(** Two sessions on the same listener: nine frames of which only the last
    has a pitch, then ten frames of which the ninth has none, the pitch
    alternating between 440 Hz and 450 Hz. *)
Definition earlier_session : list frame :=
  [no_tone; no_tone; no_tone; no_tone; no_tone; no_tone; no_tone; no_tone; tone 440].

Definition later_session : list frame :=
  [tone 450; tone 440; tone 450; tone 440; tone 450; tone 440; tone 450; tone 440;
   no_tone; tone 450].

(** Ten frames with both engines reporting. *)
Definition ten_frames : list frame := repeat two_engine_frame 10.

End VirtualListener.

(* ===================================================================== *)
(** * professional_vocal_analyzer.py *)
(* ===================================================================== *)

Module ProfessionalVocalAnalyzer.
Import Num.

Inductive VocalRegister :=
| VOCAL_FRY | CHEST | MIX | HEAD | FALSETTO | WHISTLE | UNKNOWN.

Inductive VowelShape :=
| A_OPEN | A_FRONT | E_OPEN | E_CLOSE | I | O_OPEN | O_CLOSE | U | SCHWA | MIXED.

Record FormantProfile := {
  f1 : Q;
  f2 : Q;
  f3 : Q;
  f4 : Q;
  singers_formant : Q;
  formant_bandwidth : option (list Q)
}.

Record VibratoAnalysis := {
  detected : bool;
  rate : Q;
  extent : Q;
  regularity : Q;
  onset_timing : Q;
  consistency : Q;
  type : string
}.

Record VocalHealthIndicator := {
  vocal_strain : Q;
  breath_efficiency : Q;
  tension_areas : list string;
  sustainability : Q;
  risk_level : string
}.

(** An audio chunk is the array of its samples. *)
Definition audio := list Q.

(** [_initialize_vowel_formants], in declaration order. *)
Definition vowel_formants : list (VowelShape * (Q * Q)) :=
  [ (A_OPEN, (850, 1220)); (A_FRONT, (750, 1700)); (E_OPEN, (610, 1900));
    (E_CLOSE, (390, 2300)); (I, (310, 2790)); (O_OPEN, (500, 1000));
    (O_CLOSE, (360, 750)); (U, (320, 800)); (SCHWA, (500, 1500)) ].

(** Square of the Euclidean distance of [_classify_vowel_shape]. *)
Definition distance2 (formants : FormantProfile) (ref : Q * Q) : Q :=
  (f1 formants - fst ref) ^ 2 + (f2 formants - snd ref) ^ 2.

(** The loop of [_classify_vowel_shape].  The running minimum is kept as
    the square of [min_distance]; [None] is [float('inf')]. *)
Fixpoint vowel_loop (formants : FormantProfile)
    (table : list (VowelShape * (Q * Q)))
    (min_distance2 : option Q) (best_vowel : VowelShape) : option Q * VowelShape :=
  match table with
  | [] => (min_distance2, best_vowel)
  | (vowel, ref) :: rest =>
      let d2 := distance2 formants ref in
      let closer :=
        match min_distance2 with
        | None => true
        | Some m2 => Qltb d2 m2
        end in
      if closer then vowel_loop formants rest (Some d2) vowel
      else vowel_loop formants rest min_distance2 best_vowel
  end.

Definition _classify_vowel_shape (formants : FormantProfile) : VowelShape :=
  let '(min_distance2, best_vowel) := vowel_loop formants vowel_formants None SCHWA in
  let too_far :=
    match min_distance2 with
    | None => true
    | Some m2 => Qltb (400 ^ 2) m2
    end in
  if too_far then MIXED else best_vowel.

(** [np.fft.rfftfreq(n, 1/44100)]: the bin frequencies [k * 44100 / n] for
    [k = 0 .. n // 2]. *)
Definition rfftfreq (n : nat) : list Q :=
  map (fun k => Qnat k * 44100 / Qnat n) (seq 0 (n / 2 + 1)).

Section Spectrum.

(** [np.abs(np.fft.rfft(chunk))], the magnitude spectrum computed by numpy:
    [n // 2 + 1] non-negative bins for a chunk of [n >= 1] samples. *)
Variable np_rfft_abs : audio -> list Q.

(** Body of the [try] block of [_calculate_spectral_centroid].  The
    transform of an empty chunk raises, and so does the element-wise
    product of arrays of different lengths. *)
Definition centroid_try (audio_chunk : audio) : exc (option Q) :=
  if is_empty audio_chunk then Raised
  else
    let magnitude := np_rfft_abs audio_chunk in
    let freqs := rfftfreq (length audio_chunk) in
    if Qltb 0 (Qsum magnitude) then
      if (length freqs =? length magnitude)%nat
      then Ok (Some (Qsum (zip_with Qmult freqs magnitude) / Qsum magnitude))
      else Raised
    else Ok None.

Definition _calculate_spectral_centroid (audio_chunk : audio) : Q :=
  default 1000 (catch (centroid_try audio_chunk) None).

Definition _classify_register_advanced (frequency : Q) (formants : FormantProfile)
    (audio_chunk : audio) : VocalRegister :=
  if Qle_bool frequency 0 then UNKNOWN
  else if Qltb frequency 80 then VOCAL_FRY
  else if Qltb frequency 200 then CHEST
  else if Qle_bool 200 frequency && Qltb frequency 350 then
    if Qltb 600 (f1 formants) && Qltb (3#10) (singers_formant formants)
    then CHEST else MIX
  else if Qle_bool 350 frequency && Qltb frequency 700 then
    if Qltb 500 (f1 formants) && Qltb (f2 formants) 1800 then MIX
    else if Qltb (f1 formants) 400 && Qltb 2000 (f2 formants) then HEAD
    else MIX
  else if Qle_bool 700 frequency && Qltb frequency 1400 then
    let spectral_centroid := _calculate_spectral_centroid audio_chunk in
    if Qltb 2000 spectral_centroid then HEAD else FALSETTO
  else if Qle_bool 2000 frequency then WHISTLE
  else HEAD.

End Spectrum.

(** The magnitude spectrum of a chunk of one or two samples, where the
    transform is real: [|x0|], and [|x0 + x1|, |x0 - x1|].  Longer chunks
    are outside this instance. *)
Definition rfft_abs_upto2 (audio_chunk : audio) : list Q :=
  match audio_chunk with
  | [x0] => [Qabs x0]
  | [x0; x1] => [Qabs (x0 + x1); Qabs (x0 - x1)]
  | _ => []
  end.

(** ** Vibrato *)

(** What [_analyze_vibrato_professional] has computed from the window
    pitch estimates when it reaches the vibrato decision:
    [np.sum(np.diff(np.signbit(pitch_diff)))], [np.mean] and [np.std] of
    the estimates, and the values of the two expressions that go through
    [np.log2] and [np.std(pitch_diff)]. *)
Record pitch_stats := {
  zero_crossings : nat;
  mean_pitch : Q;
  pitch_std : Q;
  extent_cents : Q;     (* 1200 * np.log2((mean_pitch + pitch_std) / mean_pitch) *)
  diff_regularity : Q   (* 1.0 - np.std(pitch_diff) / np.mean(np.abs(pitch_diff)), or 0 *)
}.

(** Number of values of [range(0, stop, step)] for a positive [step]. *)
Definition range_count (stop step : nat) : nat := (stop + step - 1) / step.

(** Number of analysis windows of a chunk of [len] samples:
    [range(0, len - window_size, window_size)] with
    [window_size = len // 10]. *)
Definition window_count (len : nat) : nat :=
  let window_size := (len / 10)%nat in
  range_count (len - window_size) window_size.

(** [np.diff] of an array of numbers. *)
Fixpoint np_diff (xs : list Q) : list Q :=
  match xs with
  | x :: (y :: _) as rest => (y - x) :: np_diff rest
  | _ => []
  end.

(** [np.sum(np.diff(np.signbit(d)))]: the number of adjacent pairs of
    different sign. *)
Fixpoint sign_changes (d : list Q) : nat :=
  match d with
  | x :: (y :: _) as rest =>
      (if eqb (Qltb x 0) (Qltb y 0) then 0 else 1) + sign_changes rest
  | _ => 0
  end%nat.

(** The type classification of a detected vibrato. *)
Definition vibrato_type_of (vibrato_rate vibrato_extent : Q) : string :=
  if Qle_bool 4 vibrato_rate && Qle_bool vibrato_rate 7
     && Qle_bool 20 vibrato_extent && Qle_bool vibrato_extent 100
  then "natural"%string
  else if Qltb 8 vibrato_rate then "tremolo"%string
  else if Qltb vibrato_rate 3 then "wobble"%string
  else "irregular"%string.

(** [_analyze_vibrato_professional] from the computation of
    [variation_rate] to the end of the [try] block. *)
Definition vibrato_decision (ps : pitch_stats) : VibratoAnalysis :=
  let variation_rate :=
    if Qltb 0 (mean_pitch ps) then pitch_std ps / mean_pitch ps else 0 in
  let is_vibrato :=
    Qltb (1#100) variation_rate && Qltb variation_rate (1#10)
    && (4 <=? zero_crossings ps)%nat
    && Qltb 2 (pitch_std ps) in
  if is_vibrato then
    let vibrato_rate := Qnat (zero_crossings ps) / 2 in
    let vibrato_extent := if Qltb 0 (mean_pitch ps) then extent_cents ps else 0 in
    let regularity := diff_regularity ps in
    {| detected := true;
       rate := vibrato_rate;
       extent := vibrato_extent;
       regularity := regularity;
       onset_timing := 5#10;
       consistency := regularity;
       type := vibrato_type_of vibrato_rate vibrato_extent |}
  else
    {| detected := false; rate := 0; extent := variation_rate * 100;
       regularity := 0; onset_timing := 0; consistency := 0;
       type := "straight_tone" |}.

(** ** Vocal health *)

(** [autocorr[k]] after [autocorr = autocorr[autocorr.size // 2:]]: the
    correlation of the chunk with itself at lag [k]. *)
Definition autocorr_at (audio_chunk : audio) (k : nat) : Q :=
  Qsum (zip_with Qmult (skipn k audio_chunk) audio_chunk).

Definition autocorr (audio_chunk : audio) : list Q :=
  map (autocorr_at audio_chunk) (seq 0 (length audio_chunk)).

(** [np.max] of a non-empty array. *)
Definition np_max (x : Q) (xs : list Q) : Q := fold_left Qmax xs x.

Record pitch_data := {
  pd_frequency : Q;
  pd_confidence : option Q
}.

Section Health.

(** [np.log10] on positive arguments. *)
Variable log10 : Q -> Q.

(** Body of the [try] block of [_calculate_hnr].  [np.correlate] raises on
    an empty chunk and [np.max] on an empty slice.  When [hnr_linear] is
    not positive, [np.log10] yields [nan] or [-inf], and
    [max(0, min(hnr_db, 25))] is then [0]. *)
Definition hnr_try (audio_chunk : audio) : exc (option Q) :=
  match autocorr audio_chunk with
  | [] => Raised
  | [_] => Raised
  | total_energy :: a1 :: rest =>
      let max_autocorr := np_max a1 rest in
      if Qltb 0 total_energy then
        let hnr_linear := max_autocorr / total_energy in
        if Qltb hnr_linear 1 then
          if Qltb 0 hnr_linear then
            let hnr_db := 10 * log10 (hnr_linear / (1 - hnr_linear)) in
            Ok (Some (Qmax 0 (Qmin hnr_db 25)))
          else Ok (Some 0)
        else Ok (Some (Qmax 0 (Qmin 20 25)))
      else Ok None
  end.

Definition _calculate_hnr (audio_chunk : audio) : Q :=
  default 10 (catch (hnr_try audio_chunk) None).

Definition _assess_vocal_health (audio_chunk : audio) (pd : pitch_data)
    (formants : FormantProfile) : VocalHealthIndicator :=
  let hnr := _calculate_hnr audio_chunk in
  let vocal_strain := Qmax 0 (1 - hnr / 15) in
  let energy := mean (map (fun x => x ^ 2) audio_chunk) in
  let pitch_confidence := default 0 (pd_confidence pd) in
  let breath_efficiency := pitch_confidence * Qmin (energy * 10) 1 in
  let tension_areas :=
    (if Qltb (f1 formants) 300 then ["larynx_high"%string] else [])
    ++ (if Qltb 2500 (f2 formants) || Qltb (f2 formants) 1000
        then ["tongue_tension"%string] else [])
    ++ (if Qltb (Qabs (f2 formants - f1 formants)) 800
        then ["jaw_tension"%string] else []) in
  let sustainability := Qmin (breath_efficiency * 2) 1 in
  let risk_level :=
    if Qltb vocal_strain (3#10) && (length tension_areas =? 0)%nat then "low"%string
    else if Qltb vocal_strain (6#10) && (length tension_areas <=? 2)%nat
    then "moderate"%string
    else "high"%string in
  {| vocal_strain := vocal_strain;
     breath_efficiency := breath_efficiency;
     tension_areas := tension_areas;
     sustainability := sustainability;
     risk_level := risk_level |}.

End Health.

(** ** Scenarios *)

(** The fall-back profile of [_analyze_formants_detailed]. *)
Definition neutral_formants : FormantProfile :=
  {| f1 := 500; f2 := 1500; f3 := 2500; f4 := 3500; singers_formant := 0;
     formant_bandwidth := None |}.

(** The conditions of the "natural" type. *)
Definition natural_range (r d : Q) : Prop :=
  (4 <= r /\ r <= 7) /\ (20 <= d /\ d <= 100).

(** Two chunks of two samples: silence, and one period of the highest
    representable tone. *)
Definition silence2 : audio := [0; 0].
Definition alternating2 : audio := [1; -1].

(** A first-order stand-in for [np.log10] around 1. *)
Definition log10_near_one (x : Q) : Q := (x - 1) * (4343 # 10000).

(** Equality of running minima up to the value of the rational. *)
Definition same_minimum (a b : option Q) : Prop :=
  match a, b with
  | Some x, Some y => x == y
  | None, None => True
  | _, _ => False
  end.

(** ** Note names to the nearest semitone *)

Definition note_names : list string :=
  ["C"; "C#"; "D"; "D#"; "E"; "F"; "F#"; "G"; "G#"; "A"; "A#"; "B"]%string.

(** [round(12 * math.log2(frequency / A4))] for [0 < frequency], on the
    exact value of the logarithm: the floor of [12 * log2 x + 1/2], that is
    of [log2 (2 * x ^ 24) / 2].  The exact argument of [round] is never
    half-way between two integers, since no power [x ^ 24] of a rational is
    an odd power of two.  The code rounds the double that [math.log2]
    returns: for a frequency within a few units in the last place of a
    half-way point that double can lie on the other side of it, or on it
    (and is then rounded to the even neighbour), and the code's semitone is
    the other neighbour of the exact value.  What is proved of this
    definition is stated for the exact value. *)
Definition nearest_semitone (frequency : Q) : Z :=
  (floor_log2 (2 * (frequency / 440) ^ 24) / 2)%Z.

(** The entries [note] and [octave] of [_frequency_to_note_detailed]
    ([cents_deviation], a difference of logarithms, is left out). *)
Record note_info := {
  ni_note : string;
  ni_octave : Z
}.

Definition _frequency_to_note_detailed (frequency : Q) : note_info :=
  if Qle_bool frequency 0 then {| ni_note := EmptyString; ni_octave := 4 |}
  else
    let nearest := nearest_semitone frequency in
    let note_index := ((nearest + 9) mod 12)%Z in
    let octave := (4 + (nearest + 9) / 12)%Z in
    {| ni_note := nth (Z.to_nat note_index) note_names EmptyString;
       ni_octave := octave |}.

(** ** Comprehensive pitch analysis *)

(** [[i for i, c in enumerate(confidences) if c > threshold]] *)
Fixpoint indices_above (threshold : Q) (i : nat) (cs : list Q) : list nat :=
  match cs with
  | [] => []
  | c :: rest =>
      if Qltb threshold c then i :: indices_above threshold (S i) rest
      else indices_above threshold (S i) rest
  end.

(** The entries [frequency], [confidence], [note] and [octave] of the
    dictionary built by [_analyze_pitch_comprehensive]. *)
Record pitch_analysis := {
  pa_frequency : Q;
  pa_confidence : Q;
  pa_note : string;
  pa_octave : Z
}.

Definition unvoiced : pitch_analysis :=
  {| pa_frequency := 0; pa_confidence := 0; pa_note := EmptyString; pa_octave := 4 |}.

(** Body of the [try] block: both requests are sent before either answer
    is read, and only the first answer is used. *)
Definition pitch_comprehensive_try
    (crepe_response spice_response : VirtualListener.engine_reply)
    : exc pitch_analysis :=
  match crepe_response, spice_response with
  | VirtualListener.RequestFailed, _ => Raised
  | _, VirtualListener.RequestFailed => Raised
  | VirtualListener.HttpReply status body, VirtualListener.HttpReply _ _ =>
      measured ←
        (if (status =? 200)%Z then
           match body with
           | None => Raised
           | Some crepe_data =>
               let pitches := VirtualListener.pitches crepe_data in
               let confidences := VirtualListener.confidences crepe_data in
               if negb (is_empty pitches) && negb (is_empty confidences) then
                 let high_conf_indices := indices_above (7#10) 0 confidences in
                 if negb (is_empty high_conf_indices) then
                   valid_pitches ← select pitches high_conf_indices;
                   valid_confs ← select confidences high_conf_indices;
                   Ok (mean valid_pitches, mean valid_confs)
                 else Ok (0, 0)
               else Ok (0, 0)
           end
         else Ok (0, 0));
      let '(frequency, confidence) := measured in
      if Qltb 0 frequency then
        let note_info := _frequency_to_note_detailed frequency in
        Ok {| pa_frequency := frequency; pa_confidence := confidence;
              pa_note := ni_note note_info; pa_octave := ni_octave note_info |}
      else
        Ok {| pa_frequency := frequency; pa_confidence := confidence;
              pa_note := EmptyString; pa_octave := 4 |}
  end.

Definition _analyze_pitch_comprehensive
    (crepe_response spice_response : VirtualListener.engine_reply) : pitch_analysis :=
  catch (pitch_comprehensive_try crepe_response spice_response) unvoiced.

(** The note and the octave of a result are those of its frequency. *)
Definition named_after_frequency (r : pitch_analysis) : Prop :=
  pa_note r = ni_note (_frequency_to_note_detailed (pa_frequency r))
  /\ pa_octave r = ni_octave (_frequency_to_note_detailed (pa_frequency r)).

(** ** Pitch estimate by autocorrelation *)

(** [np.argmax] of a non-empty array: the first position of the maximum. *)
Fixpoint argmax_from (best_i : nat) (best : Q) (i : nat) (xs : list Q) : nat :=
  match xs with
  | [] => best_i
  | x :: rest =>
      if Qltb best x then argmax_from i x (S i) rest
      else argmax_from best_i best (S i) rest
  end.

Definition np_argmax (xs : list Q) : exc nat :=
  match xs with
  | [] => Raised
  | x :: rest => Ok (argmax_from 0 x 1 rest)
  end.

Definition sample_rate : Z := 44100.
Definition min_period : nat := Z.to_nat (sample_rate / 800).
Definition max_period : nat := Z.to_nat (sample_rate / 80).

Definition pitch_autocorr_try (chunk : audio) : exc (option Q) :=
  if is_empty chunk then Raised
  else
    let centred := map (fun x => x - mean chunk) chunk in
    let ac := autocorr centred in
    if (max_period <? length ac)%nat then
      let autocorr_segment := firstn (max_period - min_period) (skipn min_period ac) in
      peak ← np_argmax autocorr_segment;
      let peak_idx := (peak + min_period)%nat in
      if (0 <? peak_idx)%nat then Ok (Some (inject_Z sample_rate / Qnat peak_idx))
      else Ok None
    else Ok None.

Definition _estimate_pitch_autocorr (chunk : audio) : Q :=
  default 0 (catch (pitch_autocorr_try chunk) None).

(** ** The vibrato analysis as a whole *)

Definition no_vibrato (kind : string) : VibratoAnalysis :=
  {| detected := false; rate := 0; extent := 0; regularity := 0;
     onset_timing := 0; consistency := 0; type := kind |}.

(** The windows [audio_chunk[i:i+window_size]] of the analysis loop. *)
Definition analysis_windows (audio_chunk : audio) : list audio :=
  let window_size := (length audio_chunk / 10)%nat in
  map (fun k => firstn window_size (skipn (k * window_size) audio_chunk))
      (seq 0 (window_count (length audio_chunk))).

(** The positive pitch estimates of the windows. *)
Definition window_pitches (audio_chunk : audio) : list Q :=
  List.filter (Qltb 0) (map _estimate_pitch_autocorr (analysis_windows audio_chunk)).

Section VibratoAnalysis.

(** [np.std] and [np.log2]. *)
Variable np_std : list Q -> Q.
Variable np_log2 : Q -> Q.

(** The statistics of the window estimates. *)
Definition stats_of (pitch_variations : list Q) : pitch_stats :=
  let mean_pitch := mean pitch_variations in
  let pitch_std := np_std pitch_variations in
  let pitch_diff := np_diff pitch_variations in
  let mean_abs := mean (map Qabs pitch_diff) in
  {| zero_crossings := sign_changes pitch_diff;
     mean_pitch := mean_pitch;
     pitch_std := pitch_std;
     extent_cents := 1200 * np_log2 ((mean_pitch + pitch_std) / mean_pitch);
     diff_regularity :=
       if Qltb 0 mean_abs then 1 - np_std pitch_diff / mean_abs else 0 |}.

(** [_analyze_vibrato_professional]; its [frequency] argument is not used. *)
Definition _analyze_vibrato_professional (audio_chunk : audio) : VibratoAnalysis :=
  if (length audio_chunk <? 1024)%nat then no_vibrato "none"
  else
    let pitch_variations := window_pitches audio_chunk in
    if (length pitch_variations <? 5)%nat then no_vibrato "insufficient_data"
    else vibrato_decision (stats_of pitch_variations).

End VibratoAnalysis.

(** ** Passaggio *)

Record PassaggioAnalysis := {
  ps_detected : bool;
  ps_location : Q;
  ps_smoothness : Q;
  ps_register_blend : Q;
  ps_tension_level : Q;
  ps_transition_type : string
}.

(** [_initialize_passaggio_ranges], in declaration order. *)
Definition passaggio_ranges : list (string * (Q * Q)) :=
  [ ("soprano", (350, 450)); ("mezzo", (330, 430)); ("alto", (310, 410));
    ("tenor", (280, 350)); ("baritone", (250, 320)); ("bass", (200, 280)) ]%string.

Definition _analyze_passaggio (frequency : Q) (formants : FormantProfile)
    : option PassaggioAnalysis :=
  let in_passaggio :=
    existsb (fun r => Qle_bool (fst (snd r)) frequency && Qle_bool frequency (snd (snd r)))
            passaggio_ranges in
  if negb in_passaggio then None
  else
    let f1_f2_ratio := if Qltb 0 (f2 formants) then f1 formants / f2 formants else 0 in
    let ideal_ratio := 3 # 10 in
    let ratio_deviation := Qabs (f1_f2_ratio - ideal_ratio) in
    let smoothness := Qmax 0 (1 - ratio_deviation * 5) in
    let register_blend :=
      if Qltb 0 (singers_formant formants) then Qmin (singers_formant formants * 2) 1
      else 3 # 10 in
    let transition_type :=
      if Qltb (7#10) smoothness then "smooth"%string
      else if Qltb (4#10) smoothness then "acceptable"%string
      else "abrupt"%string in
    Some {| ps_detected := true;
            ps_location := frequency;
            ps_smoothness := smoothness;
            ps_register_blend := register_blend;
            ps_tension_level := 5 # 10;
            ps_transition_type := transition_type |}.

(** ** Resonance *)

Record ResonancePattern := {
  chest_resonance : Q;
  oral_resonance : Q;
  nasal_resonance : Q;
  head_resonance : Q;
  placement_score : Q;
  forward_placement : bool
}.

Section Resonance.

Variable np_rfft_abs : audio -> list Q.

(** [magnitude[mask]] needs a mask of the length of [magnitude]. *)
Definition nasal_try (audio_chunk : audio) : exc Q :=
  if is_empty audio_chunk then Raised
  else
    let freqs := rfftfreq (length audio_chunk) in
    let magnitude := np_rfft_abs audio_chunk in
    if negb (length freqs =? length magnitude)%nat then Raised
    else
      let in_range f := Qle_bool 500 f && Qle_bool f 1500 in
      let nasal_energy :=
        Qsum (map snd (List.filter (fun fm => in_range (fst fm)) (zip freqs magnitude))) in
      let total_energy := Qsum magnitude in
      Ok (if Qltb 0 total_energy then Qmin (nasal_energy / total_energy * 2) 1
          else 3 # 10).

Definition _estimate_nasal_resonance (audio_chunk : audio) : Q :=
  catch (nasal_try audio_chunk) (3 # 10).

Definition _analyze_resonance_pattern (formants : FormantProfile)
    (audio_chunk : audio) : ResonancePattern :=
  {| chest_resonance := Qmin (f1 formants / 800) 1;
     oral_resonance := Qmin (f2 formants / 2000) 1;
     nasal_resonance := _estimate_nasal_resonance audio_chunk;
     head_resonance := Qmin ((f3 formants + singers_formant formants) / 3000) 1;
     placement_score :=
       if Qltb 0 (singers_formant formants)
       then Qmin (singers_formant formants / (5#10)) 1
       else 5 # 10;
     forward_placement :=
       if Qltb 0 (f1 formants) then Qltb (25#10) (f2 formants / f1 formants)
       else false |}.

End Resonance.

(** ** The comprehensive label and its assessment *)

Inductive ArticulationQuality :=
| AQ_EXCELLENT | AQ_GOOD | AQ_FAIR | AQ_POOR | AQ_UNCLEAR.

Inductive BreathSupport :=
| BS_EXCELLENT | BS_GOOD | BS_ADEQUATE | BS_WEAK | BS_POOR.

Record ExpressionMarking := {
  em_dynamics : string;
  em_articulation : string;
  phrasing_quality : Q;
  musicality_score : Q;
  tempo_consistency : Q
}.

Record ComprehensiveVocalLabel := {
  cl_timestamp : Q;
  cl_fundamental_frequency : Q;
  cl_note : string;
  cl_octave : Z;
  cl_register : VocalRegister;
  cl_formant_profile : FormantProfile;
  cl_resonance_pattern : ResonancePattern;
  cl_vibrato : VibratoAnalysis;
  cl_passaggio : option PassaggioAnalysis;
  cl_expression : ExpressionMarking;
  cl_vowel_shape : VowelShape;
  cl_articulation_quality : ArticulationQuality;
  cl_breath_support : BreathSupport;
  cl_vocal_health : VocalHealthIndicator;
  cl_confidence : Q;
  cl_analysis_source : string
}.

(** ['_' in str(label.note)] *)
Fixpoint has_underscore (s : string) : bool :=
  match s with
  | EmptyString => false
  | String c rest => Ascii.eqb c "_" || has_underscore rest
  end.

(** The entries [score] and [level] of [_assess_pitch_accuracy].  With an
    underscore in the note name, [abs] is applied to a text and raises. *)
Definition _assess_pitch_accuracy (label : ComprehensiveVocalLabel) : exc (Q * string) :=
  cents_deviation ← (if has_underscore (cl_note label) then Raised else Ok (0 : Q));
  let '(accuracy_level, score) :=
    if Qltb cents_deviation 10
    then ("excellent"%string, 95 + (10 - cents_deviation))
    else if Qltb cents_deviation 25
    then ("good"%string, 80 + (25 - cents_deviation) * (6#10))
    else if Qltb cents_deviation 50
    then ("fair"%string, 60 + (50 - cents_deviation) * (4#10))
    else ("needs_improvement"%string, Qmax 30 (60 - (cents_deviation - 50) * (2#10))) in
  Ok (round1 score, accuracy_level).

Definition weak_breath (b : BreathSupport) : bool :=
  match b with BS_WEAK | BS_POOR => true | _ => false end.

Definition poor_articulation (a : ArticulationQuality) : bool :=
  match a with AQ_POOR | AQ_UNCLEAR => true | _ => false end.

(** [priorities.append(x)] and [priorities.insert(0, x)] in turn, then
    [priorities[:5]]. *)
Definition _generate_development_priorities (label : ComprehensiveVocalLabel)
    : list string :=
  let p0 : list string := [] in
  let p1 := if Qltb (cl_confidence label) (8#10) then p0 ++ ["pitch_accuracy"%string] else p0 in
  let p2 := if weak_breath (cl_breath_support label) then "breath_support"%string :: p1 else p1 in
  let p3 := if poor_articulation (cl_articulation_quality label)
            then p2 ++ ["articulation"%string] else p2 in
  let p4 := if Qltb (placement_score (cl_resonance_pattern label)) (6#10)
            then p3 ++ ["resonance_placement"%string] else p3 in
  let p5 := if String.eqb (risk_level (cl_vocal_health label)) "high"
            then "vocal_health"%string :: p4 else p4 in
  firstn 5 p5.

Definition breath_exercises : list string :=
  [ "복식 호흡 연습 (하루 10분)";
    "립 트릴 (Lip trill) - 음계별 5분";
    "Hissing 운동 - 15초씩 5회" ]%string.

Definition pitch_exercises : list string :=
  [ "피아노와 함께 음계 연습";
    "슬로우 스케일 (반음계 포함)";
    "정확한 음정 귀 훈련" ]%string.

Definition resonance_exercises : list string :=
  [ "허밍 연습 (Humming) - 다양한 모음";
    "Ng 연습 - 공명 개선";
    "전진 배치 운동 (Forward placement)" ]%string.

Definition articulation_exercises : list string :=
  [ "모음 순수성 연습 (Pure vowels)";
    "자음 명확성 훈련";
    "딕션 연습 - 시나 대사 낭독" ]%string.

Definition vibrato_exercise : string := "자연스러운 비브라토 개발 연습".

Definition is_chest (r : VocalRegister) : bool :=
  match r with CHEST => true | _ => false end.

Definition _generate_exercise_recommendations (label : ComprehensiveVocalLabel)
    : list string :=
  let exercises :=
    (if weak_breath (cl_breath_support label) then breath_exercises else [])
    ++ (if Qltb (cl_confidence label) (8#10) then pitch_exercises else [])
    ++ (if Qltb (placement_score (cl_resonance_pattern label)) (6#10)
        then resonance_exercises else [])
    ++ (if poor_articulation (cl_articulation_quality label)
        then articulation_exercises else [])
    ++ (if negb (detected (cl_vibrato label)) && negb (is_chest (cl_register label))
        then [vibrato_exercise] else []) in
  firstn 8 exercises.

Definition breath_score_of (b : BreathSupport) : Q :=
  match b with
  | BS_EXCELLENT => 95 | BS_GOOD => 80 | BS_ADEQUATE => 65
  | BS_WEAK => 45 | BS_POOR => 25
  end.

Definition articulation_score_of (a : ArticulationQuality) : Q :=
  match a with
  | AQ_EXCELLENT => 95 | AQ_GOOD => 80 | AQ_FAIR => 65
  | AQ_POOR => 40 | AQ_UNCLEAR => 20
  end.

(** The weighted mean of [_calculate_overall_grade]. *)
Definition overall_score_of (label : ComprehensiveVocalLabel) : Q :=
  let pitch_score := cl_confidence label * 100 in
  let breath_score := breath_score_of (cl_breath_support label) in
  let articulation_score := articulation_score_of (cl_articulation_quality label) in
  let resonance_score := placement_score (cl_resonance_pattern label) * 100 in
  let health_score := (1 - vocal_strain (cl_vocal_health label)) * 100 in
  pitch_score * (25#100) + breath_score * (25#100) + articulation_score * (20#100)
  + resonance_score * (15#100) + health_score * (15#100).

Definition letter_grade (overall_score : Q) : string :=
  if Qle_bool 90 overall_score then "A+"
  else if Qle_bool 85 overall_score then "A"
  else if Qle_bool 80 overall_score then "A-"
  else if Qle_bool 75 overall_score then "B+"
  else if Qle_bool 70 overall_score then "B"
  else if Qle_bool 65 overall_score then "B-"
  else if Qle_bool 60 overall_score then "C+"
  else if Qle_bool 55 overall_score then "C"
  else if Qle_bool 50 overall_score then "C-"
  else "D".

(** The entries [overall_score] and [grade] of [_calculate_overall_grade]. *)
Definition _calculate_overall_grade (label : ComprehensiveVocalLabel) : Q * string :=
  let overall_score := overall_score_of label in
  (round1 overall_score, letter_grade overall_score).

(** Position of a letter grade on the scale D < C- < ... < A+. *)
Definition letter_rank (g : string) : nat :=
  if String.eqb g "A+" then 9
  else if String.eqb g "A" then 8
  else if String.eqb g "A-" then 7
  else if String.eqb g "B+" then 6
  else if String.eqb g "B" then 5
  else if String.eqb g "B-" then 4
  else if String.eqb g "C+" then 3
  else if String.eqb g "C" then 2
  else if String.eqb g "C-" then 1
  else 0.

(** ** Formant request *)

(** The entry ['formants'] of the formant server's answer; a key that is
    absent is [None].  An answer without the entry reads as one with no
    key. *)
Record formant_body := {
  fb_f1 : option Q;
  fb_f2 : option Q;
  fb_f3 : option Q;
  fb_f4 : option Q;
  fb_singers_formant : option Q;
  fb_bandwidth : option (list Q)
}.

(** Outcome of [requests.post(..., timeout=5)] followed by
    [response.json()]. *)
Inductive formant_reply :=
| FormantRequestFailed
| FormantReply (status : Z) (body : option formant_body). (* [None]: body is not JSON *)

(** The server answered with status 200 and a JSON body. *)
Definition formants_received (response : formant_reply) : bool :=
  match response with
  | FormantReply status (Some _) => (status =? 200)%Z
  | _ => false
  end.

Definition _analyze_formants_detailed (response : formant_reply) : FormantProfile :=
  match response with
  | FormantRequestFailed => neutral_formants
  | FormantReply status body =>
      if (status =? 200)%Z then
        match body with
        | None => neutral_formants
        | Some formants =>
            {| f1 := default 500 (fb_f1 formants);
               f2 := default 1500 (fb_f2 formants);
               f3 := default 2500 (fb_f3 formants);
               f4 := default 3500 (fb_f4 formants);
               singers_formant := default 0 (fb_singers_formant formants);
               formant_bandwidth :=
                 Some (default [50; 100; 150; 200] (fb_bandwidth formants)) |}
        end
      else neutral_formants
  end.

(** ** Articulation *)

Definition _calculate_formant_clarity (formants : FormantProfile) : Q :=
  let f1_f2_separation := Qabs (f2 formants - f1 formants) in
  let f2_f3_separation := Qabs (f3 formants - f2 formants) in
  let separation_score := Qmin ((f1_f2_separation + f2_f3_separation) / 3000) 1 in
  let singers_formant_score := Qmin (singers_formant formants * 2) 1 in
  (separation_score + singers_formant_score) / 2.

Section Articulation.

Variable np_rfft_abs : audio -> list Q.

(** Body of the [try] block of [_calculate_spectral_clarity]; [fft[mask]]
    needs a mask of the length of [fft]. *)
Definition spectral_clarity_try (audio_chunk : audio) : exc (option Q) :=
  if is_empty audio_chunk then Raised
  else
    let fft := np_rfft_abs audio_chunk in
    let freqs := rfftfreq (length audio_chunk) in
    if negb (length freqs =? length fft)%nat then Raised
    else
      let low_freq_energy :=
        Qsum (map snd (List.filter (fun fm => Qltb (fst fm) 1000) (zip freqs fft))) in
      let high_freq_energy :=
        Qsum (map snd (List.filter (fun fm => Qltb 1000 (fst fm)) (zip freqs fft))) in
      let total_energy := low_freq_energy + high_freq_energy in
      if Qltb 0 total_energy
      then Ok (Some (Qmin (high_freq_energy / total_energy * 2) 1))
      else Ok None.

Definition _calculate_spectral_clarity (audio_chunk : audio) : Q :=
  default (5 # 10) (catch (spectral_clarity_try audio_chunk) None).

Definition _evaluate_articulation_quality (formants : FormantProfile)
    (audio_chunk : audio) : ArticulationQuality :=
  let formant_clarity := _calculate_formant_clarity formants in
  let spectral_clarity := _calculate_spectral_clarity audio_chunk in
  let overall_clarity := (formant_clarity + spectral_clarity) / 2 in
  if Qltb (8 # 10) overall_clarity then AQ_EXCELLENT
  else if Qltb (6 # 10) overall_clarity then AQ_GOOD
  else if Qltb (4 # 10) overall_clarity then AQ_FAIR
  else if Qltb (2 # 10) overall_clarity then AQ_POOR
  else AQ_UNCLEAR.

End Articulation.

(** ** Further assessments of a label *)

(** The entries [score] and [level] of [_assess_vocal_agility]. *)
Definition _assess_vocal_agility (label : ComprehensiveVocalLabel) : Q * string :=
  let vibrato := cl_vibrato label in
  let '(agility_score, agility_level) :=
    if detected vibrato then
      let agility_score := Qmin (rate vibrato * 10 + regularity vibrato * 20) 80 in
      (agility_score, if Qltb 60 agility_score then "good"%string else "moderate"%string)
    else (50, "limited"%string) in
  (round1 agility_score, agility_level).

(** The number of exercise groups of three that
    [_generate_exercise_recommendations] collects. *)
Definition exercise_groups (label : ComprehensiveVocalLabel) : nat :=
  ((if weak_breath (cl_breath_support label) then 1 else 0)
   + (if Qltb (cl_confidence label) (8#10) then 1 else 0)
   + (if Qltb (placement_score (cl_resonance_pattern label)) (6#10) then 1 else 0)
   + (if poor_articulation (cl_articulation_quality label) then 1 else 0))%nat.

(** The priorities of [_generate_development_priorities] in the order in
    which they come out. *)
Definition priorities_in_order (label : ComprehensiveVocalLabel) : list string :=
  (if String.eqb (risk_level (cl_vocal_health label)) "high"
   then ["vocal_health"%string] else [])
  ++ (if weak_breath (cl_breath_support label) then ["breath_support"%string] else [])
  ++ (if Qltb (cl_confidence label) (8#10) then ["pitch_accuracy"%string] else [])
  ++ (if poor_articulation (cl_articulation_quality label)
      then ["articulation"%string] else [])
  ++ (if Qltb (placement_score (cl_resonance_pattern label)) (6#10)
      then ["resonance_placement"%string] else []).

(** One label is at least as good as another in each of the five inputs of
    [_calculate_overall_grade]. *)
Definition no_worse (l1 l2 : ComprehensiveVocalLabel) : Prop :=
  cl_confidence l1 <= cl_confidence l2
  /\ breath_score_of (cl_breath_support l1) <= breath_score_of (cl_breath_support l2)
  /\ articulation_score_of (cl_articulation_quality l1)
     <= articulation_score_of (cl_articulation_quality l2)
  /\ placement_score (cl_resonance_pattern l1) <= placement_score (cl_resonance_pattern l2)
  /\ vocal_strain (cl_vocal_health l2) <= vocal_strain (cl_vocal_health l1).

(** The label of a chunk of two silent samples when no server answers;
    expression, articulation and breath support are set by hand. *)
Definition offline_label : ComprehensiveVocalLabel :=
  {| cl_timestamp := 0;
     cl_fundamental_frequency := pa_frequency unvoiced;
     cl_note := pa_note unvoiced;
     cl_octave := pa_octave unvoiced;
     cl_register := UNKNOWN;
     cl_formant_profile := neutral_formants;
     cl_resonance_pattern :=
       _analyze_resonance_pattern rfft_abs_upto2 neutral_formants silence2;
     cl_vibrato := no_vibrato "none";
     cl_passaggio := None;
     cl_expression :=
       {| em_dynamics := "pp"; em_articulation := "legato";
          phrasing_quality := 75 # 100; musicality_score := 8 # 10;
          tempo_consistency := 85 # 100 |};
     cl_vowel_shape := SCHWA;
     cl_articulation_quality := AQ_FAIR;
     cl_breath_support := BS_POOR;
     cl_vocal_health :=
       _assess_vocal_health log10_near_one silence2
         {| pd_frequency := 0; pd_confidence := Some 0 |} neutral_formants;
     cl_confidence := pa_confidence unvoiced;
     cl_analysis_source := "comprehensive_professional" |}.

(** The same label with a confident pitch and a good breath support. *)
Definition supported_label : ComprehensiveVocalLabel :=
  {| cl_timestamp := cl_timestamp offline_label;
     cl_fundamental_frequency := 440;
     cl_note := "A";
     cl_octave := 4;
     cl_register := MIX;
     cl_formant_profile := cl_formant_profile offline_label;
     cl_resonance_pattern := cl_resonance_pattern offline_label;
     cl_vibrato := cl_vibrato offline_label;
     cl_passaggio := cl_passaggio offline_label;
     cl_expression := cl_expression offline_label;
     cl_vowel_shape := cl_vowel_shape offline_label;
     cl_articulation_quality := cl_articulation_quality offline_label;
     cl_breath_support := BS_GOOD;
     cl_vocal_health := cl_vocal_health offline_label;
     cl_confidence := 9 # 10;
     cl_analysis_source := cl_analysis_source offline_label |}.

(** Ten window pitch estimates alternating between the lags 200 and 210. *)
Definition alternating_estimates : list Q :=
  [ 44100 / 200; 44100 / 210; 44100 / 200; 44100 / 210; 44100 / 200;
    44100 / 210; 44100 / 200; 44100 / 210; 44100 / 200; 44100 / 210 ].

(** Every sample of the chunk is 0. *)
Definition silent (audio_chunk : audio) : Prop :=
  Forall (fun x => x == 0) audio_chunk.

End ProfessionalVocalAnalyzer.

(* ===================================================================== *)
(** * label_database.py *)
(* ===================================================================== *)

Module LabelDatabase.

Set Warnings "-register-all".

(** Python values that occur in label records: scalars and the nested
    lists and dictionaries of the analysis payload. *)
Inductive pyval :=
| PNone
| PBool (b : bool)
| PInt (z : Z)
| PFloat (q : Q)
| PStr (s : string)
| PList (items : list pyval)
| PDict (items : list (string * pyval)).

(** Storage classes of SQLite. *)
Inductive sqlval :=
| SqlNull
| SqlInteger (z : Z)
| SqlReal (q : Q)
| SqlText (s : string).

(** The integers of SQLite's INTEGER storage class. *)
Definition int64 (z : Z) : bool := (- 2 ^ 63 <=? z)%Z && (z <? 2 ^ 63)%Z.

(** Binding of a statement parameter by the [sqlite3] module: [bool] is an
    [int]; an [int] outside 64 bits raises [OverflowError]; lists and
    dictionaries are not supported and raise.  ([PFloat] holds the finite
    floats; a NaN, which is bound as NULL, is not among the values.) *)
Definition bind_param (v : pyval) : exc sqlval :=
  match v with
  | PNone => Ok SqlNull
  | PBool b => Ok (SqlInteger (if b then 1 else 0))
  | PInt z => if int64 z then Ok (SqlInteger z) else Raised
  | PFloat q => Ok (SqlReal q)
  | PStr s => Ok (SqlText s)
  | PList _ | PDict _ => Raised
  end.

(** The Python value [sqlite3] returns for a stored value. *)
Definition column_value (c : sqlval) : pyval :=
  match c with
  | SqlNull => PNone
  | SqlInteger z => PInt z
  | SqlReal q => PFloat q
  | SqlText s => PStr s
  end.

(** Truth value of a Python object, as tested by [if x:]. *)
Definition truthy (v : pyval) : bool :=
  match v with
  | PNone => false
  | PBool b => b
  | PInt z => negb (z =? 0)%Z
  | PFloat q => negb (Qeq_bool q 0)
  | PStr s => negb (String.eqb s "")
  | PList items => match items with [] => false | _ => true end
  | PDict items => match items with [] => false | _ => true end
  end.

(** Columns of [vocal_labels], in the order of [CREATE TABLE]. *)
Definition columns : list string :=
  [ "id"; "youtube_url"; "title"; "artist"; "song_name"; "duration_analyzed";
    "created_at";
    "detected_notes"; "average_pitch"; "pitch_range"; "main_technique";
    "confidence_avg";
    "pitch_data"; "note_sequence"; "vibrato_analysis"; "dynamics_data";
    "breath_analysis"; "passaggio_analysis"; "technique_analysis";
    "performance_score";
    "category"; "difficulty_level"; "genre"; "language"; "user_rating";
    "notes" ]%string.

(** Column list of the [INSERT] statement of [save_label]. *)
Definition insert_columns : list string :=
  [ "youtube_url"; "title"; "artist"; "song_name"; "duration_analyzed";
    "detected_notes"; "average_pitch"; "pitch_range"; "main_technique";
    "confidence_avg";
    "pitch_data"; "note_sequence"; "vibrato_analysis"; "dynamics_data";
    "breath_analysis"; "passaggio_analysis"; "technique_analysis";
    "performance_score";
    "category"; "difficulty_level"; "genre"; "language" ]%string.

(** A row holds one value per column; the table also remembers the largest
    row id handed out so far ([AUTOINCREMENT]). *)
Record database := {
  vocal_labels : list (list sqlval);
  last_id : Z
}.

Definition row_id (row : list sqlval) : sqlval := nth 0 row SqlNull.
Definition row_created_at (row : list sqlval) : sqlval := nth 6 row SqlNull.

(** ** Column affinity

    A value is converted to the affinity of its column before it is
    stored. *)
Inductive affinity := AffText | AffNumeric | AffInteger | AffReal | AffBlob.

(** The affinity that the declared type gives a column of [vocal_labels]:
    INTEGER, REAL and TEXT for the types of these names, NUMERIC for
    [TIMESTAMP]. *)
Definition column_affinity (c : string) : affinity :=
  if existsb (String.eqb c) ["id"; "detected_notes"; "difficulty_level"]%string
  then AffInteger
  else if existsb (String.eqb c)
            ["duration_analyzed"; "average_pitch"; "confidence_avg"; "user_rating"]%string
  then AffReal
  else if String.eqb c "created_at" then AffNumeric
  else AffText.

(** Routines of SQLite that are not embedded: the text it writes for a
    floating-point number; the number that a NUMERIC column stores for a
    text that is a well-formed integer or real literal, white space around
    it allowed ([None] for any other text); and the floating-point number
    nearest to an integer. *)
Record sqlite := {
  real_to_text : Q -> string;
  text_to_number : string -> option sqlval;
  int_to_real : Z -> Q
}.

Definition white_space (c : ascii) : bool :=
  let n := nat_of_ascii c in (n =? 32)%nat || ((9 <=? n)%nat && (n <=? 13)%nat).

Definition decimal_digit (c : ascii) : bool :=
  let n := nat_of_ascii c in (48 <=? n)%nat && (n <=? 57)%nat.

(** After white space the text goes on with a digit, a sign or a point.
    No other text is a numeric literal: the literal needs a digit, which
    only a sign and a point may precede. *)
Fixpoint starts_like_number (s : string) : bool :=
  match s with
  | EmptyString => false
  | String c rest =>
      if white_space c then starts_like_number rest
      else decimal_digit c || Ascii.eqb c "+" || Ascii.eqb c "-" || Ascii.eqb c "."
  end.

Definition numeric_text (lib : sqlite) (s : string) : option sqlval :=
  if starts_like_number s then text_to_number lib s else None.

(** A floating-point number that is an integer strictly between the least
    and the greatest 64-bit integer is stored as that integer. *)
Definition real_as_integer (q : Q) : sqlval :=
  let z := Qfloor q in
  if Qeq_bool q (inject_Z z) && (- 2 ^ 63 <? z)%Z && (z <? 2 ^ 63 - 1)%Z
  then SqlInteger z
  else SqlReal q.

(** An integer up to [2 ^ 53] in size is a floating-point number. *)
Definition integer_as_real (lib : sqlite) (z : Z) : Q :=
  if (Z.abs z <=? 2 ^ 53)%Z then inject_Z z else int_to_real lib z.

Definition apply_affinity (lib : sqlite) (a : affinity) (v : sqlval) : sqlval :=
  match a with
  | AffText =>
      match v with
      | SqlInteger z => SqlText (Num.str_of_int z)
      | SqlReal q => SqlText (real_to_text lib q)
      | _ => v
      end
  | AffNumeric | AffInteger =>
      match v with
      | SqlText s => default v (numeric_text lib s)
      | SqlReal q => real_as_integer q
      | _ => v
      end
  | AffReal =>
      match v with
      | SqlText s =>
          match numeric_text lib s with
          | Some (SqlInteger z) => SqlReal (integer_as_real lib z)
          | Some n => n
          | None => v
          end
      | SqlInteger z => SqlReal (integer_as_real lib z)
      | _ => v
      end
  | AffBlob => v
  end.

(** The row written by [INSERT INTO vocal_labels (cols) VALUES (params)] at
    time [now]: the id is generated, [created_at] takes its default
    [CURRENT_TIMESTAMP] (a text that is no numeric literal, and so is kept
    as text), a listed column takes its parameter, converted to the
    affinity of the column, and the columns that are not listed are
    NULL. *)
Definition new_row (lib : sqlite) (new_id : Z) (now : string)
    (cols : list string) (params : list sqlval) : list sqlval :=
  let given : gmap string sqlval := list_to_map (zip cols params) in
  let cell (c : string) : sqlval :=
    if String.eqb c "id" then SqlInteger new_id
    else if String.eqb c "created_at" then SqlText now
    else apply_affinity lib (column_affinity c) (default SqlNull (given !! c)) in
  map cell columns.

(** The [INSERT] itself; [youtube_url] (the second column) is declared
    [NOT NULL].  Returns the new table and [cursor.lastrowid]. *)
Definition insert (lib : sqlite) (db : database) (now : string)
    (cols : list string) (params : list sqlval) : exc (database * Z) :=
  let new_id := (last_id db + 1)%Z in
  let row := new_row lib new_id now cols params in
  match nth 1 row SqlNull with
  | SqlNull => Raised
  | _ =>
      Ok ({| vocal_labels := vocal_labels db ++ [row];
             last_id := new_id |}, new_id)
  end.

(** [SELECT * FROM vocal_labels WHERE id = ?] followed by [fetchone()]. *)
Definition select_by_id (db : database) (label_id : Z) : option (list sqlval) :=
  List.find (fun row => match row_id row with
                        | SqlInteger z => (z =? label_id)%Z
                        | _ => false
                        end) (vocal_labels db).

(** [ORDER BY created_at DESC]: insertion of a row into a list that is
    sorted by decreasing time stamp, in front of the first row that is not
    newer. *)
Definition newer_or_equal (a b : list sqlval) : bool :=
  match row_created_at a, row_created_at b with
  | SqlText s, SqlText t => String.leb t s
  | _, _ => true
  end.

Fixpoint insert_sorted (row : list sqlval) (sorted : list (list sqlval))
    : list (list sqlval) :=
  match sorted with
  | [] => [row]
  | r :: rest =>
      if newer_or_equal row r then row :: sorted
      else r :: insert_sorted row rest
  end.

(** The rows are taken from the oldest to the newest, and a row goes in
    front of the rows that are not newer: rows with the same time stamp
    come out newest first, as the scan of [idx_created_at] from its end
    returns them. *)
Definition order_by_created_at_desc (rs : list (list sqlval)) : list (list sqlval) :=
  fold_right insert_sorted [] (rev rs).

(** [SELECT * FROM vocal_labels ORDER BY created_at DESC LIMIT ?]; a
    negative limit means no limit. *)
Definition select_recent (db : database) (limit : Z) : list (list sqlval) :=
  let sorted := order_by_created_at_desc (vocal_labels db) in
  if (limit <? 0)%Z then sorted else firstn (Z.to_nat limit) sorted.

Section Json.

Variable lib : sqlite.

(** [json.dumps] and [json.loads] of the Python standard library. *)
Variable json_dumps : pyval -> string.
Variable json_loads : string -> exc pyval.

(** [label_data.get(key, default)] *)
Definition get (label_data : gmap string pyval) (key : string) (dflt : pyval) : pyval :=
  default dflt (label_data !! key).

(** The parameter tuple of the [INSERT] in [save_label]. *)
Definition insert_values (label_data : gmap string pyval) : list pyval :=
  let pitch_data := PStr (json_dumps (get label_data "pitch_data" (PList []))) in
  let note_sequence := PStr (json_dumps (get label_data "note_sequence" (PList []))) in
  let vibrato_analysis := PStr (json_dumps (get label_data "vibrato_analysis" (PDict []))) in
  let dynamics_data := PStr (json_dumps (get label_data "dynamics_data" (PDict []))) in
  let breath_analysis := PStr (json_dumps (get label_data "breath_analysis" (PDict []))) in
  let passaggio_analysis := PStr (json_dumps (get label_data "passaggio_analysis" (PDict []))) in
  let technique_analysis := PStr (json_dumps (get label_data "technique_analysis" (PDict []))) in
  let performance_score := PStr (json_dumps (get label_data "performance_score" (PDict []))) in
  [ get label_data "youtube_url" (PStr "");
    get label_data "title" (PStr "");
    get label_data "artist" (PStr "");
    get label_data "song_name" (PStr "");
    get label_data "duration_analyzed" (PInt 30);
    get label_data "detected_notes" (PInt 0);
    get label_data "average_pitch" (PInt 0);
    get label_data "pitch_range" (PStr "");
    get label_data "main_technique" (PStr "");
    get label_data "confidence_avg" (PInt 0);
    pitch_data;
    note_sequence;
    vibrato_analysis;
    dynamics_data;
    breath_analysis;
    passaggio_analysis;
    technique_analysis;
    performance_score;
    get label_data "category" (PStr "");
    get label_data "difficulty_level" (PInt 1);
    get label_data "genre" (PStr "");
    get label_data "language" (PStr "ko") ].

Definition save_label (db : database) (now : string)
    (label_data : gmap string pyval) : exc (database * Z) :=
  params ← mapM bind_param (insert_values label_data);
  insert lib db now insert_columns params.

(** [if data.get(key): data[key] = json.loads(data[key])]; [json.loads]
    raises on anything that is not text. *)
Definition parse_field (key : string) (data : gmap string pyval)
    : exc (gmap string pyval) :=
  match data !! key with
  | Some v =>
      if truthy v then
        match v with
        | PStr s => parsed ← json_loads s; Ok (<[key := parsed]> data)
        | _ => Raised
        end
      else Ok data
  | None => Ok data
  end.

Definition _row_to_dict (row : list sqlval) : exc (gmap string pyval) :=
  let data : gmap string pyval := list_to_map (zip columns (map column_value row)) in
  data ← parse_field "pitch_data" data;
  data ← parse_field "note_sequence" data;
  data ← parse_field "vibrato_analysis" data;
  parse_field "dynamics_data" data.

Definition get_label (db : database) (label_id : Z) : exc (option (gmap string pyval)) :=
  match select_by_id db label_id with
  | Some row => d ← _row_to_dict row; Ok (Some d)
  | None => Ok None
  end.

Definition get_recent_labels (db : database) (limit : Z) : exc (list (gmap string pyval)) :=
  mapM _row_to_dict (select_recent db limit).

(** The contract of the [json] module on one value: it is written as a
    non-empty text from which [json.loads] recovers it. *)
Definition round_trips (v : pyval) : Prop :=
  json_dumps v <> EmptyString /\ json_loads (json_dumps v) = Ok v.

(** The contract on the four payloads that [_row_to_dict] parses. *)
Definition parsed_payloads_round_trip (label_data : gmap string pyval) : Prop :=
  round_trips (get label_data "pitch_data" (PList []))
  /\ round_trips (get label_data "note_sequence" (PList []))
  /\ round_trips (get label_data "vibrato_analysis" (PDict []))
  /\ round_trips (get label_data "dynamics_data" (PDict [])).

(** What a reloaded record holds in the eight payload columns, for the
    label [label_data]: the first four parsed, the last four as text. *)
Definition payload_view (record label_data : gmap string pyval) : Prop :=
  record !! "pitch_data" = Some (get label_data "pitch_data" (PList []))
  /\ record !! "note_sequence" = Some (get label_data "note_sequence" (PList []))
  /\ record !! "vibrato_analysis" = Some (get label_data "vibrato_analysis" (PDict []))
  /\ record !! "dynamics_data" = Some (get label_data "dynamics_data" (PDict []))
  /\ record !! "breath_analysis"
     = Some (PStr (json_dumps (get label_data "breath_analysis" (PDict []))))
  /\ record !! "passaggio_analysis"
     = Some (PStr (json_dumps (get label_data "passaggio_analysis" (PDict []))))
  /\ record !! "technique_analysis"
     = Some (PStr (json_dumps (get label_data "technique_analysis" (PDict []))))
  /\ record !! "performance_score"
     = Some (PStr (json_dumps (get label_data "performance_score" (PDict [])))).

End Json.

(** Python's [==] on scalars: numbers (booleans included) compare by
    value, everything else structurally. *)
Definition py_number (v : pyval) : option Q :=
  match v with
  | PBool b => Some (if b then 1 else 0)
  | PInt z => Some (inject_Z z)
  | PFloat q => Some q
  | _ => None
  end.

Definition py_eq (v w : pyval) : Prop :=
  match py_number v, py_number w with
  | Some a, Some b => a == b
  | None, None => v = w
  | _, _ => False
  end.

(** Field [key] of a record equals, in the sense of [==], the value
    [saved]. *)
Definition field_equals (record : gmap string pyval) (key : string) (saved : pyval) : Prop :=
  exists v, record !! key = Some v /\ py_eq v saved.

(** What a reloaded record holds in the four scalar summary columns. *)
Definition summary_view (record label_data : gmap string pyval) : Prop :=
  field_equals record "detected_notes" (get label_data "detected_notes" (PInt 0))
  /\ field_equals record "average_pitch" (get label_data "average_pitch" (PInt 0))
  /\ field_equals record "main_technique" (get label_data "main_technique" (PStr ""))
  /\ field_equals record "confidence_avg" (get label_data "confidence_avg" (PInt 0)).

(** Field [key] of a record holds what the column [key] gives back for
    the value [saved]. *)
Definition field_stored (lib : sqlite) (record : gmap string pyval)
    (key : string) (saved : pyval) : Prop :=
  exists y, bind_param saved = Ok y
            /\ record !! key
               = Some (column_value (apply_affinity lib (column_affinity key) y)).

Definition stored_view (lib : sqlite) (record label_data : gmap string pyval) : Prop :=
  field_stored lib record "detected_notes" (get label_data "detected_notes" (PInt 0))
  /\ field_stored lib record "average_pitch" (get label_data "average_pitch" (PInt 0))
  /\ field_stored lib record "main_technique" (get label_data "main_technique" (PStr ""))
  /\ field_stored lib record "confidence_avg" (get label_data "confidence_avg" (PInt 0)).

(** A value that a column of the given affinity gives back as it was
    stored: [None] in any column; text in a text column, and in a numeric
    column text that does not start like a number; a number in a numeric
    column, an integer in a REAL column up to [2 ^ 53] in size. *)
Definition kept_by (a : affinity) (v : pyval) : bool :=
  match v with
  | PNone => true
  | PStr s =>
      match a with
      | AffText | AffBlob => true
      | _ => negb (starts_like_number s)
      end
  | PBool _ | PFloat _ =>
      match a with AffText => false | _ => true end
  | PInt z =>
      match a with
      | AffText => false
      | AffReal => (Z.abs z <=? 2 ^ 53)%Z
      | _ => true
      end
  | PList _ | PDict _ => false
  end.

(** The four summary entries of a label have types that their columns
    keep. *)
Definition summary_typed (label_data : gmap string pyval) : Prop :=
  kept_by (column_affinity "detected_notes")
          (get label_data "detected_notes" (PInt 0)) = true
  /\ kept_by (column_affinity "average_pitch")
             (get label_data "average_pitch" (PInt 0)) = true
  /\ kept_by (column_affinity "main_technique")
             (get label_data "main_technique" (PStr "")) = true
  /\ kept_by (column_affinity "confidence_avg")
             (get label_data "confidence_avg" (PInt 0)) = true.

(** The summary entries as [generate_analysis] computes them and
    [virtual_listen] passes them on: the number of labels, the note name of
    the mean frequency or ['Unknown'], a technique, and the mean
    confidence or [0]. *)
Definition generated_summary (label_data : gmap string pyval) : Prop :=
  (exists n : nat, label_data !! "detected_notes"%string = Some (PInt (Z.of_nat n)))
  /\ (label_data !! "average_pitch"%string = Some (PStr "Unknown")
      \/ exists f, label_data !! "average_pitch"%string
                   = Some (PStr (VirtualListener.freq_to_note f)))
  /\ (exists t, label_data !! "main_technique"%string = Some (PStr t))
  /\ (label_data !! "confidence_avg"%string = Some (PInt 0)
      \/ exists c, label_data !! "confidence_avg"%string = Some (PFloat c)).

(** Every row id is an integer bounded by the sequence counter. *)
Definition db_wf (db : database) : Prop :=
  Forall (fun row => exists z, row_id row = SqlInteger z /\ (z <= last_id db)%Z)
         (vocal_labels db).

Definition empty_db : database := {| vocal_labels := []; last_id := 0 |}.

(** ** A reference JSON codec

    A compact writer and reader for the fragment of JSON without string
    escapes and with integral floats only (written [n.0]).  It gives a
    concrete instance of [json_dumps] and [json_loads]. *)
Module Codec.

Definition join (sep : string) (l : list string) : string := String.concat sep l.

(** The double quote character and a quoted text. *)
Definition dq : ascii := ascii_of_nat 34.
Definition quoted (s : string) : string := String dq (s ++ String dq EmptyString).

Fixpoint dumps (v : pyval) : string :=
  match v with
  | PNone => "null"
  | PBool true => "true"
  | PBool false => "false"
  | PInt z => Num.str_of_int z
  | PFloat q => Num.str_of_int (Qfloor q) ++ ".0"
  | PStr s => quoted s
  | PList items => "[" ++ join ", " (map dumps items) ++ "]"
  | PDict items =>
      "{" ++ join ", " (map (fun kv => quoted (fst kv) ++ ": " ++ dumps (snd kv)) items)
          ++ "}"
  end%string.

Definition is_digit (c : ascii) : bool :=
  let n := nat_of_ascii c in (48 <=? n)%nat && (n <=? 57)%nat.

(** Longest prefix of digits, as a number, and the rest. *)
Fixpoint read_digits (acc : Z) (s : string) : Z * string :=
  match s with
  | String c rest =>
      if is_digit c
      then read_digits (acc * 10 + Z.of_nat (nat_of_ascii c - 48)) rest
      else (acc, s)
  | EmptyString => (acc, s)
  end.

(** Text up to the next double quote, and what follows the quote. *)
Fixpoint read_until_quote (s : string) : option (string * string) :=
  match s with
  | String c rest =>
      if Ascii.eqb c dq then Some (EmptyString, rest)
      else match read_until_quote rest with
           | Some (t, r) => Some (String c t, r)
           | None => None
           end
  | EmptyString => None
  end.

Fixpoint skip_spaces (s : string) : string :=
  match s with
  | String " " rest => skip_spaces rest
  | _ => s
  end.

Definition strip (prefix s : string) : option string :=
  if String.prefix prefix s
  then Some (String.substring (String.length prefix)
                              (String.length s - String.length prefix) s)
  else None.

Definition read_number (negative : bool) (s : string) : option (pyval * string) :=
  let '(n, rest) := read_digits 0 s in
  let z := if negative then (- n)%Z else n in
  match strip ".0" rest with
  | Some rest' => Some (PFloat (inject_Z z), rest')
  | None => Some (PInt z, rest)
  end.

Fixpoint read_value (fuel : nat) (s : string) : option (pyval * string) :=
  match fuel with
  | O => None
  | S fuel' =>
      let read_items :=
        fix read_items (n : nat) (s : string) : option (list pyval * string) :=
          match n with
          | O => None
          | S n' =>
              match read_value fuel' s with
              | Some (v, rest) =>
                  match skip_spaces rest with
                  | String "," rest' =>
                      match read_items n' rest' with
                      | Some (vs, r) => Some (v :: vs, r)
                      | None => None
                      end
                  | String "]" rest' => Some ([v], rest')
                  | _ => None
                  end
              | None => None
              end
          end in
      let read_members :=
        fix read_members (n : nat) (s : string) : option (list (string * pyval) * string) :=
          match n with
          | O => None
          | S n' =>
              match skip_spaces s with
              | String c after_quote =>
                  if negb (Ascii.eqb c dq) then None else
                  match read_until_quote after_quote with
                  | Some (key, rest) =>
                      match skip_spaces rest with
                      | String ":" rest1 =>
                          match read_value fuel' rest1 with
                          | Some (v, rest2) =>
                              match skip_spaces rest2 with
                              | String "," rest3 =>
                                  match read_members n' rest3 with
                                  | Some (kvs, r) => Some ((key, v) :: kvs, r)
                                  | None => None
                                  end
                              | String "}" rest3 => Some ([(key, v)], rest3)
                              | _ => None
                              end
                          | None => None
                          end
                      | _ => None
                      end
                  | None => None
                  end
              | _ => None
              end
          end in
      match skip_spaces s with
      | String "n" _ => option_map (fun r => (PNone, r)) (strip "null" (skip_spaces s))
      | String "t" _ => option_map (fun r => (PBool true, r)) (strip "true" (skip_spaces s))
      | String "f" _ => option_map (fun r => (PBool false, r)) (strip "false" (skip_spaces s))
      | String "[" rest =>
          match skip_spaces rest with
          | String "]" rest' => Some (PList [], rest')
          | _ => option_map (fun ir => (PList (fst ir), snd ir))
                            (read_items (String.length rest) rest)
          end
      | String "{" rest =>
          match skip_spaces rest with
          | String "}" rest' => Some (PDict [], rest')
          | _ => option_map (fun mr => (PDict (fst mr), snd mr))
                            (read_members (String.length rest) rest)
          end
      | String "-" rest => read_number true rest
      | String c rest =>
          if Ascii.eqb c dq
          then option_map (fun tr => (PStr (fst tr), snd tr)) (read_until_quote rest)
          else if is_digit c then read_number false (String c rest)
          else None
      | EmptyString => None
      end
  end.

(** A text is accepted when one value spans it entirely. *)
Definition loads (s : string) : exc pyval :=
  match read_value (S (String.length s)) s with
  | Some (v, rest) =>
      match skip_spaces rest with
      | EmptyString => Ok v
      | _ => Raised
      end
  | None => Raised
  end.

End Codec.

(** ** Scenario *)

(** A label in the shape of the sample record of [label_database.py]. *)
Definition sample_label : gmap string pyval :=
  list_to_map
    [ ("youtube_url", PStr "https://youtu.be/example");
      ("title", PStr "Adele - Hello");
      ("artist", PStr "Adele");
      ("song_name", PStr "Hello");
      ("duration_analyzed", PInt 30);
      ("detected_notes", PInt 24);
      ("average_pitch", PStr "A3");
      ("pitch_range", PStr "A3-E5");
      ("main_technique", PStr "chest");
      ("confidence_avg", PFloat (85 # 100));
      ("pitch_data",
        PList [ PDict [("time", PInt 0); ("note", PStr "A3")];
                PDict [("time", PInt 1); ("note", PStr "B3")] ]);
      ("note_sequence", PList [PStr "A3"; PStr "B3"; PStr "C4"]);
      ("vibrato_analysis", PDict [("detected", PBool false); ("rate", PInt 0)]);
      ("breath_analysis", PDict [("breath_positions", PInt 2)]);
      ("category", PStr "Pop Ballad");
      ("difficulty_level", PInt 3) ]%string.

Definition sample_time : string := "2025-01-01 12:00:00".

(** ** What [save_label] accepts *)




(** The order of [ORDER BY created_at DESC] between adjacent rows. *)
Definition not_older (a b : list sqlval) : Prop := newer_or_equal a b = true.

(** The first row has the smaller id. *)
Definition id_below (a b : list sqlval) : Prop :=
  match row_id a, row_id b with
  | SqlInteger i, SqlInteger j => (i < j)%Z
  | _, _ => False
  end.

(** The order in which the rows of a listing follow each other: no row is
    older than the next, and of two rows with the same time stamp the one
    with the greater id comes first. *)
Definition listed_before (a b : list sqlval) : Prop :=
  not_older a b /\ (row_created_at a = row_created_at b -> id_below b a).

(** The rows of the table are in the order of their ids, as [AUTOINCREMENT]
    hands them out. *)
Definition ids_increasing (db : database) : Prop :=
  StronglySorted id_below (vocal_labels db).

(** Reference instances of the routines of SQLite, for the numbers of the
    reference codec: decimal integers, and floating-point numbers that are
    integers (written [n.0]). *)
Definition reference : sqlite :=
  {| real_to_text := fun q => Codec.dumps (PFloat q);
     text_to_number := fun s =>
       match Codec.loads s with
       | Ok (PInt z) => Some (SqlInteger z)
       | Ok (PFloat q) => Some (real_as_integer q)
       | _ => None
       end;
     int_to_real := inject_Z |}.

(** The table of a sequence of saves of the sample label, at the given
    times. *)
Definition saved_at (times : list string) : database :=
  fold_left (fun db now =>
               match save_label reference Codec.dumps db now sample_label with
               | Ok (db', _) => db'
               | Raised => db
               end) times empty_db.

(** The table after the sample label was saved twice, a minute apart. *)
Definition sample_db : database :=
  saved_at ["2025-01-01 12:00:00"; "2025-01-01 12:01:00"]%string.

(** The table after three saves within one second and one a minute
    before. *)
Definition busy_db : database :=
  saved_at ["2025-01-01 11:59:00"; "2025-01-01 12:00:00"; "2025-01-01 12:00:00";
            "2025-01-01 12:00:00"]%string.

(** The sample label with a number where the technique is expected. *)
Definition numbered_technique : gmap string pyval :=
  <["main_technique"%string := PInt 7]> sample_label.

End LabelDatabase.

(* ===================================================================== *)
(** * Properties *)
(* ===================================================================== *)

Import Num.

(** ** Comparisons, sums and means *)

Lemma Qltb_lt (x y : Q) : Qltb x y = true <-> x < y.
Proof.
  unfold Qltb. rewrite negb_true_iff.
  split; intros H.
  - apply Qnot_le_lt. intros Hle. apply Qle_bool_iff in Hle. congruence.
  - destruct (Qle_bool y x) eqn:E; [|reflexivity].
    apply Qle_bool_iff in E. exfalso. apply (Qlt_not_le _ _ H E).
Qed.

Lemma Qltb_ge (x y : Q) : Qltb x y = false <-> y <= x.
Proof.
  unfold Qltb. rewrite negb_false_iff. apply Qle_bool_iff.
Qed.

Lemma Qle_bool_gt (x y : Q) : Qle_bool x y = false <-> y < x.
Proof.
  rewrite <- Qltb_lt. unfold Qltb. rewrite negb_true_iff. reflexivity.
Qed.

(** Case analysis on the comparisons met in a goal. *)
Ltac qcases :=
  repeat match goal with
  | |- context [Qltb ?a ?b] =>
      let E := fresh "E" in
      destruct (Qltb a b) eqn:E;
      [apply Qltb_lt in E | apply Qltb_ge in E]
  | |- context [Qle_bool ?a ?b] =>
      let E := fresh "E" in
      destruct (Qle_bool a b) eqn:E;
      [apply Qle_bool_iff in E | apply Qle_bool_gt in E]
  end.

Lemma Qnat_pos (n : nat) : (0 < n)%nat -> 0 < Qnat n.
Proof.
  intros H. unfold Qnat, Qlt. simpl. lia.
Qed.

Lemma Qnat_S (n : nat) : Qnat (S n) == Qnat n + 1.
Proof.
  unfold Qnat. rewrite Nat2Z.inj_succ, <- Z.add_1_r, inject_Z_plus. reflexivity.
Qed.

Lemma Qsum_above (t : Q) (l : list Q) :
  Forall (fun x => t < x) l -> l <> [] -> t * Qnat (length l) < Qsum l.
Proof.
  induction 1 as [|x l Hx Hl IH]; intros Hne; [congruence|].
  cbn [length Qsum fold_right]. rewrite Qnat_S.
  destruct l as [|y l'].
  - change (Qnat (length (@nil Q))) with (0 : Q). cbn. lra.
  - assert (t * Qnat (length (y :: l')) < Qsum (y :: l')) by (apply IH; congruence).
    unfold Qsum in *. lra.
Qed.

(** The mean of a non-empty list of numbers above [t] is above [t]. *)
Lemma mean_above (t : Q) (l : list Q) :
  Forall (fun x => t < x) l -> l <> [] -> t < mean l.
Proof.
  intros Hall Hne. unfold mean.
  assert (Hn : 0 < Qnat (length l))
    by (apply Qnat_pos; destruct l; [congruence | cbn; lia]).
  apply Qlt_shift_div_l; [exact Hn|].
  apply Qsum_above; assumption.
Qed.

(** ** Base-two logarithm and note names *)

Lemma Qpower2_pos (k : Z) : 0 < 2 ^ k.
Proof. apply Qpower_0_lt. reflexivity. Qed.

Lemma Qpower2_succ (k : Z) : 2 ^ (k + 1) == 2 * 2 ^ k.
Proof.
  rewrite Qpower_plus by discriminate. change (2 ^ 1) with (2 * 1). ring.
Qed.

Lemma Qpower2_log2 (a : Z) :
  (0 < a)%Z -> 2 ^ Z.log2 a <= inject_Z a /\ inject_Z a < 2 * 2 ^ Z.log2 a.
Proof.
  intros Ha.
  destruct (Z.log2_spec a Ha) as [Hlo Hhi].
  assert (Hnn : (0 <= Z.log2 a)%Z) by apply Z.log2_nonneg.
  assert (E : inject_Z (2 ^ Z.log2 a) == 2 ^ Z.log2 a)
    by (apply Zpower_Qpower; exact Hnn).
  split.
  - rewrite <- E. rewrite <- Zle_Qle. exact Hlo.
  - rewrite <- E. change 2 with (inject_Z 2) at 1. rewrite <- inject_Z_mult.
    rewrite <- Zlt_Qlt. rewrite Z.pow_succ_r in Hhi by exact Hnn. exact Hhi.
Qed.

Lemma floor_log2_spec (q : Q) :
  0 < q -> 2 ^ floor_log2 q <= q /\ q < 2 ^ (floor_log2 q + 1).
Proof.
  intros Hq.
  destruct q as [a b]. 
  assert (Ha : (0 < a)%Z) by (unfold Qlt in Hq; simpl in Hq; lia).
  unfold floor_log2. cbn [Qnum Qden].
  set (la := Z.log2 a). set (lb := Z.log2 (Z.pos b)).
  destruct (Qpower2_log2 a Ha) as [A1 A2]. fold la in A1, A2.
  destruct (Qpower2_log2 (Z.pos b) (Pos2Z.is_pos b)) as [B1 B2]. fold lb in B1, B2.
  assert (Eq : a # b == inject_Z a / inject_Z (Z.pos b)) by apply Qmake_Qdiv.
  assert (HB : 0 < inject_Z (Z.pos b)) by (unfold Qlt; simpl; lia).
  assert (HPA := Qpower2_pos la). assert (HPB := Qpower2_pos lb).
  assert (Ek : 2 ^ (la - lb) == 2 ^ la / 2 ^ lb).
  { unfold Z.sub. rewrite Qpower_plus by discriminate. rewrite Qpower_opp.
    reflexivity. }
  assert (Hup : a # b < 2 * 2 ^ (la - lb)).
  { rewrite Eq, Ek. apply Qlt_shift_div_r; [exact HB|].
    unfold Qdiv. 
    assert (X : 2 * (2 ^ la * / 2 ^ lb) * inject_Z (Z.pos b) == (2 * 2 ^ la) * (inject_Z (Z.pos b) / 2 ^ lb)) by (unfold Qdiv; ring).
    rewrite X. 
    assert (1 <= inject_Z (Z.pos b) / 2 ^ lb) by (apply Qle_shift_div_l; [exact HPB|lra]).
    nra. }
  assert (Hlow : 2 ^ (la - lb) < 2 * (a # b)).
  { rewrite Eq, Ek. apply Qlt_shift_div_r; [exact HPB|].
    assert (X : 2 * (inject_Z a / inject_Z (Z.pos b)) * 2 ^ lb == (2 * 2 ^ lb / inject_Z (Z.pos b)) * inject_Z a) by (unfold Qdiv; ring).
    rewrite X.
    assert (1 < 2 * 2 ^ lb / inject_Z (Z.pos b)) by (apply Qlt_shift_div_l; [exact HB|lra]).
    nra. }
  destruct (Qle_bool (2 ^ (la - lb)) (a # b)) eqn:E.
  - apply Qle_bool_iff in E. split; [exact E|]. rewrite Qpower2_succ. exact Hup.
  - apply Qle_bool_gt in E.
    replace (la - lb - 1 + 1)%Z with (la - lb)%Z by lia.
    split; [|exact E].
    assert (E2 : 2 ^ (la - lb) == 2 * 2 ^ (la - lb - 1)).
    { rewrite <- Qpower2_succ. replace (la - lb - 1 + 1)%Z with (la - lb)%Z by lia. reflexivity. }
    lra.
Qed.

(** [halfsteps_from_c0 freq] is the floor of [12 * log2 (freq / 440) + 57]:
    [2 ^ ((h - 57) / 12) <= freq / 440 < 2 ^ ((h - 56) / 12)], stated on
    twelfth powers. *)
Lemma halfsteps_from_c0_spec (freq : Q) :
  0 < freq ->
  let h := VirtualListener.halfsteps_from_c0 freq in
  2 ^ (h - 57) <= (freq / 440) ^ 12 /\ (freq / 440) ^ 12 < 2 ^ (h - 56).
Proof.
  intros Hf h.
  assert (Hp : 0 < (freq / 440) ^ 12).
  { apply Qpower_0_lt. apply Qlt_shift_div_l; lra. }
  destruct (floor_log2_spec _ Hp) as [Hlo Hhi].
  unfold h, VirtualListener.halfsteps_from_c0.
  replace (floor_log2 ((freq / 440) ^ 12) + 57 - 57)%Z
    with (floor_log2 ((freq / 440) ^ 12)) by lia.
  replace (floor_log2 ((freq / 440) ^ 12) + 57 - 56)%Z
    with (floor_log2 ((freq / 440) ^ 12) + 1)%Z by lia.
  split; assumption.
Qed.

Section NoteNames.
Import VirtualListener.

(** A positive frequency is named by one of the twelve note names followed
    by the octave number. *)
Lemma freq_to_note_shape (freq : Q) :
  0 < freq ->
  exists name, In name notes
    /\ freq_to_note freq
       = (name ++ str_of_int (halfsteps_from_c0 freq / 12))%string.
Proof.
  intros Hf. unfold freq_to_note.
  destruct (Qle_bool freq 0) eqn:E; [apply Qle_bool_iff in E; lra|].
  eexists. split; [|reflexivity].
  apply nth_In.
  pose proof (Z.mod_pos_bound (halfsteps_from_c0 freq) 12 ltac:(lia)).
  change (length notes) with 12%nat. lia.
Qed.

End NoteNames.

(** ** Pitch engines and fusion *)

Section Engines.
Import VirtualListener.

Lemma select_valid_indices (pre cs : list Q) :
  select (pre ++ cs) (valid_indices_from (length pre) cs)
  = Ok (List.filter (Qltb min_confidence) cs).
Proof.
  revert pre. induction cs as [|c rest IH]; intros pre; [reflexivity|].
  assert (Hstep : select (pre ++ c :: rest) (valid_indices_from (S (length pre)) rest)
                  = Ok (List.filter (Qltb min_confidence) rest)).
  { specialize (IH (pre ++ [c])).
    rewrite <- app_assoc in IH. cbn [app] in IH.
    rewrite length_app in IH. cbn [length] in IH.
    rewrite Nat.add_1_r in IH. exact IH. }
  cbn [valid_indices_from List.filter].
  destruct (Qltb min_confidence c); [|exact Hstep].
  cbn [select]. rewrite nth_error_app2 by lia. rewrite Nat.sub_diag. cbn [nth_error].
  rewrite Hstep. reflexivity.
Qed.

Lemma select_length {A} (xs : list A) (idx : list nat) (r : list A) :
  select xs idx = Ok r -> length r = length idx.
Proof.
  revert r. induction idx as [|i rest IH]; intros r H; cbn in H.
  - injection H as <-. reflexivity.
  - destruct (nth_error xs i); [|discriminate].
    destruct (select xs rest) as [r'|]; [|discriminate].
    cbn in H. injection H as <-. cbn. f_equal. apply IH. reflexivity.
Qed.

Lemma filter_above (l : list Q) :
  Forall (fun c => min_confidence < c) (List.filter (Qltb min_confidence) l).
Proof.
  apply List.Forall_forall. intros c Hin. apply filter_In in Hin as [_ H].
  apply Qltb_lt. exact H.
Qed.

(** What a successful engine call looks like. *)
Lemma engine_estimate_inv (body : engine_body) (vp vc : list Q) :
  let vi := valid_indices (confidences body) in
  is_empty vi = false ->
  select (confidences body) vi = Ok vc ->
  vc <> [] /\ Forall (fun c => min_confidence < c) vc.
Proof.
  intros vi Hne Hsel.
  pose proof (select_valid_indices [] (confidences body)) as E.
  cbn [app length] in E. fold (valid_indices (confidences body)) in E. fold vi in E.
  rewrite E in Hsel. injection Hsel as <-.
  split; [|apply filter_above].
  apply select_length in E. intros Hnil. rewrite Hnil in E.
  destruct vi; [discriminate Hne | discriminate E].
Qed.

Lemma crepe_confidence (r : engine_reply) (e : estimate) :
  _analyze_with_crepe r = Some e -> min_confidence < confidence e.
Proof.
  unfold _analyze_with_crepe, crepe_try, catch.
  destruct r as [|status [body|]]; try discriminate.
  - destruct (status =? 200)%Z; [|discriminate].
    destruct (negb (is_empty (pitches body)) && negb (is_empty (confidences body)));
      [|discriminate].
    destruct (is_empty (valid_indices (confidences body))) eqn:Hvi; cbn [negb];
      [discriminate|].
    destruct (select (pitches body) _) as [vp|]; cbn; [|discriminate].
    destruct (select (confidences body) _) as [vc|] eqn:Hvc; cbn; [|discriminate].
    intros H. injection H as <-. cbn [confidence].
    destruct (engine_estimate_inv body vp vc Hvi Hvc) as [Hne Hall].
    apply mean_above; assumption.
  - destruct (status =? 200)%Z; discriminate.
Qed.

Lemma spice_confidence (r : engine_reply) (e : estimate) :
  _analyze_with_spice r = Some e -> min_confidence < confidence e.
Proof.
  unfold _analyze_with_spice, spice_try, catch.
  destruct r as [|status [body|]]; try discriminate.
  - destruct (status =? 200)%Z; [|discriminate].
    destruct (negb (is_empty (pitches body)) && negb (is_empty (confidences body)));
      [|discriminate].
    destruct (is_empty (valid_indices (confidences body))) eqn:Hvi; cbn [negb];
      [discriminate|].
    destruct (select (pitches body) _) as [vp|]; cbn; [|discriminate].
    destruct (select (confidences body) _) as [vc|] eqn:Hvc; cbn; [|discriminate].
    destruct (if negb (is_empty (body_notes body)) then _ else _) as [vn|]; cbn;
      [|discriminate].
    intros H. injection H as <-. cbn [confidence].
    destruct (engine_estimate_inv body vp vc Hvi Hvc) as [Hne Hall].
    apply mean_above; assumption.
  - destruct (status =? 200)%Z; discriminate.
Qed.

(** The label list after a frame for which a combined label is built. *)
Lemma analyze_chunk_labels (st : listener) (fr : frame) (t : Z) (l : label) :
  _create_combined_label (_analyze_with_crepe (crepe_reply fr))
    (_analyze_with_spice (spice_reply fr)) t (amplitude fr) = Some l ->
  labels (analyze_chunk st fr t) = labels st ++ [l].
Proof.
  intros H. unfold analyze_chunk. rewrite H. reflexivity.
Qed.

End Engines.

Section Fusion.
Import VirtualListener.

(** C1 (fusion law).  For a frame on which both engines return an estimate
    (each then has a mean confidence above the threshold [min_confidence],
    so the weights do not sum to zero), the label appended for the frame
    carries the confidence-weighted mean of the two frequencies and the
    arithmetic mean of the two confidences. *)
Theorem fusion_law (st : listener) (fr : frame) (t : Z) (e1 e2 : estimate) :
  _analyze_with_crepe (crepe_reply fr) = Some e1 ->
  _analyze_with_spice (spice_reply fr) = Some e2 ->
  exists l,
    labels (analyze_chunk st fr t) = labels st ++ [l]
    /\ min_confidence < confidence e1
    /\ min_confidence < confidence e2
    /\ l_frequency l ==
         (frequency e1 * confidence e1 + frequency e2 * confidence e2)
         / (confidence e1 + confidence e2)
    /\ l_confidence l == (confidence e1 + confidence e2) / 2.
Proof.
  intros H1 H2.
  eexists. split; [|split; [|split; [|split]]].
  - apply analyze_chunk_labels. rewrite H1, H2. cbn. reflexivity.
  - apply (crepe_confidence _ _ H1).
  - apply (spice_confidence _ _ H2).
  - cbn. reflexivity.
  - cbn. reflexivity.
Qed.

Lemma fusion_law_witness :
  exists l,
    labels (analyze_chunk init two_engine_frame 0) = labels init ++ [l]
    /\ l_frequency l == (440 * (9#10) + 438 * (8#10)) / ((9#10) + (8#10))
    /\ l_confidence l == ((9#10) + (8#10)) / 2.
Proof.
  destruct (fusion_law init two_engine_frame 0
              {| frequency := mean [440]; confidence := mean [9#10];
                 est_notes := []; source := "CREPE" |}
              {| frequency := mean [438]; confidence := mean [8#10];
                 est_notes := []; source := "SPICE" |}
              eq_refl eq_refl) as (l & Hl & _ & _ & Hf & Hc).
  exists l. split; [exact Hl|]. split.
  - rewrite Hf. vm_compute. reflexivity.
  - rewrite Hc. vm_compute. reflexivity.
Defined.

(** C2 (two-engine scenario).  With reports (440.0 Hz, 0.9) and
    (438.0 Hz, 0.8) the frame's label has frequency 7464/17 = 439.058...,
    within 0.01 of 439.05; its note name is G#4, because [freq_to_note]
    takes the floor of the half-step count, and 7464/17 lies just below
    440. *)
Theorem two_engine_scenario :
  exists l,
    labels (analyze_chunk init two_engine_frame 0) = [l]
    /\ l_frequency l == 7464 # 17
    /\ Qabs (l_frequency l - (43905 # 100)) < 1 # 100
    /\ l_note l = "G#4"%string
    /\ freq_to_note 440 = "A4"%string.
Proof.
  eexists. split; [vm_compute; reflexivity|].
  split; [vm_compute; reflexivity|].
  split; [vm_compute; reflexivity|].
  split; vm_compute; reflexivity.
Qed.

(** C8 (graceful degradation).  An engine call that raises (time-out,
    refused connection, malformed answer) yields no estimate and the frame
    analysis goes on; when exactly one engine yields an estimate, the label
    of the frame carries that estimate's frequency and confidence unchanged
    and the note name of that frequency; a single report (196.0 Hz, 0.85)
    with the other engine failing gives frequency 196, confidence 0.85 and
    note G3. *)
Theorem graceful_degradation :
  (forall r, crepe_try r = Raised -> _analyze_with_crepe r = None)
  /\ (forall r, spice_try r = Raised -> _analyze_with_spice r = None)
  /\ (forall st fr t e,
        sole_estimate fr e ->
        exists l,
          labels (analyze_chunk st fr t) = labels st ++ [l]
          /\ l_frequency l = frequency e
          /\ l_confidence l = confidence e
          /\ l_note l = freq_to_note (frequency e))
  /\ (exists l,
        labels (analyze_chunk init one_engine_frame 0) = [l]
        /\ l_frequency l == 196
        /\ l_confidence l == 85 # 100
        /\ l_note l = "G3"%string).
Proof.
  split; [|split; [|split]].
  - intros r H. unfold _analyze_with_crepe. rewrite H. reflexivity.
  - intros r H. unfold _analyze_with_spice. rewrite H. reflexivity.
  - intros st fr t e [[Hc Hs] | [Hc Hs]].
    + eexists. split; [apply analyze_chunk_labels; rewrite Hc, Hs; reflexivity|].
      cbn. auto.
    + eexists. split; [apply analyze_chunk_labels; rewrite Hc, Hs; reflexivity|].
      cbn. auto.
  - eexists. split; [vm_compute; reflexivity|].
    split; [vm_compute; reflexivity|].
    split; vm_compute; reflexivity.
Qed.

Lemma graceful_degradation_witness :
  sole_estimate one_engine_frame
    {| frequency := mean [196]; confidence := mean [85#100];
       est_notes := []; source := "CREPE" |}
  /\ exists l,
       labels (analyze_chunk init one_engine_frame 0) = labels init ++ [l]
       /\ l_note l = "G3"%string.
Proof.
  assert (H : sole_estimate one_engine_frame
                {| frequency := mean [196]; confidence := mean [85#100];
                   est_notes := []; source := "CREPE" |})
    by (left; split; reflexivity).
  split; [exact H|].
  destruct graceful_degradation as (_ & _ & Hpass & _).
  destruct (Hpass init one_engine_frame 0%Z _ H) as (l & Hl & _ & _ & Hn).
  exists l. split; [exact Hl|]. rewrite Hn. vm_compute. reflexivity.
Defined.

End Fusion.


(** ** Breath detection *)

Section Breath.
Import VirtualListener.

Lemma forallb_skipn {A} (P : A -> bool) (d : A) (l : list A) (k : nat) :
  forallb P (skipn k l) = true
  <-> forall i, (k <= i < length l)%nat -> P (nth i l d) = true.
Proof.
  revert k. induction l as [|x l IH]; intros k.
  - rewrite skipn_nil. cbn. split; [intros _ i Hi; lia | reflexivity].
  - destruct k as [|k].
    + cbn [skipn forallb]. rewrite andb_true_iff.
      specialize (IH 0%nat). cbn [skipn] in IH. rewrite IH. split.
      * intros [Hx Hl] [|i] Hi; [exact Hx|]. cbn [nth]. apply Hl. cbn in Hi. lia.
      * intros H. split; [apply (H 0%nat); cbn; lia|].
        intros i Hi. apply (H (S i)). cbn. lia.
    + cbn [skipn]. rewrite IH. split.
      * intros H [|i] Hi; [lia|]. cbn [nth]. apply H. cbn in Hi. lia.
      * intros H i Hi. apply (H (S i)). cbn. lia.
Qed.

Lemma breath_at_prefix (pre post : list Q) (a : Q) :
  breath_at (pre ++ a :: post) (length pre) <-> breath_at (pre ++ [a]) (length pre).
Proof.
  unfold breath_at. rewrite !length_app. cbn [length].
  assert (Hn : forall i, (i <= length pre)%nat ->
                         nth i (pre ++ a :: post) 0 = nth i (pre ++ [a]) 0).
  { intros i Hi. destruct (Nat.eq_dec i (length pre)) as [->|Hne].
    - rewrite !app_nth2 by lia. rewrite Nat.sub_diag. reflexivity.
    - rewrite !app_nth1 by lia. reflexivity. }
  rewrite (Hn (length pre)) by lia.
  split; intros (H5 & _ & Ha & Hall); (split; [exact H5|]); (split; [lia|]);
    (split; [exact Ha|]); intros i Hi.
  - rewrite <- Hn by lia. apply Hall. exact Hi.
  - rewrite Hn by lia. apply Hall. exact Hi.
Qed.

Lemma analyze_chunk_amplitudes (st : listener) (fr : frame) (t : Z) :
  amplitudes (analyze_chunk st fr t) = amplitudes st ++ [amplitude fr].
Proof.
  unfold analyze_chunk, amplitudes.
  destruct (_create_combined_label _ _ _ _); cbn [amplitude_history];
    rewrite map_app; reflexivity.
Qed.

Lemma analyze_chunk_breath_positions (st : listener) (fr : frame) (t : Z) :
  breath_positions (analyze_chunk st fr t)
  = if breath_test st fr t then breath_positions st ++ [t] else breath_positions st.
Proof.
  unfold analyze_chunk, breath_test.
  destruct (_create_combined_label _ _ _ _); cbn [breath_positions];
    destruct (Qltb (amplitude fr) (1#100)); cbn [andb]; try reflexivity;
    destruct (5 <? _)%nat; cbn [andb]; reflexivity.
Qed.

Lemma breath_test_spec (st : listener) (fr : frame) (t : Z) :
  breath_test st fr t = true
  <-> breath_at (amplitudes st ++ [amplitude fr]) (length (amplitudes st)).
Proof.
  unfold breath_test, breath_at, amplitudes, last_n.
  set (a := amplitude fr).
  rewrite <- skipn_map, map_app. cbn [map a_amplitude].
  rewrite (length_app (amplitude_history st)), (length_app (map _ _)).
  cbn [length]. rewrite length_map.
  set (pre := map a_amplitude (amplitude_history st)).
  assert (Hlen : length (amplitude_history st) = length pre)
    by (unfold pre; rewrite length_map; reflexivity).
  rewrite !Hlen.
  rewrite !andb_true_iff, Qltb_lt, Nat.ltb_lt, (forallb_skipn _ 0).
  rewrite length_app. cbn [length].
  rewrite app_nth2, Nat.sub_diag by lia. cbn [nth].
  split.
  - intros [[Ha H5] Hall]. repeat split; try lia; [exact Ha|].
    intros i Hi. apply Qltb_lt. apply Hall. lia.
  - intros (H5 & _ & Ha & Hall). repeat split; try lia; [exact Ha|].
    intros i Hi. apply Qltb_lt. apply Hall. lia.
Qed.

(** State of the session after the loop has read [chunks], started with
    history [amplitudes st] at time offset [length (amplitudes st)]. *)
Lemma listen_from_breath (chunks : list frame) (st : listener) (t : Z) :
  let amps := amplitudes st ++ map amplitude chunks in
  forall x,
    In x (breath_positions (listen_from st t chunks))
    <-> In x (breath_positions st)
        \/ exists n, x = (t + Z.of_nat n - Z.of_nat (length (amplitudes st)))%Z
                     /\ (length (amplitudes st) <= n)%nat
                     /\ breath_at amps n.
Proof.
  revert st t. induction chunks as [|fr rest IH]; intros st t amps x.
  - cbn [listen_from]. split; [auto|]. intros [H|(n & _ & Hn & _ & Hlt & _)]; [exact H|].
    unfold amps in Hlt. cbn [map] in Hlt. rewrite app_nil_r in Hlt. lia.
  - cbn [listen_from]. rewrite IH. clear IH.
    rewrite analyze_chunk_amplitudes, analyze_chunk_breath_positions.
    rewrite length_app. cbn [length].
    assert (Eamps : (amplitudes st ++ [amplitude fr]) ++ map amplitude rest = amps)
      by (unfold amps; rewrite <- app_assoc; reflexivity).
    rewrite Eamps.
    assert (Hhere : breath_test st fr t = true <-> breath_at amps (length (amplitudes st))).
    { rewrite breath_test_spec. unfold amps. cbn [map].
      symmetry. apply breath_at_prefix. }
    split.
    + intros [Hin | (n & -> & Hn & Hb)].
      * destruct (breath_test st fr t) eqn:Et; [|left; exact Hin].
        apply in_app_or in Hin as [Hin | [<- | []]]; [left; exact Hin|].
        right. exists (length (amplitudes st)). split; [lia|].
        split; [lia|]. apply Hhere. reflexivity.
      * right. exists n. split; [lia|]. split; [lia|]. exact Hb.
    + intros [Hin | (n & -> & Hn & Hb)].
      * left. destruct (breath_test st fr t); [apply in_or_app; left|]; exact Hin.
      * destruct (Nat.eq_dec n (length (amplitudes st))) as [->|Hne].
        -- left. apply Hhere in Hb. rewrite Hb. apply in_or_app. right. left. lia.
        -- right. exists n. split; [lia|]. split; [lia|]. exact Hb.
Qed.

(** C3, as the code has it.  A time offset is in [breath_positions] after
    a session exactly when it is the index [n] of a frame whose amplitude is
    below 0.01, which has at least five frames before it, and such that the
    amplitudes of frames [n - 4 .. n] are all below 0.02.  The thresholds
    are constants, and the index recorded is that of the last frame of the
    quiet run: with five frames at 0.005 after [0.5, 0.4] the position
    recorded is 6. *)
Theorem breath_recorded_iff (chunks : list frame) (x : Z) :
  (In x (breath_positions (listen chunks))
   <-> exists n, x = Z.of_nat n /\ breath_at (map amplitude chunks) n)
  /\ breath_positions (listen (silent_frames quiet_scenario)) = [6%Z].
Proof.
  split; [|vm_compute; reflexivity].
  unfold listen. rewrite (listen_from_breath chunks init 0%Z).
  change (amplitudes init) with (@nil Q). cbn [app length breath_positions init].
  split.
  - intros [[] | (n & -> & _ & Hb)]. exists n. split; [lia | exact Hb].
  - intros (n & -> & Hb). right. exists n. split; [lia|]. split; [lia | exact Hb].
Qed.

(** C3, as stated, fails on its own scenario: feeding
    [0.5, 0.4, 0.01, 0.01, 0.01, 0.01, 0.01] records no breath position at
    all (0.01 is not below 0.01), so none at index 2. *)
Lemma breath_scenario_counterexample :
  breath_positions (listen (silent_frames breath_scenario)) = []
  /\ ~ In 2%Z (breath_positions (listen (silent_frames breath_scenario))).
Proof.
  assert (E : breath_positions (listen (silent_frames breath_scenario)) = [])
    by (vm_compute; reflexivity).
  split; [exact E|]. rewrite E. intros [].
Qed.

End Breath.

(** ** Performance score *)

Section Score.
Import VirtualListener.

Lemma Qnat_nonneg (n : nat) : 0 <= Qnat n.
Proof. unfold Qnat, Qle. simpl. lia. Qed.

(** Every component is capped by its weight. *)
Lemma score_components_capped (st : stats) :
  let c := score_breakdown_of st in
  pitch_accuracy c <= 25 /\ technique_variety c <= 20 /\ vibrato_quality c <= 15
  /\ dynamics_control c <= 15 /\ breath_support c <= 15 /\ passaggio_handling c <= 10.
Proof.
  unfold score_breakdown_of. cbn [pitch_accuracy technique_variety vibrato_quality
    dynamics_control breath_support passaggio_handling].
  repeat split.
  all: try apply Q.le_min_r.
  apply Q.max_lub; [lra | apply Q.le_min_r].
Qed.

Lemma score_total_le_100 (st : stats) :
  sum_components (score_breakdown_of st) <= 100.
Proof.
  destruct (score_components_capped st) as (H1 & H2 & H3 & H4 & H5 & H6).
  unfold sum_components. lra.
Qed.

(** With a non-negative mean confidence and a non-negative consistency of
    the detected vibrato, no component is negative. *)
Lemma score_components_nonneg (st : stats) :
  plausible_stats st ->
  let c := score_breakdown_of st in
  0 <= pitch_accuracy c /\ 0 <= technique_variety c /\ 0 <= vibrato_quality c
  /\ 0 <= dynamics_control c /\ 0 <= breath_support c /\ 0 <= passaggio_handling c.
Proof.
  intros [Hc Hv]. unfold score_breakdown_of.
  cbn [pitch_accuracy technique_variety vibrato_quality
    dynamics_control breath_support passaggio_handling].
  pose proof (Qnat_nonneg (default 0%nat (s_variety_score st))).
  pose proof (Qnat_nonneg (default 0%nat (s_dynamic_variety st))).
  pose proof (Qnat_nonneg (default 0%nat (s_detected_transitions st))).
  repeat split.
  - apply Q.min_glb; lra.
  - apply Q.min_glb; lra.
  - apply Q.min_glb; [|lra].
    destruct (s_vibrato_analysis st) as [v|]; [|lra].
    destruct (v_detected v); [|lra].
    specialize (Hv eq_refl).
    pose proof (Q.le_max_l 0 (10 - Qabs (v_average_rate v - (55#10)) * 2)).
    pose proof (Q.le_max_l 0 (5 - Qabs (v_average_depth v - 50) * (1#10))).
    lra.
  - apply Q.min_glb; lra.
  - apply Q.le_max_l.
  - apply Q.min_glb; lra.
Qed.

Lemma score_total_bounds (st : stats) :
  plausible_stats st ->
  0 <= sum_components (score_breakdown_of st) <= 100.
Proof.
  intros H. split; [|apply score_total_le_100].
  destruct (score_components_nonneg st H) as (H1 & H2 & H3 & H4 & H5 & H6).
  unfold sum_components. lra.
Qed.

(** A higher total never yields a lower grade. *)
Lemma grade_monotone (t1 t2 : Q) :
  t1 <= t2 -> (grade_rank (grade_of t1) <= grade_rank (grade_of t2))%nat.
Proof.
  intros H. unfold grade_of.
  qcases; cbn; try lia; lra.
Qed.

(** C4 at the failing input.  A vibrato detected with averaged rate 12 Hz,
    depth 150 cents and consistency -0.4 scores
    [0 + 0 + (-0.4) * 5 = -2]: the [vibrato_quality] component is negative,
    although the two other terms of the sum are clamped at zero. *)
Theorem vibrato_quality_negative :
  let score := _calculate_performance_score irregular_vibrato_stats in
  vibrato_quality (score_breakdown score) == - 2
  /\ vibrato_quality (score_breakdown score) < 0
  /\ total_score score == 53.
Proof.
  cbv zeta. split; [|split].
  - vm_compute. reflexivity.
  - vm_compute. reflexivity.
  - vm_compute. reflexivity.
Qed.

End Score.

(** ** Reach of the vibrato rate *)

Section VibratoWindows.
Import ProfessionalVocalAnalyzer.

(** A chunk that passes the length guard has at most ten windows. *)
Lemma window_count_le_10 (len : nat) : (1024 <= len)%nat -> (window_count len <= 10)%nat.
Proof.
  intros Hlen. unfold window_count, range_count.
  set (ws := (len / 10)%nat).
  assert (Hws : (102 <= ws)%nat) by (apply Nat.div_le_lower_bound; lia).
  assert (Hmod : (len < 10 * ws + 10)%nat).
  { pose proof (Nat.div_mod_eq len 10) as E.
    pose proof (Nat.mod_upper_bound len 10). fold ws in E. lia. }
  apply Nat.lt_succ_r. apply Nat.Div0.div_lt_upper_bound; lia.
Qed.

Lemma np_diff_length (xs : list Q) : length (np_diff xs) = (length xs - 1)%nat.
Proof.
  induction xs as [|x [|y rest] IH]; cbn [np_diff length] in *; lia.
Qed.

Lemma sign_changes_le (d : list Q) : (sign_changes d <= length d - 1)%nat.
Proof.
  induction d as [|x [|y rest] IH]; cbn [sign_changes length] in *; try lia.
  destruct (eqb _ _); lia.
Qed.

(** With at most ten pitch estimates, one per window, the count of sign
    changes is at most 8 and the rate [zero_crossings / 2] at most 4 Hz. *)
Lemma window_rate_bound (pitch_variations : list Q) :
  (length pitch_variations <= 10)%nat ->
  let zero_crossings := sign_changes (np_diff pitch_variations) in
  (zero_crossings <= 8)%nat /\ Qnat zero_crossings / 2 <= 4.
Proof.
  intros Hlen zc.
  assert (Hzc : (zc <= 8)%nat).
  { unfold zc. pose proof (sign_changes_le (np_diff pitch_variations)) as H.
    rewrite np_diff_length in H. lia. }
  split; [exact Hzc|].
  apply Qle_shift_div_r; [lra|].
  unfold Qnat. change (4 * 2) with (inject_Z 8). rewrite <- Zle_Qle. lia.
Qed.

End VibratoWindows.

(** ** Vibrato type *)

Section Vibrato.
Import ProfessionalVocalAnalyzer.

(** The four outcomes of the type classification, by the branch taken. *)
Lemma vibrato_type_of_cases (r d : Q) :
  (natural_range r d /\ vibrato_type_of r d = "natural"%string)
  \/ (~ natural_range r d /\ 8 < r /\ vibrato_type_of r d = "tremolo"%string)
  \/ (~ natural_range r d /\ r < 3 /\ vibrato_type_of r d = "wobble"%string)
  \/ (~ natural_range r d /\ 3 <= r /\ r <= 8
      /\ vibrato_type_of r d = "irregular"%string).
Proof.
  unfold vibrato_type_of, natural_range.
  destruct (Qle_bool 4 r) eqn:E1; [apply Qle_bool_iff in E1 | apply Qle_bool_gt in E1];
  destruct (Qle_bool r 7) eqn:E2; [apply Qle_bool_iff in E2 | apply Qle_bool_gt in E2 | apply Qle_bool_iff in E2 | apply Qle_bool_gt in E2];
  destruct (Qle_bool 20 d) eqn:E3; [apply Qle_bool_iff in E3 | apply Qle_bool_gt in E3 | apply Qle_bool_iff in E3 | apply Qle_bool_gt in E3 | apply Qle_bool_iff in E3 | apply Qle_bool_gt in E3 | apply Qle_bool_iff in E3 | apply Qle_bool_gt in E3];
  destruct (Qle_bool d 100) eqn:E4; cbn [andb].
  all: try (apply Qle_bool_iff in E4); try (apply Qle_bool_gt in E4).
  1: left; repeat split; assumption.
  all: right.
  all: destruct (Qltb 8 r) eqn:E5; [apply Qltb_lt in E5 | apply Qltb_ge in E5].
  all: try (left; split; [intros [[? ?] [? ?]]; lra | split; [exact E5 | reflexivity]]).
  all: right.
  all: destruct (Qltb r 3) eqn:E6; [apply Qltb_lt in E6 | apply Qltb_ge in E6].
  all: try (left; split; [intros [[? ?] [? ?]]; lra | split; [exact E6 | reflexivity]]).
  all: right; split; [intros [[? ?] [? ?]]; lra | repeat split; assumption].
Qed.

End Vibrato.

(** ** Vocal health *)

Section VocalHealth.
Import ProfessionalVocalAnalyzer.

Variable log10 : Q -> Q.

Lemma clamp_bounds (x : Q) : 0 <= Qmax 0 (Qmin x 25) /\ Qmax 0 (Qmin x 25) <= 25.
Proof.
  split; [apply Q.le_max_l|].
  apply Q.max_lub; [lra | apply Q.le_min_r].
Qed.

(** The estimate lies on the scale [0, 25] on every path: the clamped
    value, the value 0 of a non-positive ratio, and the default 10. *)
Lemma hnr_bounds (audio_chunk : audio) :
  0 <= _calculate_hnr log10 audio_chunk /\ _calculate_hnr log10 audio_chunk <= 25.
Proof.
  unfold _calculate_hnr, hnr_try, catch.
  destruct (autocorr audio_chunk) as [|total_energy [|a1 rest]];
    try (cbv [default from_option id]; split; lra).
  destruct (Qltb 0 total_energy);
    [|cbv [default from_option id]; split; lra].
  destruct (Qltb (np_max a1 rest / total_energy) 1).
  - destruct (Qltb 0 (np_max a1 rest / total_energy));
      cbv beta iota delta [default from_option id].
    + apply clamp_bounds.
    + split; lra.
  - cbv beta iota delta [default from_option id]. apply clamp_bounds.
Qed.

(** C7 (vocal health).  For every non-empty audio chunk, the
    harmonic-to-noise estimate lies in [0, 25], the vocal strain is
    [max(0, 1 - HNR / 15)], and the breath efficiency is the pitch
    confidence times [min(energy * 10, 1)], where the energy is the mean
    square of the samples. *)
Theorem vocal_health_postconditions (audio_chunk : audio) (pd : pitch_data)
    (formants : FormantProfile) :
  audio_chunk <> [] ->
  let hnr := _calculate_hnr log10 audio_chunk in
  let energy := mean (map (fun x => x ^ 2) audio_chunk) in
  let health := _assess_vocal_health log10 audio_chunk pd formants in
  (0 <= hnr /\ hnr <= 25)
  /\ vocal_strain health == Qmax 0 (1 - hnr / 15)
  /\ breath_efficiency health == default 0 (pd_confidence pd) * Qmin (energy * 10) 1.
Proof.
  intros _ hnr energy health.
  split; [apply hnr_bounds|].
  unfold health, _assess_vocal_health. cbn [vocal_strain breath_efficiency].
  split; reflexivity.
Qed.

End VocalHealth.

Section VocalHealthWitness.
Import ProfessionalVocalAnalyzer.

Lemma vocal_health_postconditions_witness :
  alternating2 <> []
  /\ 0 <= _calculate_hnr log10_near_one alternating2 <= 25
  /\ vocal_strain (_assess_vocal_health log10_near_one alternating2
                     {| pd_frequency := 220; pd_confidence := Some (9#10) |}
                     neutral_formants) == 1.
Proof.
  assert (Hne : alternating2 <> []) by discriminate.
  split; [exact Hne|].
  destruct (vocal_health_postconditions log10_near_one alternating2
              {| pd_frequency := 220; pd_confidence := Some (9#10) |}
              neutral_formants Hne) as (Hb & Hs & _).
  split; [exact Hb|].
  rewrite Hs. vm_compute. reflexivity.
Defined.

End VocalHealthWitness.

(** ** Register and vowel classification *)

Section Classification.
Import ProfessionalVocalAnalyzer.

Lemma Qltb_compat (x x' y y' : Q) : x == x' -> y == y' -> Qltb x y = Qltb x' y'.
Proof.
  intros Hx Hy. unfold Qltb. rewrite Hx, Hy. reflexivity.
Qed.

Lemma distance2_compat (p1 p2 : FormantProfile) (ref : Q * Q) :
  f1 p1 == f1 p2 -> f2 p1 == f2 p2 -> distance2 p1 ref == distance2 p2 ref.
Proof.
  intros H1 H2. unfold distance2. rewrite H1, H2. reflexivity.
Qed.

Lemma vowel_loop_compat (p1 p2 : FormantProfile) :
  f1 p1 == f1 p2 -> f2 p1 == f2 p2 ->
  forall table m1 m2 best,
    same_minimum m1 m2 ->
    same_minimum (fst (vowel_loop p1 table m1 best)) (fst (vowel_loop p2 table m2 best))
    /\ snd (vowel_loop p1 table m1 best) = snd (vowel_loop p2 table m2 best).
Proof.
  intros H1 H2 table.
  induction table as [|[vowel ref] rest IH]; intros m1 m2 best Hm.
  - cbn. auto.
  - cbn [vowel_loop].
    pose proof (distance2_compat p1 p2 ref H1 H2) as Hd.
    assert (Hc : match m1 with None => true | Some m => Qltb (distance2 p1 ref) m end
               = match m2 with None => true | Some m => Qltb (distance2 p2 ref) m end).
    { destruct m1, m2; cbn in Hm; try contradiction; [|reflexivity].
      apply Qltb_compat; assumption. }
    rewrite Hc.
    destruct (match m2 with None => true | Some m => Qltb (distance2 p2 ref) m end).
    + apply IH. exact Hd.
    + apply IH. exact Hm.
Qed.

(** The vowel depends on the first two formants only. *)
Lemma vowel_of_f1_f2 (p1 p2 : FormantProfile) :
  f1 p1 == f1 p2 -> f2 p1 == f2 p2 ->
  _classify_vowel_shape p1 = _classify_vowel_shape p2.
Proof.
  intros H1 H2. unfold _classify_vowel_shape.
  destruct (vowel_loop_compat p1 p2 H1 H2 vowel_formants None None SCHWA Logic.I)
    as [Hm Hb].
  destruct (vowel_loop p1 vowel_formants None SCHWA) as [m1 b1].
  destruct (vowel_loop p2 vowel_formants None SCHWA) as [m2 b2].
  cbn [fst snd] in Hm, Hb. subst b2.
  destruct m1, m2; cbn in Hm; try contradiction; [|reflexivity].
  rewrite (Qltb_compat (400 ^ 2) (400 ^ 2) q q0); [reflexivity | reflexivity | exact Hm].
Qed.

(** C5, as the code has it.  The vowel is a function of the formants F1
    and F2 alone.  The register is a function of the frequency, the formant
    profile and the spectral centroid of the audio chunk; the chunk has no
    influence when the frequency is outside the band [700, 1400). *)
Theorem classification_inputs :
  (forall p1 p2 : FormantProfile,
      f1 p1 == f1 p2 -> f2 p1 == f2 p2 ->
      _classify_vowel_shape p1 = _classify_vowel_shape p2)
  /\ (forall fft frequency formants (a1 a2 : audio),
        ~ (700 <= frequency /\ frequency < 1400) ->
        _classify_register_advanced fft frequency formants a1
        = _classify_register_advanced fft frequency formants a2)
  /\ (forall fft frequency formants (a1 a2 : audio),
        _calculate_spectral_centroid fft a1 == _calculate_spectral_centroid fft a2 ->
        _classify_register_advanced fft frequency formants a1
        = _classify_register_advanced fft frequency formants a2).
Proof.
  split; [exact vowel_of_f1_f2|]. split.
  - intros fft frequency formants a1 a2 Hband.
    unfold _classify_register_advanced.
    destruct (Qle_bool 700 frequency && Qltb frequency 1400) eqn:E; [|reflexivity].
    exfalso. apply Hband. apply andb_true_iff in E as [E1 E2].
    split; [apply Qle_bool_iff, E1 | apply Qltb_lt, E2].
  - intros fft frequency formants a1 a2 Hc.
    unfold _classify_register_advanced.
    rewrite (Qltb_compat 2000 2000 _ _ (Qeq_refl _) Hc). reflexivity.
Qed.

Lemma classification_inputs_witness :
  ~ (700 <= 440 /\ 440 < 1400)
  /\ _classify_register_advanced rfft_abs_upto2 440 neutral_formants silence2
     = _classify_register_advanced rfft_abs_upto2 440 neutral_formants alternating2.
Proof.
  assert (H : ~ (700 <= 440 /\ 440 < 1400)) by (intros [H _]; vm_compute in H; apply H; reflexivity).
  split; [exact H|].
  destruct classification_inputs as (_ & Hout & _).
  apply Hout. exact H.
Defined.

(** C5, as stated, fails for the register: at 800 Hz and with one and the
    same formant profile, a silent chunk is classified falsetto and a chunk
    with its energy at the top of the spectrum is classified head. *)
Lemma register_depends_on_audio :
  _classify_register_advanced rfft_abs_upto2 800 neutral_formants silence2 = FALSETTO
  /\ _classify_register_advanced rfft_abs_upto2 800 neutral_formants alternating2 = HEAD
  /\ _classify_register_advanced rfft_abs_upto2 800 neutral_formants silence2
     <> _classify_register_advanced rfft_abs_upto2 800 neutral_formants alternating2.
Proof.
  assert (E1 : _classify_register_advanced rfft_abs_upto2 800 neutral_formants silence2
               = FALSETTO) by (vm_compute; reflexivity).
  assert (E2 : _classify_register_advanced rfft_abs_upto2 800 neutral_formants alternating2
               = HEAD) by (vm_compute; reflexivity).
  split; [exact E1|]. split; [exact E2|]. rewrite E1, E2. discriminate.
Qed.

End Classification.

(** ** Label persistence *)

Section Persistence.
Import LabelDatabase.

Variable lib : sqlite.

Lemma mapM_Ok {A B} (f : A -> exc B) (l : list A) (r : list B) :
  mapM f l = Ok r -> Forall2 (fun x y => f x = Ok y) l r.
Proof.
  revert r. induction l as [|x l IH]; intros r H; cbn in H.
  - injection H as <-. constructor.
  - destruct (f x) as [y|] eqn:Ey; [|discriminate H]. cbn in H.
    destruct (mapM f l) as [k|]; [|discriminate H]. cbn in H.
    injection H as <-. constructor; [exact Ey | apply IH; reflexivity].
Qed.

Lemma integer_as_real_exact (z : Z) :
  (Z.abs z <=? 2 ^ 53)%Z = true -> integer_as_real lib z = inject_Z z.
Proof. unfold integer_as_real. intros ->. reflexivity. Qed.

Lemma real_as_integer_value (q : Q) :
  py_eq (column_value (real_as_integer q)) (PFloat q).
Proof.
  unfold real_as_integer.
  destruct (Qeq_bool q (inject_Z (Qfloor q))) eqn:E; cbn [andb];
    [|unfold py_eq; cbn; reflexivity].
  destruct (_ && _); unfold py_eq; cbn; [|reflexivity].
  apply Qeq_bool_iff in E. symmetry. exact E.
Qed.

(** Python's [==] holds between a scalar of a type that its column keeps
    and what comes back for it. *)
Lemma kept_round_trip (a : affinity) (v : pyval) (y : sqlval) :
  kept_by a v = true -> bind_param v = Ok y ->
  py_eq (column_value (apply_affinity lib a y)) v.
Proof.
  destruct v as [|b|z|q|s|items|items]; cbn [kept_by bind_param];
    intros Hk Hb; try discriminate Hk.
  - injection Hb as <-. destruct a; reflexivity.
  - injection Hb as <-.
    destruct a; try discriminate Hk; cbn [apply_affinity column_value];
      unfold py_eq; cbn; destruct b; reflexivity.
  - destruct (int64 z); [|discriminate Hb]. injection Hb as <-.
    destruct a; try discriminate Hk; cbn [apply_affinity column_value];
      try (unfold py_eq; cbn; reflexivity).
    rewrite integer_as_real_exact by exact Hk. unfold py_eq; cbn. reflexivity.
  - injection Hb as <-.
    destruct a; try discriminate Hk; cbn [apply_affinity column_value];
      try apply real_as_integer_value; unfold py_eq; cbn; reflexivity.
  - injection Hb as <-.
    destruct a; cbn [apply_affinity column_value];
      try (unfold py_eq; cbn; reflexivity);
      unfold numeric_text; apply negb_true_iff in Hk; rewrite Hk;
      unfold py_eq; cbn; reflexivity.
Qed.

(** The row of a label, cell by cell. *)
Lemma new_row_cells (new_id : Z) (now : string)
    (y1 y2 y3 y4 y5 y6 y7 y8 y9 y10 y11 y12 y13 y14 y15 y16 y17 y18 y19 y20 y21 y22 : sqlval) :
  let text := apply_affinity lib AffText in
  let integer := apply_affinity lib AffInteger in
  let real := apply_affinity lib AffReal in
  new_row lib new_id now insert_columns
    [y1; y2; y3; y4; y5; y6; y7; y8; y9; y10; y11; y12; y13; y14; y15; y16;
     y17; y18; y19; y20; y21; y22]
  = [SqlInteger new_id; text y1; text y2; text y3; text y4; real y5; SqlText now;
     integer y6; real y7; text y8; text y9; real y10;
     text y11; text y12; text y13; text y14; text y15; text y16; text y17;
     text y18; text y19; integer y20; text y21; text y22;
     SqlNull; SqlNull].
Proof. reflexivity. Qed.

Lemma row_id_new_row (new_id : Z) (now : string) (cols : list string) (params : list sqlval) :
  row_id (new_row lib new_id now cols params) = SqlInteger new_id.
Proof. reflexivity. Qed.

Lemma insert_inv (db : database) (now : string) (cols : list string)
    (params : list sqlval) (db' : database) (id : Z) :
  insert lib db now cols params = Ok (db', id) ->
  id = (last_id db + 1)%Z
  /\ last_id db' = id
  /\ vocal_labels db' = vocal_labels db ++ [new_row lib id now cols params].
Proof.
  unfold insert. intros Hins.
  destruct (nth 1 _ SqlNull); try discriminate Hins;
    injection Hins as <- <-; repeat split; reflexivity.
Qed.

(** The new row is the one its id selects. *)
Lemma select_by_id_insert (db : database) (now : string) (cols : list string)
    (params : list sqlval) (db' : database) (id : Z) :
  db_wf db ->
  insert lib db now cols params = Ok (db', id) ->
  select_by_id db' id = Some (new_row lib id now cols params).
Proof.
  intros Hwf Hins.
  destruct (insert_inv _ _ _ _ _ _ Hins) as (Hid & _ & Hrows).
  unfold select_by_id. rewrite Hrows. clear Hrows Hins. unfold db_wf in Hwf.
  induction Hwf as [|row rows (k & Hk & Hle) _ IH]; cbn [app List.find].
  - rewrite row_id_new_row, Z.eqb_refl. reflexivity.
  - rewrite Hk. destruct (Z.eqb_spec k id); [lia | exact IH].
Qed.

Lemma insert_wf (db : database) (now : string) (cols : list string)
    (params : list sqlval) (db' : database) (id : Z) :
  db_wf db -> insert lib db now cols params = Ok (db', id) -> db_wf db'.
Proof.
  intros Hwf Hins.
  destruct (insert_inv _ _ _ _ _ _ Hins) as (Hid & Hlast & Hrows).
  unfold db_wf in *. rewrite Hrows, Hlast. apply Forall_app. split.
  - eapply Forall_impl; [exact Hwf|].
    intros row (k & Hk & Hle). exists k. split; [exact Hk | lia].
  - constructor; [|constructor]. exists id.
    split; [apply row_id_new_row | lia].
Qed.

Lemma empty_db_wf : db_wf empty_db.
Proof. constructor. Qed.

Variable json_dumps : pyval -> string.
Variable json_loads : string -> exc pyval.

Lemma parse_field_text (key : string) (data : gmap string pyval) (v : pyval) :
  round_trips json_dumps json_loads v ->
  data !! key = Some (PStr (json_dumps v)) ->
  parse_field json_loads key data = Ok (<[key := v]> data).
Proof.
  intros [Hne Hload] Hkey. unfold parse_field. rewrite Hkey. cbn [truthy].
  destruct (String.eqb_spec (json_dumps v) ""); [contradiction|]. cbn [negb].
  rewrite Hload. reflexivity.
Qed.

(** A parsed field leaves the other keys alone. *)
Lemma parse_field_other (key key' : string) (data data' : gmap string pyval) :
  parse_field json_loads key data = Ok data' ->
  key <> key' -> data' !! key' = data !! key'.
Proof.
  unfold parse_field. intros H Hne.
  destruct (data !! key) as [v|]; [|injection H as <-; reflexivity].
  destruct (truthy v); [|injection H as <-; reflexivity].
  destruct v; try discriminate H.
  destruct (json_loads s) as [parsed|]; [|discriminate H].
  cbn in H. injection H as <-. apply lookup_insert_ne. exact Hne.
Qed.

(** The record reloaded from the row of a saved label. *)
Lemma row_to_dict_saved (label_data : gmap string pyval) (params : list sqlval)
    (id : Z) (now : string) :
  parsed_payloads_round_trip json_dumps json_loads label_data ->
  mapM bind_param (insert_values json_dumps label_data) = Ok params ->
  exists record,
    _row_to_dict json_loads (new_row lib id now insert_columns params) = Ok record
    /\ record !! "id"%string = Some (PInt id)
    /\ stored_view lib record label_data
    /\ payload_view json_dumps record label_data.
Proof.
  intros (R1 & R2 & R3 & R4) Hbind.
  apply mapM_Ok in Hbind. unfold insert_values in Hbind.
  repeat match goal with
  | H : Forall2 _ (_ :: _) _ |- _ => inversion H; subst; clear H
  | H : Forall2 _ [] _ |- _ => inversion H; subst; clear H
  end.
  repeat match goal with
  | H : bind_param (PStr _) = Ok _ |- _ => cbn in H; injection H as <-
  end.
  rewrite new_row_cells. cbv zeta. cbn [apply_affinity].
  unfold _row_to_dict. cbn [map column_value].
  erewrite (parse_field_text "pitch_data"); [|exact R1|reflexivity]. cbn [mbind exc_bind].
  erewrite (parse_field_text "note_sequence");
    [|exact R2|rewrite lookup_insert_ne by done; reflexivity]. cbn [mbind exc_bind].
  erewrite (parse_field_text "vibrato_analysis");
    [|exact R3|rewrite !lookup_insert_ne by done; reflexivity]. cbn [mbind exc_bind].
  erewrite (parse_field_text "dynamics_data");
    [|exact R4|rewrite !lookup_insert_ne by done; reflexivity].
  eexists. split; [reflexivity|].
  split; [rewrite !lookup_insert_ne by done; reflexivity|].
  split.
  - unfold stored_view, field_stored.
    repeat split; eexists; (split; [eassumption|]);
      rewrite !lookup_insert_ne by done; reflexivity.
  - unfold payload_view.
    repeat match goal with |- _ /\ _ => split end.
    all: repeat (rewrite lookup_insert_ne by done).
    all: first [apply lookup_insert_eq | reflexivity].
Qed.

Lemma save_label_inv (db : database) (now : string)
    (label_data : gmap string pyval) (db' : database) (id : Z) :
  save_label lib json_dumps db now label_data = Ok (db', id) ->
  exists params,
    mapM bind_param (insert_values json_dumps label_data) = Ok params
    /\ insert lib db now insert_columns params = Ok (db', id).
Proof.
  unfold save_label. intros H.
  destruct (mapM bind_param _) as [params|]; [|discriminate H].
  exists params. split; [reflexivity | exact H].
Qed.

(** The summary entries of a type that their columns keep come back equal
    to what was saved. *)
Lemma stored_view_typed (record label_data : gmap string pyval) :
  summary_typed label_data -> stored_view lib record label_data ->
  summary_view record label_data.
Proof.
  intros (T1 & T2 & T3 & T4) (S1 & S2 & S3 & S4).
  unfold summary_view.
  repeat split;
    match goal with
    | H : field_stored _ _ ?k _ |- field_equals _ ?k _ =>
        destruct H as (y & Hy & Hr); eexists; split; [exact Hr|];
        apply kept_round_trip; assumption
    end.
Qed.

(** [get_label] on the id returned by [save_label]. *)
Lemma get_label_saved (db : database) (now : string)
    (label_data : gmap string pyval) (db' : database) (id : Z) :
  db_wf db ->
  parsed_payloads_round_trip json_dumps json_loads label_data ->
  save_label lib json_dumps db now label_data = Ok (db', id) ->
  exists record,
    get_label json_loads db' id = Ok (Some record)
    /\ stored_view lib record label_data
    /\ payload_view json_dumps record label_data.
Proof.
  intros Hwf Hrt Hsave.
  destruct (save_label_inv _ _ _ _ _ Hsave) as (params & Hbind & Hins).
  destruct (row_to_dict_saved label_data params id now Hrt Hbind)
    as (record & Hrow & _ & Hsum & Hpay).
  exists record. split; [|split; assumption].
  unfold get_label. rewrite (select_by_id_insert _ _ _ _ _ _ Hwf Hins).
  rewrite Hrow. reflexivity.
Qed.

Lemma In_insert_sorted (row r : list sqlval) (sorted : list (list sqlval)) :
  In r (insert_sorted row sorted) -> r = row \/ In r sorted.
Proof.
  induction sorted as [|x rest IH]; cbn [insert_sorted].
  - intros [<- | []]. left. reflexivity.
  - destruct (newer_or_equal row x).
    + intros [<- | H]; [left; reflexivity | right; exact H].
    + intros [<- | H]; [right; left; reflexivity|].
      destruct (IH H) as [-> | Hin]; [left; reflexivity | right; right; exact Hin].
Qed.

Lemma In_select_recent (db : database) (limit : Z) (row : list sqlval) :
  In row (select_recent db limit) -> In row (vocal_labels db).
Proof.
  unfold select_recent, order_by_created_at_desc.
  assert (Hsorted : forall rs, In row (fold_right insert_sorted [] rs) -> In row rs).
  { induction rs as [|x rs IH]; cbn [fold_right]; [auto|].
    intros H. destruct (In_insert_sorted _ _ _ H) as [-> | Hin];
      [left; reflexivity | right; apply IH; exact Hin]. }
  destruct (limit <? 0)%Z; intros H; apply in_rev; apply Hsorted; [exact H|].
  rewrite <- (firstn_skipn (Z.to_nat limit)). apply in_or_app. left. exact H.
Qed.

Lemma mapM_In {A B} (f : A -> exc B) (l : list A) (r : list B) (y : B) :
  mapM f l = Ok r -> In y r -> exists x, In x l /\ f x = Ok y.
Proof.
  intros H. apply mapM_Ok in H. induction H as [|x y' l r Hxy _ IH]; [intros []|].
  intros [<- | Hin]; [exists x; split; [left; reflexivity | exact Hxy]|].
  destruct (IH Hin) as (x' & Hx' & Hf). exists x'. split; [right; exact Hx' | exact Hf].
Qed.

(** The id of a record is the id of its row. *)
Lemma row_to_dict_id (row : list sqlval) (record : gmap string pyval) (id : Z) :
  _row_to_dict json_loads row = Ok record ->
  record !! "id"%string = Some (PInt id) ->
  row_id row = SqlInteger id.
Proof.
  unfold _row_to_dict. intros H Hid.
  destruct (parse_field json_loads "pitch_data" _) as [d1|] eqn:E1; [|discriminate H].
  cbn [mbind exc_bind] in H.
  destruct (parse_field json_loads "note_sequence" d1) as [d2|] eqn:E2; [|discriminate H].
  cbn [mbind exc_bind] in H.
  destruct (parse_field json_loads "vibrato_analysis" d2) as [d3|] eqn:E3; [|discriminate H].
  cbn [mbind exc_bind] in H.
  rewrite (parse_field_other _ _ _ _ H) in Hid by done.
  rewrite (parse_field_other _ _ _ _ E3) in Hid by done.
  rewrite (parse_field_other _ _ _ _ E2) in Hid by done.
  rewrite (parse_field_other _ _ _ _ E1) in Hid by done.
  destruct row as [|c rest]; [discriminate Hid|].
  unfold columns in Hid. cbn [map zip zip_with list_to_map foldr uncurry] in Hid.
  rewrite lookup_insert_eq in Hid.
  destruct c; try discriminate Hid. injection Hid as ->. reflexivity.
Qed.

(** The first character of a note name is a letter. *)
Lemma note_name_is_no_number (f : Q) :
  starts_like_number (VirtualListener.freq_to_note f) = false.
Proof.
  unfold VirtualListener.freq_to_note.
  destruct (Qle_bool f 0); [reflexivity|].
  set (k := Z.to_nat (VirtualListener.halfsteps_from_c0 f mod 12)).
  assert (Hk : (k < 12)%nat).
  { unfold k. pose proof (Z.mod_pos_bound (VirtualListener.halfsteps_from_c0 f) 12
                            ltac:(lia)). lia. }
  do 12 (destruct k as [|k]; [reflexivity|]). lia.
Qed.

(** The summary entries that the listener computes have types that their
    columns keep. *)
Lemma generated_summary_typed (label_data : gmap string pyval) :
  generated_summary label_data -> summary_typed label_data.
Proof.
  intros ((n & Hn) & Hp & (t & Ht) & Hc). unfold summary_typed, get.
  rewrite Hn, Ht. repeat split.
  - destruct Hp as [-> | (f & ->)]; [reflexivity|].
    change (column_affinity "average_pitch") with AffReal.
    cbn [default from_option id kept_by].
    rewrite note_name_is_no_number. reflexivity.
  - destruct Hc as [-> | (c & ->)]; reflexivity.
Qed.

(** C9 (persistence round trip).  On a well-formed table, for a label
    whose four summary entries have the types of a session summary (types
    that their columns keep, see [kept_by] and [generated_summary_typed])
    and whose four parsed payloads satisfy the contract of the [json]
    module, [get_label] on the id returned by [save_label] returns a record
    whose fields [detected_notes], [average_pitch], [main_technique] and
    [confidence_avg] equal the values that were saved (the defaults of
    [save_label] for absent keys). *)
Theorem scalar_round_trip (db : database) (now : string)
    (label_data : gmap string pyval) (db' : database) (id : Z) :
  db_wf db ->
  summary_typed label_data ->
  parsed_payloads_round_trip json_dumps json_loads label_data ->
  save_label lib json_dumps db now label_data = Ok (db', id) ->
  exists record,
    get_label json_loads db' id = Ok (Some record)
    /\ summary_view record label_data.
Proof.
  intros Hwf Htyped Hrt Hsave.
  destruct (get_label_saved db now label_data db' id Hwf Hrt Hsave)
    as (record & Hget & Hsum & _).
  exists record. split; [exact Hget | exact (stored_view_typed _ _ Htyped Hsum)].
Qed.

(** The condition on the types is needed: a number saved as the technique
    goes into a text column and comes back as its text, which is not equal
    to the number. *)
Lemma number_comes_back_as_text (db : database) (now : string)
    (label_data : gmap string pyval) (db' : database) (id z : Z) :
  db_wf db ->
  parsed_payloads_round_trip json_dumps json_loads label_data ->
  label_data !! "main_technique"%string = Some (PInt z) ->
  save_label lib json_dumps db now label_data = Ok (db', id) ->
  exists record,
    get_label json_loads db' id = Ok (Some record)
    /\ record !! "main_technique"%string = Some (PStr (Num.str_of_int z))
    /\ ~ field_equals record "main_technique" (PInt z).
Proof.
  intros Hwf Hrt Hz Hsave.
  destruct (get_label_saved db now label_data db' id Hwf Hrt Hsave)
    as (record & Hget & (_ & _ & (y & Hy & Hr) & _) & _).
  unfold get in Hy. rewrite Hz in Hy. cbn in Hy.
  destruct (int64 z); [|discriminate Hy]. injection Hy as <-.
  change (record !! "main_technique"%string = Some (PStr (Num.str_of_int z))) in Hr.
  exists record. split; [exact Hget|]. split; [exact Hr|].
  intros (v & Hv & Heq). rewrite Hr in Hv. injection Hv as <-. exact Heq.
Qed.


(** C10 (asymmetric deserialisation).  Under the same conditions, the
    record returned by [get_label], and any record with the new id returned
    by [get_recent_labels], holds the saved structures under [pitch_data],
    [note_sequence], [vibrato_analysis] and [dynamics_data], and the
    [json.dumps] text of the saved value under [breath_analysis],
    [passaggio_analysis], [technique_analysis] and [performance_score]. *)
Theorem asymmetric_deserialization (db : database) (now : string)
    (label_data : gmap string pyval) (db' : database) (id : Z) :
  db_wf db ->
  parsed_payloads_round_trip json_dumps json_loads label_data ->
  save_label lib json_dumps db now label_data = Ok (db', id) ->
  (exists record,
      get_label json_loads db' id = Ok (Some record)
      /\ payload_view json_dumps record label_data)
  /\ (forall limit records record,
        get_recent_labels json_loads db' limit = Ok records ->
        In record records ->
        record !! "id"%string = Some (PInt id) ->
        payload_view json_dumps record label_data).
Proof.
  intros Hwf Hrt Hsave.
  destruct (get_label_saved db now label_data db' id Hwf Hrt Hsave)
    as (saved & Hget & _ & Hpay).
  split; [exists saved; split; assumption|].
  intros limit records record Hrecent Hin Hid.
  destruct (mapM_In _ _ _ _ Hrecent Hin) as (row & Hrow & Hdict).
  apply In_select_recent in Hrow.
  pose proof (row_to_dict_id row record id Hdict Hid) as Hrid.
  destruct (save_label_inv _ _ _ _ _ Hsave) as (params & Hbind & Hins).
  destruct (insert_inv _ _ _ _ _ _ Hins) as (Hnew & _ & Hrows).
  rewrite Hrows in Hrow. apply in_app_or in Hrow as [Hold | [<- | []]].
  - exfalso. unfold db_wf in Hwf. rewrite List.Forall_forall in Hwf.
    destruct (Hwf row Hold) as (k & Hk & Hle). rewrite Hk in Hrid.
    injection Hrid as ->. lia.
  - destruct (row_to_dict_saved label_data params id now Hrt Hbind)
      as (record' & Hrow' & _ & _ & Hpay').
    rewrite Hrow' in Hdict. injection Hdict as <-. exact Hpay'.
Qed.

End Persistence.

Section PersistenceWitness.
Import LabelDatabase.

(** The reference codec honours the contract on the sample label. *)
Lemma sample_label_round_trips :
  parsed_payloads_round_trip Codec.dumps Codec.loads sample_label.
Proof.
  repeat split; try (vm_compute; reflexivity); vm_compute; discriminate.
Qed.

Lemma numbered_technique_round_trips :
  parsed_payloads_round_trip Codec.dumps Codec.loads numbered_technique.
Proof. repeat split; vm_compute; congruence. Qed.

Lemma sample_label_typed : summary_typed sample_label.
Proof. repeat split. Qed.

Lemma scalar_round_trip_witness :
  exists db' id record,
    save_label reference Codec.dumps empty_db sample_time sample_label = Ok (db', id)
    /\ get_label Codec.loads db' id = Ok (Some record)
    /\ summary_view record sample_label.
Proof.
  destruct (save_label reference Codec.dumps empty_db sample_time sample_label)
    as [[db' id]|] eqn:E.
  - destruct (scalar_round_trip reference Codec.dumps Codec.loads empty_db sample_time
                sample_label db' id empty_db_wf sample_label_typed
                sample_label_round_trips E)
      as (record & Hget & Hsum).
    exists db', id, record. split; [reflexivity|]. split; assumption.
  - vm_compute in E. discriminate E.
Defined.

(** A label whose technique is the number 7 comes back with the text
    ['7']. *)
Lemma numbered_technique_comes_back_as_text :
  exists db' id record,
    save_label reference Codec.dumps empty_db sample_time numbered_technique
    = Ok (db', id)
    /\ get_label Codec.loads db' id = Ok (Some record)
    /\ record !! "main_technique"%string = Some (PStr "7")
    /\ ~ field_equals record "main_technique" (PInt 7).
Proof.
  destruct (save_label reference Codec.dumps empty_db sample_time numbered_technique)
    as [[db' id]|] eqn:E; [|vm_compute in E; discriminate E].
  destruct (number_comes_back_as_text reference Codec.dumps Codec.loads empty_db
              sample_time numbered_technique db' id 7 empty_db_wf
              numbered_technique_round_trips eq_refl E)
    as (record & Hget & Hm & Hne).
  exists db', id, record. split; [reflexivity|]. split; [exact Hget|].
  split; [exact Hm | exact Hne].
Qed.

Lemma asymmetric_deserialization_witness :
  exists db' id record,
    save_label reference Codec.dumps empty_db sample_time sample_label = Ok (db', id)
    /\ get_label Codec.loads db' id = Ok (Some record)
    /\ payload_view Codec.dumps record sample_label.
Proof.
  destruct (save_label reference Codec.dumps empty_db sample_time sample_label)
    as [[db' id]|] eqn:E.
  - destruct (asymmetric_deserialization reference Codec.dumps Codec.loads empty_db
                sample_time sample_label db' id empty_db_wf
                sample_label_round_trips E)
      as [(record & Hget & Hpay) _].
    exists db', id, record. split; [reflexivity|]. split; assumption.
  - vm_compute in E. discriminate E.
Defined.

End PersistenceWitness.


(** ** The session loop: labels and histories *)

Section SessionInvariants.
Import VirtualListener.

(** What holds of a label built for a frame at time [t]. *)
Lemma combined_label_inv (c s : option estimate) (t : Z) (a : Q) (l : label) :
  (forall e, c = Some e -> min_confidence < confidence e) ->
  (forall e, s = Some e -> min_confidence < confidence e) ->
  _create_combined_label c s t a = Some l ->
  l_time l = t
  /\ min_confidence < l_confidence l
  /\ l_note l = freq_to_note (l_frequency l)
  /\ l_technique l = classify_technique (l_frequency l)
  /\ l_amplitude l = a.
Proof.
  intros Hc Hs H.
  destruct c as [ec|], s as [es|]; cbn in H; try discriminate H;
    injection H as <-; cbn; repeat split.
  - specialize (Hc ec eq_refl). specialize (Hs es eq_refl).
    unfold min_confidence in *. apply Qlt_shift_div_l; lra.
  - apply Hc. reflexivity.
  - apply Hs. reflexivity.
Qed.

Lemma analyze_chunk_label_inv (st : listener) (fr : frame) (t : Z) (l : label) :
  _create_combined_label (_analyze_with_crepe (crepe_reply fr))
    (_analyze_with_spice (spice_reply fr)) t (amplitude fr) = Some l ->
  l_time l = t
  /\ min_confidence < l_confidence l
  /\ l_note l = freq_to_note (l_frequency l)
  /\ l_technique l = classify_technique (l_frequency l)
  /\ l_amplitude l = amplitude fr.
Proof.
  apply combined_label_inv.
  - intros e He. apply (crepe_confidence _ _ He).
  - intros e He. apply (spice_confidence _ _ He).
Qed.

(** The labels after one frame: unchanged, or one more. *)
Lemma analyze_chunk_labels_cases (st : listener) (fr : frame) (t : Z) :
  (labels (analyze_chunk st fr t) = labels st
   /\ pitch_history (analyze_chunk st fr t) = pitch_history st)
  \/ exists l,
       _create_combined_label (_analyze_with_crepe (crepe_reply fr))
         (_analyze_with_spice (spice_reply fr)) t (amplitude fr) = Some l
       /\ labels (analyze_chunk st fr t) = labels st ++ [l]
       /\ (pitch_history (analyze_chunk st fr t) = pitch_history st
           \/ pitch_history (analyze_chunk st fr t)
              = pitch_history st
                ++ [{| p_time := t; p_frequency := l_frequency l;
                       p_confidence := l_confidence l |}]).
Proof.
  unfold analyze_chunk.
  destruct (_create_combined_label _ _ _ _) as [l|] eqn:E; cbn [labels pitch_history].
  - right. exists l. split; [reflexivity|]. split; [reflexivity|].
    destruct (Qltb 0 (l_frequency l)); [right | left]; reflexivity.
  - left. split; reflexivity.
Qed.

Lemma analyze_chunk_amplitude_history (st : listener) (fr : frame) (t : Z) :
  amplitude_history (analyze_chunk st fr t)
  = amplitude_history st ++ [{| a_time := t; a_amplitude := amplitude fr |}].
Proof.
  unfold analyze_chunk.
  destruct (_create_combined_label _ _ _ _); reflexivity.
Qed.

Lemma listen_from_labels (chunks : list frame) (st : listener) (t : Z) :
  exists new,
    labels (listen_from st t chunks) = labels st ++ new
    /\ (length new <= length chunks)%nat
    /\ Forall (label_ok t (t + Z.of_nat (length chunks))) new.
Proof.
  revert st t. induction chunks as [|fr rest IH]; intros st t.
  - exists []. cbn. rewrite app_nil_r. repeat split; [lia | constructor].
  - cbn [listen_from]. destruct (IH (analyze_chunk st fr t) (t + 1)%Z)
      as (new & Hnew & Hlen & Hall).
    assert (Hweak : Forall (label_ok t (t + Z.of_nat (length (fr :: rest)))) new).
    { eapply Forall_impl; [exact Hall|]. intros l (Ht & Hrest).
      split; [cbn [length]; lia | exact Hrest]. }
    destruct (analyze_chunk_labels_cases st fr t) as [[El _] | (l & Hl & El & _)].
    + exists new. rewrite Hnew, El. split; [reflexivity|].
      split; [cbn [length]; lia | exact Hweak].
    + exists (l :: new). rewrite Hnew, El, <- app_assoc.
      split; [reflexivity|]. split; [cbn [length]; lia|].
      constructor; [|exact Hweak].
      destruct (analyze_chunk_label_inv st fr t l Hl) as (Ht & Hc & Hn & Htech & _).
      split; [cbn [length]; lia|]. repeat split; assumption.
Qed.

(** Time stamps strictly increasing and below [t]. *)
Lemma sorted_snoc (ts : list Z) (t : Z) :
  StronglySorted Z.lt ts -> Forall (fun x => (x < t)%Z) ts ->
  StronglySorted Z.lt (ts ++ [t]).
Proof.
  induction 1 as [|x ts Hs IH Hx]; intros Hall; cbn [app].
  - repeat constructor.
  - inversion Hall as [|? ? Hxt Hrest]; subst. constructor; [apply IH; exact Hrest|].
    apply Forall_app. split; [exact Hx | constructor; [exact Hxt | constructor]].
Qed.

Lemma Forall_lt_weaken (ts : list Z) (t t' : Z) :
  (t <= t')%Z -> Forall (fun x => (x < t)%Z) ts -> Forall (fun x => (x < t')%Z) ts.
Proof.
  intros Hle H. eapply Forall_impl; [exact H|]. intros x Hx. cbn in Hx. lia.
Qed.

(** The histories after the loop has read [chunks] from time [t] on. *)
Lemma listen_from_histories (chunks : list frame) (st : listener) (t : Z) :
  StronglySorted Z.lt (pitch_times st) ->
  Forall (fun x => (x < t)%Z) (pitch_times st) ->
  StronglySorted Z.lt (breath_positions st) ->
  Forall (fun x => (x < t)%Z) (breath_positions st) ->
  let st' := listen_from st t chunks in
  StronglySorted Z.lt (pitch_times st')
  /\ StronglySorted Z.lt (breath_positions st')
  /\ map a_time (amplitude_history st')
     = map a_time (amplitude_history st)
       ++ map (fun i => (t + Z.of_nat i)%Z) (seq 0 (length chunks))
  /\ amplitudes st' = amplitudes st ++ map amplitude chunks.
Proof.
  revert st t. induction chunks as [|fr rest IH]; intros st t Hp Hpt Hb Hbt st'.
  - unfold st'. cbn. rewrite !app_nil_r. repeat split; assumption.
  - unfold st'. cbn [listen_from].
    assert (Hp' : StronglySorted Z.lt (pitch_times (analyze_chunk st fr t))
                  /\ Forall (fun x => (x < t + 1)%Z) (pitch_times (analyze_chunk st fr t))).
    { unfold pitch_times in *.
      destruct (analyze_chunk_labels_cases st fr t)
        as [[_ E] | (l & _ & _ & [E | E])]; rewrite E.
      - split; [exact Hp | eapply Forall_lt_weaken; [|exact Hpt]; lia].
      - split; [exact Hp | eapply Forall_lt_weaken; [|exact Hpt]; lia].
      - rewrite map_app. cbn [map p_time]. split; [apply sorted_snoc; assumption|].
        apply Forall_app. split; [eapply Forall_lt_weaken; [|exact Hpt]; lia|].
        constructor; [lia | constructor]. }
    assert (Hb' : StronglySorted Z.lt (breath_positions (analyze_chunk st fr t))
                  /\ Forall (fun x => (x < t + 1)%Z)
                            (breath_positions (analyze_chunk st fr t))).
    { rewrite analyze_chunk_breath_positions. destruct (breath_test st fr t).
      - split; [apply sorted_snoc; assumption|].
        apply Forall_app. split; [eapply Forall_lt_weaken; [|exact Hbt]; lia|].
        constructor; [lia | constructor].
      - split; [exact Hb | eapply Forall_lt_weaken; [|exact Hbt]; lia]. }
    destruct Hp' as [Hp1 Hp2]. destruct Hb' as [Hb1 Hb2].
    destruct (IH (analyze_chunk st fr t) (t + 1)%Z Hp1 Hp2 Hb1 Hb2)
      as (H1 & H2 & H3 & H4).
    split; [exact H1|]. split; [exact H2|]. split.
    + rewrite H3, analyze_chunk_amplitude_history, map_app, <- app_assoc.
      cbn [map a_time app length seq]. f_equal. f_equal; [f_equal; lia|].
      rewrite <- seq_shift, map_map. apply map_ext. intros i. lia.
    + rewrite H4, analyze_chunk_amplitudes, <- app_assoc. reflexivity.
Qed.

(** X1.  Every label of a session of [n] one-second frames carries the
    time offset of one of the frames, a confidence above 0.6, and the note
    name and the technique of its own frequency; there is at most one
    label per frame. *)
Theorem session_labels_well_formed (chunks : list frame) :
  Forall (label_ok 0 (Z.of_nat (length chunks))) (labels (listen chunks))
  /\ (length (labels (listen chunks)) <= length chunks)%nat.
Proof.
  unfold listen.
  destruct (listen_from_labels chunks init 0%Z) as (new & Hnew & Hlen & Hall).
  rewrite Hnew. cbn [labels init app]. split; [exact Hall | exact Hlen].
Qed.

(** The same holds of a session on a listener that has been used before:
    [virtual_listen] empties the labels, and a label does not depend on the
    histories. *)
Lemma reused_listener_labels_well_formed (st : listener) (chunks : list frame) :
  Forall (label_ok 0 (Z.of_nat (length chunks))) (labels (virtual_listen st chunks))
  /\ (length (labels (virtual_listen st chunks)) <= length chunks)%nat.
Proof.
  unfold virtual_listen.
  match goal with |- context [listen_from ?s0 _ _] =>
    destruct (listen_from_labels chunks s0 0%Z) as (new & Hnew & Hlen & Hall)
  end.
  rewrite Hnew. cbn [labels app]. split; [exact Hall | exact Hlen].
Qed.

(** What the loop appends to the pitch history and to the breath
    positions, from any state: entries in capture order, with the time
    offsets of the frames read. *)
Lemma listen_from_appends (chunks : list frame) (st : listener) (t : Z) :
  let st' := listen_from st t chunks in
  let in_session x := (t <= x < t + Z.of_nat (length chunks))%Z in
  (exists new, pitch_history st' = pitch_history st ++ new
               /\ StronglySorted Z.lt (map p_time new)
               /\ Forall in_session (map p_time new))
  /\ (exists new, breath_positions st' = breath_positions st ++ new
                  /\ StronglySorted Z.lt new
                  /\ Forall in_session new)
  /\ map a_time (amplitude_history st')
     = map a_time (amplitude_history st)
       ++ map (fun i => (t + Z.of_nat i)%Z) (seq 0 (length chunks))
  /\ amplitudes st' = amplitudes st ++ map amplitude chunks.
Proof.
  revert st t. induction chunks as [|fr rest IH]; intros st t st' in_session.
  - unfold st'. cbn. rewrite !app_nil_r.
    split; [exists []; rewrite app_nil_r; repeat split; constructor|].
    split; [exists []; rewrite app_nil_r; repeat split; constructor|].
    split; reflexivity.
  - unfold st'. cbn [listen_from].
    destruct (IH (analyze_chunk st fr t) (t + 1)%Z)
      as ((np & Hp & Hps & Hpr) & (nb & Hb & Hbs & Hbr) & H3 & H4).
    assert (Hshift : forall l, Forall (fun x => (t + 1 <= x < t + 1 + Z.of_nat (length rest))%Z) l
                               -> Forall in_session l /\ Forall (fun x => (t < x)%Z) l).
    { intros l H. split; (eapply List.Forall_impl; [|exact H]); unfold in_session;
        cbn [length]; intros x Hx; lia. }
    assert (Hone : forall l, Forall (fun x => (t + 1 <= x < t + 1 + Z.of_nat (length rest))%Z) l
                             -> StronglySorted Z.lt l
                             -> StronglySorted Z.lt (t :: l) /\ Forall in_session (t :: l)).
    { intros l H Hs. destruct (Hshift l H) as [H1 H2].
      split; constructor; try assumption. unfold in_session. cbn [length]. lia. }
    split; [|split; [|split]].
    + destruct (analyze_chunk_labels_cases st fr t)
        as [[_ E] | (l & _ & _ & [E | E])]; rewrite E in Hp.
      * exists np. split; [exact Hp|]. split; [exact Hps | apply Hshift; exact Hpr].
      * exists np. split; [exact Hp|]. split; [exact Hps | apply Hshift; exact Hpr].
      * eexists (_ :: np). rewrite Hp, <- app_assoc. split; [reflexivity|].
        cbn [map p_time]. apply Hone; assumption.
    + rewrite analyze_chunk_breath_positions in Hb. destruct (breath_test st fr t).
      * exists (t :: nb). rewrite Hb, <- app_assoc. split; [reflexivity|].
        apply Hone; assumption.
      * exists nb. split; [exact Hb|]. split; [exact Hbs | apply Hshift; exact Hbr].
    + rewrite H3, analyze_chunk_amplitude_history, map_app, <- app_assoc.
      cbn [map a_time app length seq]. f_equal. f_equal; [f_equal; lia|].
      rewrite <- seq_shift, map_map. apply map_ext. intros i. lia.
    + rewrite H4, analyze_chunk_amplitudes, <- app_assoc. reflexivity.
Qed.

(** X2.  The histories are append-only and in capture order, also across
    sessions: a session on a listener in any state leaves the entries of
    earlier sessions in place and appends to them one amplitude entry per
    frame, with the time offsets 0, 1, 2, ... and the frames' amplitudes in
    order, and pitch entries and breath positions whose time stamps are
    offsets of its frames in strictly increasing order. *)
Theorem session_histories_in_order (st : listener) (chunks : list frame) :
  let st' := virtual_listen st chunks in
  let in_session x := (0 <= x < Z.of_nat (length chunks))%Z in
  map a_time (amplitude_history st')
  = map a_time (amplitude_history st) ++ map Z.of_nat (seq 0 (length chunks))
  /\ amplitudes st' = amplitudes st ++ map amplitude chunks
  /\ (exists new, pitch_times st' = pitch_times st ++ new
                  /\ StronglySorted Z.lt new /\ Forall in_session new)
  /\ (exists new, breath_positions st' = breath_positions st ++ new
                  /\ StronglySorted Z.lt new /\ Forall in_session new).
Proof.
  intros st' in_session. unfold st', virtual_listen.
  match goal with |- context [listen_from ?s _ _] =>
    destruct (listen_from_appends chunks s 0%Z)
      as ((np & Hp & Hps & Hpr) & (nb & Hb & Hbs & Hbr) & H3 & H4)
  end.
  cbn [pitch_history breath_positions amplitude_history] in Hp, Hb, H3.
  split; [|split; [|split]].
  - rewrite H3. reflexivity.
  - rewrite H4. reflexivity.
  - exists (map p_time np). unfold pitch_times. rewrite Hp, map_app.
    split; [reflexivity|]. split; [exact Hps | exact Hpr].
  - exists nb. split; [exact Hb|]. split; [exact Hbs | exact Hbr].
Qed.

End SessionInvariants.

(** ** Vibrato detection on the pitch history *)

Section VibratoHistory.
Import VirtualListener.

Lemma Qsum_ge (t : Q) (l : list Q) :
  Forall (fun x => t <= x) l -> t * Qnat (length l) <= Qsum l.
Proof.
  induction 1 as [|x l Hx Hl IH].
  - change (Qnat (length (@nil Q))) with (0 : Q). cbn. lra.
  - cbn [length Qsum fold_right]. rewrite Qnat_S. unfold Qsum in IH. lra.
Qed.

(** The mean of numbers that are all at least 1 is at least 1, or the list
    is empty. *)
Lemma mean_ge_one (l : list Q) :
  Forall (fun x => 1 <= x) l -> l = [] \/ 1 <= mean l.
Proof.
  intros Hall. destruct l as [|x l]; [left; reflexivity | right].
  unfold mean. apply Qle_shift_div_l; [apply Qnat_pos; cbn; lia|].
  apply (Qsum_ge 1). exact Hall.
Qed.

Lemma differences_Z (ts : list Z) :
  StronglySorted Z.lt ts -> Forall (fun d => 1 <= d) (differences (map inject_Z ts)).
Proof.
  induction 1 as [|x ts Hs IH Hx]; [constructor|].
  destruct ts as [|y rest]; [constructor|].
  cbn [map differences]. constructor; [|exact IH].
  inversion Hx as [|? ? Hxy _]; subst.
  unfold Qminus. rewrite <- inject_Z_opp, <- inject_Z_plus.
  change 1 with (inject_Z 1). rewrite <- Zle_Qle. lia.
Qed.

Lemma sign_change_positions_sorted (d : list Q) (start : nat) :
  StronglySorted lt (sign_change_positions start d)
  /\ Forall (fun i => (start <= i)%nat) (sign_change_positions start d).
Proof.
  revert start. induction d as [|x d IH]; intros start; [split; constructor|].
  destruct d as [|y rest]; [split; constructor|].
  cbn [sign_change_positions].
  destruct (IH (S start)) as [Hs Hall].
  assert (Hweak : Forall (fun i => (start <= i)%nat)
                         (sign_change_positions (S start) (y :: rest))).
  { eapply Forall_impl; [exact Hall|]. intros i Hi. cbn in Hi. lia. }
  destruct (eqb _ _); [split; assumption|].
  split; [constructor; [exact Hs|] | constructor; [lia | exact Hweak]].
  eapply Forall_impl; [exact Hall|]. intros i Hi. cbn in Hi. lia.
Qed.

Lemma differences_nat (ns : list nat) :
  StronglySorted lt ns -> Forall (fun d => 1 <= d) (differences (map Qnat ns)).
Proof.
  induction 1 as [|x ns Hs IH Hx]; [constructor|].
  destruct ns as [|y rest]; [constructor|].
  cbn [map differences]. constructor; [|exact IH].
  inversion Hx as [|? ? Hxy _]; subst.
  unfold Qnat, Qminus. rewrite <- inject_Z_opp, <- inject_Z_plus.
  change 1 with (inject_Z 1). rewrite <- Zle_Qle. lia.
Qed.

Lemma skipn_sorted {A} (R : A -> A -> Prop) (n : nat) (l : list A) :
  StronglySorted R l -> StronglySorted R (skipn n l).
Proof.
  revert l. induction n as [|n IH]; intros l H; [exact H|].
  destruct l as [|x l]; [constructor|]. cbn [skipn]. apply IH.
  inversion H; assumption.
Qed.

Variable np_std : list Q -> Q.
Variable np_log2 : Q -> Q.

(** With the time stamps of the detection window at least one second apart
    the oscillation period is at least one second, and the rate at most
    0.5 Hz. *)
Lemma detect_vibrato_slow (st : listener) :
  StronglySorted Z.lt (map p_time (last_n vibrato_window (pitch_history st))) ->
  vi_detected (_detect_vibrato_advanced np_std np_log2 st) = false
  /\ vi_rate (_detect_vibrato_advanced np_std np_log2 st) <= 1 # 2.
Proof.
  intros Hsorted. unfold _detect_vibrato_advanced.
  destruct (length (pitch_history st) <? vibrato_window)%nat;
    [split; [reflexivity | cbn; lra]|].
  destruct (length (map p_frequency _) <? 5)%nat; [split; [reflexivity | cbn; lra]|].
  destruct (2 <? length _)%nat; [|split; [reflexivity | cbn; lra]].
  cbn [vi_detected vi_rate].
  set (gaps := differences (map Qnat (sign_change_positions 0 _))).
  set (steps := differences (map (fun p => inject_Z (p_time p)) _)).
  assert (Hgaps : Forall (fun d => 1 <= d) gaps).
  { apply differences_nat. apply sign_change_positions_sorted. }
  assert (Hsteps : Forall (fun d => 1 <= d) steps).
  { unfold steps. rewrite <- (map_map p_time inject_Z). apply differences_Z.
    exact Hsorted. }
  assert (Hrate : (if Qltb 0 (mean gaps * mean steps)
                   then 1 / (2 * (mean gaps * mean steps)) else 0) <= 1 # 2).
  { destruct (Qltb 0 (mean gaps * mean steps)) eqn:E; [|lra].
    apply Qltb_lt in E.
    destruct (mean_ge_one gaps Hgaps) as [-> | Hg];
      [change (mean []) with (0 / 0) in E; unfold Qdiv in E; lra|].
    destruct (mean_ge_one steps Hsteps) as [Hnil | Hs];
      [rewrite Hnil in E; change (mean []) with (0 / 0) in E; unfold Qdiv in E; lra|].
    apply Qle_shift_div_r; [lra|]. nra. }
  split; [|exact Hrate].
  destruct (Qle_bool 4 _) eqn:E4; [|reflexivity].
  apply Qle_bool_iff in E4. lra.
Qed.

Lemma last_n_app {A} (n : nat) (old new : list A) :
  (n <= length new)%nat -> last_n n (old ++ new) = last_n n new.
Proof.
  intros H. unfold last_n. rewrite length_app, skipn_app.
  replace (length old + length new - n - length old)%nat
    with (length new - n)%nat by lia.
  rewrite skipn_all2 by lia. reflexivity.
Qed.

(** X3.  On the pitch history of a first session, and on any pitch history
    to which the running session has added the ten entries of the
    detection window, the vibrato detector reports no vibrato: the entries
    are one second apart or more, so its rate estimate is at most 0.5 Hz,
    below the 4 Hz that detection requires. *)
Theorem session_never_detects_vibrato (st : listener) (chunks : list frame) :
  pitch_history st = []
  \/ (length (pitch_history st) + vibrato_window
      <= length (pitch_history (virtual_listen st chunks)))%nat ->
  vi_detected (_detect_vibrato_advanced np_std np_log2 (virtual_listen st chunks))
  = false
  /\ vi_rate (_detect_vibrato_advanced np_std np_log2 (virtual_listen st chunks))
     <= 1 # 2.
Proof.
  intros H. apply detect_vibrato_slow. revert H. unfold virtual_listen.
  match goal with |- context [listen_from ?s _ _] =>
    destruct (listen_from_appends chunks s 0%Z) as ((np & Hp & Hps & _) & _)
  end.
  cbn [pitch_history] in Hp. rewrite Hp. intros [Hnil | Hlen].
  - rewrite Hnil. cbn [app]. unfold last_n. rewrite <- skipn_map.
    apply skipn_sorted. exact Hps.
  - rewrite length_app in Hlen. rewrite last_n_app by lia.
    unfold last_n. rewrite <- skipn_map. apply skipn_sorted. exact Hps.
Qed.

End VibratoHistory.

Section VibratoHistoryWitness.
Import VirtualListener.

Lemma session_never_detects_vibrato_witness :
  (pitch_history (listen three_frames) = []
   \/ (length (pitch_history (listen three_frames)) + vibrato_window
       <= length (pitch_history (virtual_listen (listen three_frames) ten_frames)))%nat)
  /\ vi_detected (_detect_vibrato_advanced (fun _ => 5) (fun _ => 1 # 30)
                    (virtual_listen (listen three_frames) ten_frames)) = false.
Proof.
  assert (H : pitch_history (listen three_frames) = []
              \/ (length (pitch_history (listen three_frames)) + vibrato_window
                  <= length (pitch_history
                               (virtual_listen (listen three_frames) ten_frames)))%nat)
    by (right; vm_compute; lia).
  split; [exact H|].
  exact (proj1 (session_never_detects_vibrato (fun _ => 5) (fun _ => 1 # 30)
                  (listen three_frames) ten_frames H)).
Defined.

(** The condition of X3 is needed.  The time offsets start again at 0 in
    every session while the pitch history is kept: a detection window that
    holds the last entry of an earlier session in front of nine entries of
    the running one has time steps that sum to 1 over nine steps, and an
    alternating pitch is then reported as a vibrato at 4.5 Hz. *)
Lemma reused_listener_detects_vibrato :
  let st := virtual_listen (virtual_listen init earlier_session) later_session in
  pitch_times st = [8; 0; 1; 2; 3; 4; 5; 6; 7; 9]%Z
  /\ vi_detected (_detect_vibrato_advanced (fun _ => 5) (fun _ => 1 # 30) st) = true
  /\ vi_rate (_detect_vibrato_advanced (fun _ => 5) (fun _ => 1 # 30) st) == 9 # 2.
Proof.
  cbv zeta. split; [vm_compute; reflexivity|].
  split; vm_compute; reflexivity.
Qed.

End VibratoHistoryWitness.

(** ** Dynamics, technique bands and recommendations *)

Section DynamicsAndTechnique.
Import VirtualListener.

Lemma hd_skipn {A} (d : A) (k : nat) (l : list A) : hd d (skipn k l) = nth k l d.
Proof.
  revert l. induction k as [|k IH]; intros [|x l]; cbn; try reflexivity. apply IH.
Qed.

Lemma last_skipn {A} (d : A) (k : nat) (l : list A) :
  (k < length l)%nat -> List.last (skipn k l) d = nth (length l - 1) l d.
Proof.
  revert k. induction l as [|x l IH]; intros k Hk; [cbn in Hk; lia|].
  destruct k as [|k].
  - cbn [skipn]. clear IH Hk. revert x. induction l as [|y l IHl]; intros x.
    + reflexivity.
    + change (List.last (x :: y :: l) d) with (List.last (y :: l) d).
      rewrite IHl. cbn [length]. rewrite !Nat.sub_succ, !Nat.sub_0_r.
      destruct l; reflexivity.
  - cbn [skipn]. rewrite IH by (cbn in Hk; lia). cbn [length].
    rewrite !Nat.sub_succ, !Nat.sub_0_r.
    destruct l as [|y l]; [cbn in Hk; lia|]. cbn [length nth].
    rewrite Nat.sub_succ, Nat.sub_0_r. reflexivity.
Qed.

(** X4.  With at least five frames of history, the dynamics analysis
    reports a crescendo exactly when the amplitude rose by more than 0.25
    over the last five frames, a diminuendo exactly when it fell by more
    than 0.25, and otherwise a stable level; the trend is rising, falling
    or neutral accordingly. *)
Theorem dynamics_change_rule (st : listener) (current_amplitude : Q) :
  (5 <= length (amplitude_history st))%nat ->
  let d := _analyze_dynamics st current_amplitude in
  (dy_change d = "crescendo"%string <-> 1 # 4 < recent_rise st)
  /\ (dy_change d = "diminuendo"%string <-> recent_rise st < - (1 # 4))
  /\ (dy_change d = "stable"%string
      <-> - (1 # 4) <= recent_rise st /\ recent_rise st <= 1 # 4)
  /\ (dy_trend d = "rising"%string <-> dy_change d = "crescendo"%string)
  /\ (dy_trend d = "falling"%string <-> dy_change d = "diminuendo"%string).
Proof.
  intros Hlen d. unfold d, _analyze_dynamics.
  destruct (Nat.ltb_spec (length (amplitude_history st)) 5) as [Hlt|_]; [lia|].
  set (recent := map a_amplitude (last_n 5 (amplitude_history st))).
  assert (Hn : length (amplitudes st) = length (amplitude_history st))
    by (unfold amplitudes; apply length_map).
  assert (Hrecent : recent = skipn (length (amplitudes st) - 5) (amplitudes st)).
  { unfold recent, last_n, amplitudes. rewrite skipn_map, length_map. reflexivity. }
  assert (Hl5 : length recent = 5%nat).
  { rewrite Hrecent, length_skipn. lia. }
  rewrite Hl5. cbn [Nat.leb].
  assert (Hrise : List.last recent 0 - hd 0 recent == recent_rise st).
  { unfold recent_rise. rewrite Hrecent, hd_skipn, last_skipn by lia. reflexivity. }
  change (Qnat 5) with (5 : Q).
  set (rate := (List.last recent 0 - hd 0 recent) / 5).
  assert (Hrate : rate * 5 == recent_rise st).
  { unfold rate. rewrite <- Hrise. field. }
  clearbody rate. clear Hrise.
  destruct (Qltb (5#100) rate) eqn:E1; [apply Qltb_lt in E1 | apply Qltb_ge in E1];
    [|destruct (Qltb rate (- (5#100))) eqn:E2;
      [apply Qltb_lt in E2 | apply Qltb_ge in E2]];
    cbn [dy_change dy_trend].
  all: repeat match goal with |- _ /\ _ => split end.
  all: split.
  all: try (intros X; discriminate X).
  all: try (intros _; reflexivity).
  all: try (intros _; lra).
  all: try (intros _; split; lra).
  all: intros X; exfalso; first [lra | destruct X; lra].
Qed.

Lemma dynamics_change_rule_witness :
  (5 <= length (amplitude_history (listen (silent_frames breath_scenario))))%nat
  /\ (dy_change (_analyze_dynamics (listen (silent_frames breath_scenario)) (1#100))
      = "stable"%string
      <-> - (1 # 4) <= recent_rise (listen (silent_frames breath_scenario))
          /\ recent_rise (listen (silent_frames breath_scenario)) <= 1 # 4).
Proof.
  assert (H : (5 <= length (amplitude_history (listen (silent_frames breath_scenario))))%nat)
    by (vm_compute; lia).
  split; [exact H|].
  apply (dynamics_change_rule _ (1#100) H).
Defined.

(** X5.  Without formant data the technique is decided by frequency
    bands: unknown up to 0 Hz, chest below 200 Hz, mixed from 200 Hz to
    below 350 Hz, passaggio from 350 Hz to 450 Hz inclusive, head above
    450 Hz.  The band 350-450 Hz overrides both the mixed band (which
    nominally runs to 400 Hz) and the head band. *)
Theorem technique_bands (freq : Q) :
  classify_technique_with freq None = classify_technique freq
  /\ (classify_technique freq = "unknown"%string <-> freq <= 0)
  /\ (classify_technique freq = "chest"%string <-> 0 < freq /\ freq < 200)
  /\ (classify_technique freq = "mixed"%string <-> 200 <= freq /\ freq < 350)
  /\ (classify_technique freq = "passaggio"%string <-> 350 <= freq /\ freq <= 450)
  /\ (classify_technique freq = "head"%string <-> 450 < freq).
Proof.
  split; [reflexivity|].
  unfold classify_technique.
  destruct (Qle_bool freq 0) eqn:E0;
    [apply Qle_bool_iff in E0 | apply Qle_bool_gt in E0].
  2: destruct (Qltb freq 200) eqn:E1; [apply Qltb_lt in E1 | apply Qltb_ge in E1].
  3: destruct (Qltb freq 400) eqn:E2; [apply Qltb_lt in E2 | apply Qltb_ge in E2].
  all: destruct (Qle_bool 350 freq) eqn:E3;
    [apply Qle_bool_iff in E3 | apply Qle_bool_gt in E3].
  all: destruct (Qle_bool freq 450) eqn:E4;
    [apply Qle_bool_iff in E4 | apply Qle_bool_gt in E4].
  all: cbn [andb].
  all: repeat match goal with |- _ /\ _ => split end.
  all: split.
  all: try (intros X; discriminate X).
  all: try (intros _; reflexivity).
  all: try (intros _; lra).
  all: try (intros _; split; lra).
  all: intros X; exfalso; first [lra | destruct X; lra].
Qed.

(** X6.  The recommendation list is never empty, holds at most six
    entries without repetition, and contains the message of praise exactly
    when no component of the score is below its threshold (20, 15, 10, 10,
    10 and 5 points). *)
Theorem recommendations_rule (c : score_components) :
  let r := _generate_recommendations c in
  r <> []
  /\ (length r <= 6)%nat
  /\ List.NoDup r
  /\ (In praise r <-> no_deficiency c)
  /\ (r = [praise] <-> no_deficiency c).
Proof.
  unfold _generate_recommendations, no_deficiency, praise.
  destruct (Qltb (pitch_accuracy c) 20) eqn:E1;
    [apply Qltb_lt in E1 | apply Qltb_ge in E1];
  destruct (Qltb (technique_variety c) 15) eqn:E2;
    [apply Qltb_lt in E2 | apply Qltb_ge in E2 | apply Qltb_lt in E2 | apply Qltb_ge in E2].
  all: destruct (Qltb (vibrato_quality c) 10) eqn:E3;
    [apply Qltb_lt in E3 | apply Qltb_ge in E3].
  all: destruct (Qltb (dynamics_control c) 10) eqn:E4;
    [apply Qltb_lt in E4 | apply Qltb_ge in E4].
  all: destruct (Qltb (breath_support c) 10) eqn:E5;
    [apply Qltb_lt in E5 | apply Qltb_ge in E5].
  all: destruct (Qltb (passaggio_handling c) 5) eqn:E6;
    [apply Qltb_lt in E6 | apply Qltb_ge in E6].
  all: cbn [app is_empty length].
  all: split; [discriminate|].
  all: split; [lia|].
  all: split; [repeat (constructor; [cbn [In]; intuition discriminate|]); constructor|].
  all: split; (split; [cbn [In]; intros X | intros X]).
  all: first [ (repeat split; assumption) | left; reflexivity | reflexivity
             | exfalso; lra
             | exfalso; intuition discriminate ].
Qed.

End DynamicsAndTechnique.

(** ** From the session to the score *)

Section SessionScore.
Import VirtualListener.

Lemma count_distinct_pos (xs : list string) :
  xs <> [] -> (1 <= count_distinct xs)%nat.
Proof.
  induction xs as [|x rest IH]; [congruence|]. intros _. cbn [count_distinct].
  destruct (existsb (String.eqb x) rest) eqn:E; [|lia].
  apply IH. intros ->. discriminate E.
Qed.

Lemma Forall_label_confidence (lo hi : Z) (ls : list label) :
  Forall (label_ok lo hi) ls ->
  Forall (fun c => min_confidence < c) (map l_confidence ls).
Proof.
  induction 1 as [|l ls (_ & Hc & _) _ IH]; cbn [map]; constructor; assumption.
Qed.

(** X7.  For a session with at least one label, whatever the vibrato and
    dynamics summaries: the pitch component of the performance score
    exceeds 15 of its 25 points, the technique component is at least 5,
    and the breath component is [min(7.5 + n, 15)] for [n] recorded breath
    positions, hence never below 7.5 and below the recommendation
    threshold 10 exactly when fewer than three breaths were recorded. *)
Theorem session_score_components (chunks : list frame)
    (vibrato : option vibrato_summary) (dynamic_variety : option nat) :
  labels (listen chunks) <> [] ->
  exists score,
    overall_performance (listen chunks) vibrato dynamic_variety = Some score
    /\ 15 < pitch_accuracy (score_breakdown score)
    /\ 5 <= technique_variety (score_breakdown score)
    /\ breath_support (score_breakdown score)
       == Qmin ((15 # 2) + Qnat (length (breath_positions (listen chunks)))) 15
    /\ (breath_support (score_breakdown score) < 10
        <-> (length (breath_positions (listen chunks)) < 3)%nat).
Proof.
  intros Hne. unfold overall_performance.
  destruct (labels (listen chunks)) as [|l0 ls] eqn:El; [congruence|].
  cbn [is_empty]. eexists. split; [reflexivity|].
  unfold _calculate_performance_score, score_breakdown_of, session_stats.
  cbn [score_breakdown pitch_accuracy technique_variety breath_support
       s_confidence_avg s_variety_score s_breath_support_score default from_option id].
  rewrite El. set (ls' := l0 :: ls) in *.
  set (n := length (breath_positions (listen chunks))).
  assert (Hall : Forall (label_ok 0 (0 + Z.of_nat (length chunks))) ls').
  { unfold listen in El. destruct (listen_from_labels chunks init 0%Z)
      as (new & Hnew & _ & Hall). rewrite El in Hnew. cbn [labels init app] in Hnew.
    rewrite Hnew. exact Hall. }
  assert (Hn : 0 <= Qnat n) by apply Qnat_nonneg.
  split; [|split; [|split]].
  - assert (Hmean : min_confidence < mean (map l_confidence ls')).
    { apply mean_above; [eapply Forall_label_confidence; exact Hall | discriminate]. }
    unfold mean, min_confidence in Hmean.
    change (is_empty (map l_confidence ls')) with false. cbv beta iota.
    set (avg := Qsum (map l_confidence ls') / Qnat (length (map l_confidence ls'))) in *.
    clearbody avg. apply Q.min_glb_lt; lra.
  - assert (Hc : (1 <= count_distinct (map l_technique ls'))%nat)
      by (apply count_distinct_pos; discriminate).
    assert (1 <= Qnat (count_distinct (map l_technique ls'))).
    { unfold Qnat. change 1 with (inject_Z 1). rewrite <- Zle_Qle. lia. }
    apply Q.min_glb; lra.
  - destruct (Q.min_spec (85 + Qnat n * 2) 100) as [[H1 E1] | [H1 E1]]; rewrite E1.
    + destruct (Q.min_spec ((85 + Qnat n * 2 - 70) * (5#10)) 15) as [[H2 E2] | [H2 E2]];
        rewrite E2;
        (destruct (Q.min_spec ((15#2) + Qnat n) 15) as [[H3 E3] | [H3 E3]]; rewrite E3);
        (destruct (Q.max_spec 0 ((85 + Qnat n * 2 - 70) * (5#10))) as [[H4 E4] | [H4 E4]]);
        (destruct (Q.max_spec 0 15) as [[H5 E5] | [H5 E5]]);
        try rewrite E4; try rewrite E5; lra.
    + destruct (Q.min_spec ((100 - 70) * (5#10)) 15) as [[H2 E2] | [H2 E2]];
        rewrite E2;
        (destruct (Q.min_spec ((15#2) + Qnat n) 15) as [[H3 E3] | [H3 E3]]; rewrite E3);
        (destruct (Q.max_spec 0 ((100 - 70) * (5#10))) as [[H4 E4] | [H4 E4]]);
        (destruct (Q.max_spec 0 15) as [[H5 E5] | [H5 E5]]);
        try rewrite E4; try rewrite E5; lra.
  - assert (Hcases : (n < 3)%nat /\ Qnat n <= 2 \/ (3 <= n)%nat /\ 3 <= Qnat n).
    { destruct (Nat.lt_ge_cases n 3) as [H | H]; [left | right]; (split; [exact H|]);
        unfold Qnat; [change 2 with (inject_Z 2) | change 3 with (inject_Z 3)];
        rewrite <- Zle_Qle; lia. }
    destruct (Q.min_spec (85 + Qnat n * 2) 100) as [[H1 E1] | [H1 E1]]; rewrite E1.
    + destruct (Q.min_spec ((85 + Qnat n * 2 - 70) * (5#10)) 15) as [[H2 E2] | [H2 E2]];
        rewrite E2;
        (destruct (Q.max_spec 0 ((85 + Qnat n * 2 - 70) * (5#10))) as [[H4 E4] | [H4 E4]]);
        (destruct (Q.max_spec 0 15) as [[H5 E5] | [H5 E5]]);
        try rewrite E4; try rewrite E5;
        destruct Hcases as [[Hlt Hq] | [Hge Hq]]; split; intros X; try lia; lra.
    + destruct (Q.min_spec ((100 - 70) * (5#10)) 15) as [[H2 E2] | [H2 E2]];
        rewrite E2;
        (destruct (Q.max_spec 0 ((100 - 70) * (5#10))) as [[H4 E4] | [H4 E4]]);
        (destruct (Q.max_spec 0 15) as [[H5 E5] | [H5 E5]]);
        try rewrite E4; try rewrite E5;
        destruct Hcases as [[Hlt Hq] | [Hge Hq]]; split; intros X; try lia; lra.
Qed.

Lemma session_score_components_witness :
  labels (listen three_frames) <> []
  /\ exists score,
       overall_performance (listen three_frames) None None = Some score
       /\ 15 < pitch_accuracy (score_breakdown score).
Proof.
  assert (H : labels (listen three_frames) <> []) by (vm_compute; discriminate).
  split; [exact H|].
  destruct (session_score_components three_frames None None H)
    as (score & Hs & Hp & _).
  exists score. split; assumption.
Defined.

End SessionScore.

(** ** The two note namings *)

Section NoteNamings.
Import VirtualListener ProfessionalVocalAnalyzer.

Lemma Qpower2_le (m n : Z) : (m <= n)%Z -> 2 ^ m <= 2 ^ n.
Proof.
  intros H. replace n with (m + (n - m))%Z by lia.
  rewrite Qpower_plus by discriminate.
  assert (H1 : 1 <= 2 ^ (n - m)).
  { change (2 ^ (n - m)) with (inject_Z 2 ^ (n - m)).
    rewrite <- Zpower_Qpower by lia. change 1 with (inject_Z 1).
    rewrite <- Zle_Qle. pose proof (Z.pow_pos_nonneg 2 (n - m)). lia. }
  pose proof (Qpower2_pos m). nra.
Qed.

Lemma floor_log2_unique (q : Q) (n : Z) :
  2 ^ n <= q -> q < 2 ^ (n + 1) -> floor_log2 q = n.
Proof.
  intros Hlo Hhi.
  assert (Hq : 0 < q) by (pose proof (Qpower2_pos n); lra).
  destruct (floor_log2_spec q Hq) as [Klo Khi].
  set (k := floor_log2 q) in *.
  destruct (Z.lt_trichotomy k n) as [H | [H | H]]; [|exact H|].
  - pose proof (Qpower2_le (k + 1) n ltac:(lia)). lra.
  - pose proof (Qpower2_le (n + 1) k ltac:(lia)). lra.
Qed.

Lemma Qpower12_pos (x : Q) : 0 < x -> 0 < x ^ 12.
Proof. intros H. apply Qpower_0_lt. exact H. Qed.

Lemma ratio_pos (f : Q) : 0 < f -> 0 < f / 440.
Proof. intros H. apply Qlt_shift_div_l; lra. Qed.

(** The nearest semitone is the floor of the half-step count or one more. *)
Lemma nearest_semitone_cases (f : Q) :
  0 < f ->
  let h := halfsteps_from_c0 f in
  (nearest_semitone f + 57 = h \/ nearest_semitone f + 57 = h + 1)%Z.
Proof.
  intros Hf h. pose proof (ratio_pos f Hf) as Hx.
  set (x := f / 440) in *.
  pose proof (Qpower12_pos x Hx) as Ha.
  destruct (floor_log2_spec _ Ha) as [Hlo Hhi].
  unfold h, halfsteps_from_c0, nearest_semitone. fold x.
  set (n := floor_log2 (x ^ 12)) in *.
  assert (E : x ^ 24 == x ^ 12 * x ^ 12).
  { change 24%Z with (12 + 12)%Z. apply Qpower_plus. lra. }
  pose proof (Qpower2_pos n) as Pn.
  assert (E1 : 2 ^ (n + 1) == 2 * 2 ^ n) by apply Qpower2_succ.
  assert (E2 : 2 ^ (2 * n + 1) == 2 * (2 ^ n * 2 ^ n)).
  { rewrite Qpower2_succ. replace (2 * n)%Z with (n + n)%Z by lia.
    rewrite Qpower_plus by discriminate. reflexivity. }
  assert (E3 : 2 ^ (2 * n + 3) == 8 * (2 ^ n * 2 ^ n)).
  { replace (2 * n + 3)%Z with (2 * n + 1 + 1 + 1)%Z by lia.
    rewrite !Qpower2_succ. replace (2 * n)%Z with (n + n)%Z by lia.
    rewrite Qpower_plus by discriminate. ring. }
  assert (E4 : 2 ^ (2 * n + 2) == 4 * (2 ^ n * 2 ^ n)).
  { replace (2 * n + 2)%Z with (2 * n + 1 + 1)%Z by lia.
    rewrite !Qpower2_succ. replace (2 * n)%Z with (n + n)%Z by lia.
    rewrite Qpower_plus by discriminate. ring. }
  set (a := x ^ 12) in *.
  destruct (Qlt_le_dec (2 * (a * a)) (4 * (2 ^ n * 2 ^ n))) as [Hs | Hs].
  - left. assert (F : floor_log2 (2 * x ^ 24) = (2 * n + 1)%Z).
    { apply floor_log2_unique.
      + rewrite E2, E. nra.
      + replace (2 * n + 1 + 1)%Z with (2 * n + 2)%Z by lia. rewrite E4, E. exact Hs. }
    rewrite F. replace (2 * n + 1)%Z with (1 + n * 2)%Z by lia.
    rewrite Z.div_add by lia. change (1 / 2)%Z with 0%Z. lia.
  - right. assert (F : floor_log2 (2 * x ^ 24) = (2 * n + 2)%Z).
    { apply floor_log2_unique.
      + rewrite E4, E. exact Hs.
      + replace (2 * n + 2 + 1)%Z with (2 * n + 3)%Z by lia. rewrite E3, E. nra. }
    rewrite F. replace (2 * n + 2)%Z with ((n + 1) * 2)%Z by lia.
    rewrite Z.div_mul by lia. lia.
Qed.

(** [_frequency_to_note_detailed] in terms of the half-step count from C0. *)
Lemma note_detailed_from_c0 (f : Q) :
  0 < f ->
  let H := (nearest_semitone f + 57)%Z in
  _frequency_to_note_detailed f
  = {| ni_note := nth (Z.to_nat (H mod 12)) notes EmptyString; ni_octave := H / 12 |}.
Proof.
  intros Hf H. unfold _frequency_to_note_detailed.
  destruct (Qle_bool f 0) eqn:E; [apply Qle_bool_iff in E; lra|].
  unfold H. set (n := nearest_semitone f).
  replace (n + 57)%Z with ((n + 9) + 4 * 12)%Z by lia.
  rewrite Z.mod_add by lia. rewrite Z.div_add by lia.
  f_equal. lia.
Qed.

(** X8.  For a positive frequency the two analyzers name the note from the
    same half-step count from C0: the listener from its floor [h], the
    professional analyzer from the nearest integer, which is [h] or
    [h + 1].  So the professional note is the listener's note or the next
    semitone up. *)
Theorem note_namings_differ_by_rounding (f : Q) :
  0 < f ->
  exists h H : Z,
    h = halfsteps_from_c0 f
    /\ (H = h \/ H = (h + 1)%Z)
    /\ freq_to_note f
       = (nth (Z.to_nat (h mod 12)) notes EmptyString ++ str_of_int (h / 12))%string
    /\ _frequency_to_note_detailed f
       = {| ni_note := nth (Z.to_nat (H mod 12)) notes EmptyString;
            ni_octave := H / 12 |}.
Proof.
  intros Hf. exists (halfsteps_from_c0 f), (nearest_semitone f + 57)%Z.
  split; [reflexivity|]. split; [apply nearest_semitone_cases; exact Hf|].
  split.
  - unfold freq_to_note.
    destruct (Qle_bool f 0) eqn:E; [apply Qle_bool_iff in E; lra|]. reflexivity.
  - apply note_detailed_from_c0. exact Hf.
Qed.

Lemma note_namings_differ_by_rounding_witness :
  0 < 435
  /\ freq_to_note 435 = "G#4"%string
  /\ _frequency_to_note_detailed 435 = {| ni_note := "A"; ni_octave := 4 |}
  /\ exists h H : Z,
       h = halfsteps_from_c0 435
       /\ (H = h \/ H = (h + 1)%Z)
       /\ freq_to_note 435
          = (nth (Z.to_nat (h mod 12)) notes EmptyString ++ str_of_int (h / 12))%string
       /\ _frequency_to_note_detailed 435
          = {| ni_note := nth (Z.to_nat (H mod 12)) notes EmptyString;
               ni_octave := H / 12 |}.
Proof.
  split; [reflexivity|]. split; [vm_compute; reflexivity|].
  split; [vm_compute; reflexivity|].
  apply (note_namings_differ_by_rounding 435). reflexivity.
Defined.

End NoteNamings.

(** ** Comprehensive pitch analysis *)

Section ComprehensivePitch.
Import VirtualListener ProfessionalVocalAnalyzer.

Lemma select_indices_above (t : Q) (pre cs : list Q) :
  select (pre ++ cs) (indices_above t (length pre) cs)
  = Ok (List.filter (Qltb t) cs).
Proof.
  revert pre. induction cs as [|c rest IH]; intros pre; [reflexivity|].
  assert (Hstep : select (pre ++ c :: rest) (indices_above t (S (length pre)) rest)
                  = Ok (List.filter (Qltb t) rest)).
  { specialize (IH (pre ++ [c])).
    rewrite <- app_assoc in IH. cbn [app] in IH.
    rewrite length_app in IH. cbn [length] in IH.
    rewrite Nat.add_1_r in IH. exact IH. }
  cbn [indices_above List.filter].
  destruct (Qltb t c); [|exact Hstep].
  cbn [select]. rewrite nth_error_app2 by lia. rewrite Nat.sub_diag. cbn [nth_error].
  rewrite Hstep. reflexivity.
Qed.

Lemma unvoiced_named : named_after_frequency unvoiced.
Proof. split; reflexivity. Qed.

Lemma pitch_try_inv (c s : engine_reply) (r : pitch_analysis) :
  pitch_comprehensive_try c s = Ok r ->
  named_after_frequency r
  /\ ((pa_frequency r = 0 /\ pa_confidence r = 0) \/ (7 # 10) < pa_confidence r).
Proof.
  unfold pitch_comprehensive_try.
  destruct c as [|status body]; [discriminate|].
  destruct s as [|status' body']; [discriminate|].
  set (m := if (status =? 200)%Z then _ else _).
  assert (Hm : forall fq cf, m = Ok (fq, cf) ->
            (fq = 0 /\ cf = 0) \/ (7 # 10) < cf).
  { intros fq cf. unfold m.
    destruct (status =? 200)%Z; [|intros [= <- <-]; left; split; reflexivity].
    destruct body as [b|]; [|discriminate].
    destruct (negb (is_empty (pitches b)) && negb (is_empty (confidences b)));
      [|intros [= <- <-]; left; split; reflexivity].
    destruct (is_empty (indices_above (7 # 10) 0 (confidences b))) eqn:Hi;
      cbn [negb]; [intros [= <- <-]; left; split; reflexivity|].
    destruct (select (pitches b) _) as [vp|]; [|discriminate].
    pose proof (select_indices_above (7 # 10) [] (confidences b)) as E.
    cbn [app length] in E. rewrite E. cbn.
    intros [= <- <-]. right.
    apply mean_above.
    - apply List.Forall_forall. intros x Hin. apply filter_In in Hin as [_ H].
      apply Qltb_lt. exact H.
    - intros Hnil. apply select_length in E. rewrite Hnil in E.
      destruct (indices_above (7 # 10) 0 (confidences b)); discriminate. }
  destruct m as [[fq cf]|]; [|discriminate]. cbn.
  specialize (Hm fq cf eq_refl).
  destruct (Qltb 0 fq) eqn:Hf; intros [= <-]; (split; [|exact Hm]).
  - split; reflexivity.
  - unfold named_after_frequency. cbn [pa_note pa_octave pa_frequency].
    unfold _frequency_to_note_detailed.
    apply Qltb_ge in Hf. apply Qle_bool_iff in Hf. rewrite Hf. split; reflexivity.
Qed.

(** X10.  [_analyze_pitch_comprehensive] sends the audio to both engines
    before it reads either answer, and reads only the first: when the
    second request fails the result is the unvoiced default whatever the
    first engine answered, and when it succeeds its status and body make no
    difference. *)
Theorem pitch_needs_both_engines :
  (forall crepe_response,
     _analyze_pitch_comprehensive crepe_response RequestFailed = unvoiced)
  /\ (forall spice_response,
     _analyze_pitch_comprehensive RequestFailed spice_response = unvoiced)
  /\ (forall crepe_response status body status' body',
     _analyze_pitch_comprehensive crepe_response (HttpReply status body)
     = _analyze_pitch_comprehensive crepe_response (HttpReply status' body')).
Proof.
  split; [|split].
  - intros [|status body]; reflexivity.
  - intros s. reflexivity.
  - intros [|status body] s1 b1 s2 b2; reflexivity.
Qed.

(** X11.  Whatever the engines answer, the note and the octave of the
    result are those [_frequency_to_note_detailed] gives its frequency, and
    either frequency and confidence are both 0 or the confidence exceeds
    the selection threshold 0.7. *)
Theorem comprehensive_pitch_result (crepe_response spice_response : engine_reply) :
  let r := _analyze_pitch_comprehensive crepe_response spice_response in
  named_after_frequency r
  /\ ((pa_frequency r = 0 /\ pa_confidence r = 0) \/ (7 # 10) < pa_confidence r).
Proof.
  intros r. unfold r, _analyze_pitch_comprehensive.
  destruct (pitch_comprehensive_try crepe_response spice_response) as [r'|] eqn:E.
  - cbn [catch]. exact (pitch_try_inv _ _ _ E).
  - cbn [catch]. split; [exact unvoiced_named|]. left. split; reflexivity.
Qed.

End ComprehensivePitch.

(** ** Pitch estimate by autocorrelation *)

Section AutocorrelationPitch.
Import ProfessionalVocalAnalyzer.

Lemma argmax_from_bound (xs : list Q) (best_i i : nat) (best : Q) :
  (best_i < i)%nat -> (argmax_from best_i best i xs < i + length xs)%nat.
Proof.
  revert best_i i best. induction xs as [|x rest IH]; intros bi i b H; cbn [argmax_from length].
  - lia.
  - destruct (Qltb b x).
    + specialize (IH i (S i) x ltac:(lia)). lia.
    + specialize (IH bi (S i) b ltac:(lia)). lia.
Qed.

Lemma np_argmax_bound (xs : list Q) (p : nat) :
  np_argmax xs = Ok p -> (p < length xs)%nat.
Proof.
  destruct xs as [|x rest]; [discriminate|]. intros [= <-].
  pose proof (argmax_from_bound rest 0 1 x ltac:(lia)). cbn [length]. lia.
Qed.

Lemma autocorr_length (a : audio) : length (autocorr a) = length a.
Proof. unfold autocorr. rewrite length_map, length_seq. reflexivity. Qed.

Lemma periods : min_period = 55%nat /\ max_period = 551%nat.
Proof. split; reflexivity. Qed.

(** The estimate of a chunk of at most [max_period] samples is 0. *)
Lemma estimate_short (chunk : audio) :
  (length chunk <= max_period)%nat -> _estimate_pitch_autocorr chunk = 0.
Proof.
  intros H. unfold _estimate_pitch_autocorr, pitch_autocorr_try.
  destruct (is_empty chunk); [reflexivity|].
  rewrite autocorr_length, length_map.
  destruct (Nat.ltb_spec max_period (length chunk)); [lia|]. reflexivity.
Qed.

(** The estimate of a longer chunk is the sample rate over a lag between
    [min_period] and [max_period - 1]. *)
Lemma estimate_long (chunk : audio) :
  (max_period < length chunk)%nat ->
  exists lag, (min_period <= lag < max_period)%nat
    /\ _estimate_pitch_autocorr chunk = inject_Z sample_rate / Qnat lag.
Proof.
  intros H. unfold _estimate_pitch_autocorr, pitch_autocorr_try.
  assert (Hne : is_empty chunk = false)
    by (destruct chunk; [cbn in H; lia | reflexivity]).
  rewrite Hne.
  rewrite autocorr_length, length_map.
  destruct (Nat.ltb_spec max_period (length chunk)); [|lia].
  set (seg := firstn (max_period - min_period) (skipn min_period _)).
  assert (Hseg : length seg = (max_period - min_period)%nat).
  { unfold seg. rewrite length_firstn, length_skipn, autocorr_length, length_map.
    destruct periods as [-> ->]. destruct periods as [_ Hm]. rewrite Hm in H. lia. }
  destruct (np_argmax seg) as [p|] eqn:Ep.
  - apply np_argmax_bound in Ep. rewrite Hseg in Ep.
    cbn [mbind exc_bind]. destruct periods as [Hmin Hmax].
    destruct (Nat.ltb_spec 0 (p + min_period)); [|lia].
    exists (p + min_period)%nat. split; [lia|]. reflexivity.
  - destruct seg; [|discriminate Ep]. destruct periods as [Hmin Hmax].
    rewrite Hmin, Hmax in Hseg. discriminate Hseg.
Qed.

(** X12.  [_estimate_pitch_autocorr] returns 0 for a chunk of at most 551
    samples and otherwise 44100 divided by a lag between 55 and 550: an
    estimate is never a positive value outside 80 Hz to 802 Hz. *)
Theorem autocorr_pitch_range (chunk : audio) :
  let pitch := _estimate_pitch_autocorr chunk in
  ((length chunk <= max_period)%nat /\ pitch = 0)
  \/ ((max_period < length chunk)%nat
      /\ (exists lag, (55 <= lag <= 550)%nat /\ pitch = 44100 / Qnat lag)
      /\ 80 < pitch /\ pitch < 802).
Proof.
  intros pitch. unfold pitch.
  destruct (Nat.le_gt_cases (length chunk) max_period) as [H | H].
  - left. split; [exact H | apply estimate_short; exact H].
  - right. split; [exact H|].
    destruct (estimate_long chunk H) as (lag & Hlag & E).
    destruct periods as [Hmin Hmax]. rewrite Hmin, Hmax in Hlag.
    split; [exists lag; split; [lia | exact E]|].
    rewrite E. change (inject_Z sample_rate) with (44100 : Q).
    assert (L1 : 55 <= Qnat lag).
    { unfold Qnat. change 55 with (inject_Z 55). rewrite <- Zle_Qle. lia. }
    assert (L2 : Qnat lag <= 550).
    { unfold Qnat. change 550 with (inject_Z 550). rewrite <- Zle_Qle. lia. }
    split.
    + apply Qlt_shift_div_l; lra.
    + apply Qlt_shift_div_r; lra.
Qed.

End AutocorrelationPitch.

(** ** The vibrato analysis as a whole *)

Section VibratoProfessional.
Import ProfessionalVocalAnalyzer.

Variable np_std : list Q -> Q.
Variable np_log2 : Q -> Q.

Lemma window_pitches_length (a : audio) :
  (1024 <= length a)%nat -> (length (window_pitches a) <= 10)%nat.
Proof.
  intros H. unfold window_pitches, analysis_windows.
  etransitivity; [apply List.filter_length_le|].
  rewrite !length_map, length_seq. apply window_count_le_10. exact H.
Qed.

Lemma no_estimate_of_short_windows (ws : list audio) :
  Forall (fun w => (length w <= max_period)%nat) ws ->
  List.filter (Qltb 0) (map _estimate_pitch_autocorr ws) = [].
Proof.
  induction 1 as [|w ws Hw _ IH]; [reflexivity|].
  cbn [map List.filter]. rewrite (estimate_short w Hw), IH. reflexivity.
Qed.

Lemma window_pitches_short (a : audio) :
  (length a / 10 <= max_period)%nat -> window_pitches a = [].
Proof.
  intros H. unfold window_pitches. apply no_estimate_of_short_windows.
  unfold analysis_windows. apply List.Forall_forall. intros w Hin.
  apply in_map_iff in Hin as (k & <- & _).
  rewrite length_firstn. lia.
Qed.

(** X13.  A chunk whose tenth is at most 551 samples (fewer than 5520
    samples, an eighth of a second at 44.1 kHz) gives no window estimate:
    the analysis reports no vibrato, of type "none" below 1024 samples and
    "insufficient_data" from there on. *)
Theorem vibrato_needs_long_chunk (audio_chunk : audio) :
  (length audio_chunk / 10 <= max_period)%nat ->
  _analyze_vibrato_professional np_std np_log2 audio_chunk
  = no_vibrato (if (length audio_chunk <? 1024)%nat then "none"
                else "insufficient_data").
Proof.
  intros H. unfold _analyze_vibrato_professional.
  destruct (length audio_chunk <? 1024)%nat; [reflexivity|].
  rewrite (window_pitches_short audio_chunk H). reflexivity.
Qed.

Ltac undetected :=
  cbn [type rate detected no_vibrato];
  split; [discriminate|]; split; [lra|]; split; left; [reflexivity | discriminate].

(** X14.  Whatever the audio, the rate reported by
    [_analyze_vibrato_professional] is at most 4 Hz (there are at most ten
    windows, so at most eight sign changes): the type is never "tremolo", a
    detected vibrato has a rate from 2 to 4 Hz, and the type "natural" is
    reported only at exactly 4 Hz. *)
Theorem vibrato_rate_at_most_4 (audio_chunk : audio) :
  let v := _analyze_vibrato_professional np_std np_log2 audio_chunk in
  type v <> "tremolo"%string
  /\ rate v <= 4
  /\ (detected v = false \/ 2 <= rate v)
  /\ (type v <> "natural"%string \/ rate v == 4).
Proof.
  intros v. unfold v, _analyze_vibrato_professional.
  destruct (Nat.ltb_spec (length audio_chunk) 1024) as [Hlen | Hlen].
  { undetected. }
  destruct (length (window_pitches audio_chunk) <? 5)%nat.
  { undetected. }
  pose proof (window_rate_bound _ (window_pitches_length audio_chunk Hlen)) as [Hz Hr].
  cbv zeta in Hz, Hr.
  unfold vibrato_decision.
  change (zero_crossings (stats_of np_std np_log2 (window_pitches audio_chunk)))
    with (sign_changes (np_diff (window_pitches audio_chunk))).
  set (zc := sign_changes (np_diff (window_pitches audio_chunk))) in *.
  set (ps := stats_of np_std np_log2 (window_pitches audio_chunk)).
  destruct (Qltb (1 # 100) _ && Qltb _ (1 # 10)); cbn [andb]; [|undetected].
  destruct (Nat.leb_spec 4 zc) as [H4 | H4]; cbn [andb]; [|undetected].
  destruct (Qltb 2 (pitch_std ps));
    [|undetected].
  cbn [type rate detected].
  set (r := Qnat zc / 2) in *.
  set (d := if Qltb 0 (mean_pitch ps) then extent_cents ps else 0).
  assert (Hlo : 2 <= r).
  { unfold r. apply Qle_shift_div_l; [lra|].
    unfold Qnat. change (2 * 2) with (inject_Z 4). rewrite <- Zle_Qle. lia. }
  clearbody r d.
  destruct (vibrato_type_of_cases r d)
    as [[Hn E] | [(Hn & Hr' & E) | [(Hn & Hr' & E) | (Hn & Hl & Hh & E)]]];
    rewrite E.
  - destruct Hn as [[Hn1 Hn2] _].
    repeat split; try discriminate; try assumption; right; [assumption | lra].
  - lra.
  - repeat split; try discriminate; try assumption; [right; assumption | left; discriminate].
  - repeat split; try discriminate; try assumption; [right; assumption | left; discriminate].
Qed.

Ltac not_detected :=
  cbn [type rate detected extent no_vibrato];
  split; [|split; [|split]];
  (split; [intros X; discriminate X | intros [X _]; discriminate X]).

(** C6.  Vibrato type classification of [_analyze_vibrato_professional],
    for every audio chunk: the type is "natural" exactly for a detected
    vibrato whose rate [r] is in [4, 7] Hz and whose extent [d] is in
    [20, 100] cents; "tremolo" exactly for a detected vibrato with [r > 7];
    "wobble" exactly for one with [r < 3]; and "irregular" exactly for the
    other detected vibratos.  (The code tests [r > 8] for "tremolo"; with
    at most eight sign changes the rate never exceeds 4 Hz, so that test
    never succeeds and the difference between 7 and 8 cannot be
    observed.) *)
Theorem vibrato_classification (audio_chunk : audio) :
  let v := _analyze_vibrato_professional np_std np_log2 audio_chunk in
  (type v = "natural"%string
   <-> detected v = true /\ natural_range (rate v) (extent v))
  /\ (type v = "tremolo"%string <-> detected v = true /\ 7 < rate v)
  /\ (type v = "wobble"%string <-> detected v = true /\ rate v < 3)
  /\ (type v = "irregular"%string
      <-> detected v = true /\ ~ natural_range (rate v) (extent v)
          /\ 3 <= rate v /\ rate v <= 7).
Proof.
  intros v. unfold v, _analyze_vibrato_professional.
  destruct (Nat.ltb_spec (length audio_chunk) 1024) as [Hlen | Hlen];
    [not_detected|].
  destruct (length (window_pitches audio_chunk) <? 5)%nat; [not_detected|].
  pose proof (window_rate_bound _ (window_pitches_length audio_chunk Hlen)) as [_ Hr].
  cbv zeta in Hr.
  unfold vibrato_decision.
  change (zero_crossings (stats_of np_std np_log2 (window_pitches audio_chunk)))
    with (sign_changes (np_diff (window_pitches audio_chunk))).
  set (ps := stats_of np_std np_log2 (window_pitches audio_chunk)).
  destruct (_ && _ && _ && _); [|not_detected].
  cbn [type rate detected extent].
  set (r := Qnat (sign_changes (np_diff (window_pitches audio_chunk))) / 2) in *.
  set (d := if Qltb 0 (mean_pitch ps) then extent_cents ps else 0).
  clearbody r d.
  destruct (vibrato_type_of_cases r d)
    as [[Hn E] | [(Hn & Hr' & E) | [(Hn & Hr' & E) | (Hn & Hl & Hh & E)]]];
    rewrite E.
  all: try lra.
  all: unfold natural_range in *.
  all: split; [|split; [|split]]; split.
  all: try (intros X; discriminate X).
  all: try (intros _; split; [reflexivity|]; first [assumption | repeat split; lra]).
  all: try (intros _; reflexivity).
  all: intros (_ & X); exfalso; first [lra | tauto | destruct X as (X1 & X2 & X3); tauto].
Qed.

End VibratoProfessional.

Section VibratoProfessionalWitness.
Import ProfessionalVocalAnalyzer.

Lemma vibrato_needs_long_chunk_witness :
  (length (repeat (1 # 2) 1024) / 10 <= max_period)%nat
  /\ _analyze_vibrato_professional (fun _ => 0) (fun _ => 0) (repeat (1 # 2) 1024)
     = no_vibrato "insufficient_data".
Proof.
  assert (H : (length (repeat (1 # 2) 1024) / 10 <= max_period)%nat)
    by (rewrite repeat_length; vm_compute; lia).
  split; [exact H|].
  rewrite (vibrato_needs_long_chunk (fun _ => 0) (fun _ => 0) _ H).
  rewrite repeat_length. reflexivity.
Defined.

(** The classification is exercised: ten window estimates that alternate
    between 44100/200 Hz and 44100/210 Hz, values the pitch estimator
    returns for the lags 200 and 210, have eight sign changes and the
    standard deviation 5.25 Hz; with an extent of 42 cents the vibrato is
    detected at 4 Hz and typed "natural". *)
Lemma alternating_estimates_natural :
  let v := vibrato_decision
             (stats_of (fun _ => 21 # 4) (fun _ => 7 # 200) alternating_estimates) in
  detected v = true /\ rate v == 4 /\ extent v == 42
  /\ type v = "natural"%string.
Proof.
  cbv zeta. split; [vm_compute; reflexivity|].
  split; [vm_compute; reflexivity|]. split; vm_compute; reflexivity.
Qed.

End VibratoProfessionalWitness.

(** ** Passaggio *)

Section Passaggio.
Import ProfessionalVocalAnalyzer.

(** X15.  [_analyze_passaggio] reports a passaggio exactly for a frequency
    from 200 Hz to 450 Hz, the union of the six voice-type ranges; the
    voice type of the singer plays no part.  A report carries the frequency
    as its location, a smoothness in [0, 1], a register blend in (0, 1] and
    the tension level 0.5. *)
Theorem passaggio_zone (frequency : Q) (formants : FormantProfile) :
  match _analyze_passaggio frequency formants with
  | None => frequency < 200 \/ 450 < frequency
  | Some p =>
      200 <= frequency /\ frequency <= 450
      /\ ps_detected p = true
      /\ ps_location p = frequency
      /\ 0 <= ps_smoothness p /\ ps_smoothness p <= 1
      /\ 0 < ps_register_blend p /\ ps_register_blend p <= 1
      /\ ps_tension_level p = 5 # 10
  end.
Proof.
  unfold _analyze_passaggio, passaggio_ranges. cbn [existsb fst snd].
  repeat match goal with
  | |- context [Qle_bool ?a ?b] =>
      let E := fresh "E" in
      destruct (Qle_bool a b) eqn:E;
      [apply Qle_bool_iff in E | apply Qle_bool_gt in E]
  end; cbn [andb orb negb]; try lra.
  all: cbn [ps_detected ps_location ps_smoothness ps_register_blend ps_tension_level].
  all: split; [lra|]; split; [lra|]; split; [reflexivity|]; split; [reflexivity|].
  all: set (dev := Qabs _); assert (Hd : 0 <= dev) by apply Qabs_nonneg.
  all: split; [apply Q.le_max_l|]; split; [apply Q.max_lub; lra|].
  all: destruct (Qltb 0 (singers_formant formants)) eqn:Es;
       [apply Qltb_lt in Es | ].
  all: split; [|split; [|reflexivity]].
  all: try (apply Q.min_glb_lt; lra).
  all: try apply Q.le_min_r.
  all: try reflexivity.
  all: discriminate.
Qed.

End Passaggio.

(** ** Vowel shape and register *)

Section VowelAndRegister.
Import ProfessionalVocalAnalyzer.

(** The running minimum of the loop is a lower bound of the distances of
    the table and of the minimum it started from. *)
Lemma vowel_loop_lower_bound (fm : FormantProfile)
    (table : list (VowelShape * (Q * Q))) (m : option Q) (b : VowelShape) :
  match fst (vowel_loop fm table m b) with
  | None => table = [] /\ m = None
  | Some d' =>
      Forall (fun e => d' <= distance2 fm (snd e)) table
      /\ match m with Some d => d' <= d | None => True end
  end.
Proof.
  revert m b. induction table as [|[vowel ref] rest IH]; intros m b.
  - cbn. destruct m; [split; [constructor | lra] | split; reflexivity].
  - cbn [vowel_loop]. set (d2 := distance2 fm ref).
    destruct m as [d|].
    + destruct (Qltb d2 d) eqn:E; [apply Qltb_lt in E | apply Qltb_ge in E].
      * specialize (IH (Some d2) vowel).
        destruct (fst (vowel_loop fm rest (Some d2) vowel)) as [d'|].
        -- destruct IH as [Hall Hle]. split; [constructor; assumption | lra].
        -- destruct IH as [_ H]. discriminate H.
      * specialize (IH (Some d) b).
        destruct (fst (vowel_loop fm rest (Some d) b)) as [d'|].
        -- destruct IH as [Hall Hle]. split; [constructor; [cbn [snd]; fold d2; lra | exact Hall] | exact Hle].
        -- destruct IH as [_ H]. discriminate H.
    + specialize (IH (Some d2) vowel).
      destruct (fst (vowel_loop fm rest (Some d2) vowel)) as [d'|].
      * destruct IH as [Hall Hle]. split; [constructor; assumption | exact Logic.I].
      * destruct IH as [_ H]. discriminate H.
Qed.

(** The loop returns what it started from or an entry of the table with
    its distance. *)
Lemma vowel_loop_attained (fm : FormantProfile)
    (table : list (VowelShape * (Q * Q))) (m : option Q) (b : VowelShape) :
  vowel_loop fm table m b = (m, b)
  \/ exists ref, In (snd (vowel_loop fm table m b), ref) table
       /\ fst (vowel_loop fm table m b) = Some (distance2 fm ref).
Proof.
  revert m b. induction table as [|[vowel ref] rest IH]; intros m b.
  - left. reflexivity.
  - cbn [vowel_loop].
    destruct (match m with None => true | Some m2 => Qltb (distance2 fm ref) m2 end).
    + right. destruct (IH (Some (distance2 fm ref)) vowel) as [E | (ref0 & Hin & E)].
      * exists ref. rewrite E. split; [left; reflexivity | reflexivity].
      * exists ref0. split; [right; exact Hin | exact E].
    + destruct (IH m b) as [E | (ref0 & Hin & E)]; [left; exact E|].
      right. exists ref0. split; [right; exact Hin | exact E].
Qed.

(** X16.  [_classify_vowel_shape] returns a vowel of the reference table
    that is nearest to the pair (F1, F2), provided that vowel lies within a
    distance of 400; it returns MIXED exactly when every reference vowel is
    farther away than 400.  Distances are compared by their squares. *)
Theorem vowel_shape_nearest (formants : FormantProfile) :
  match _classify_vowel_shape formants with
  | MIXED =>
      Forall (fun e => 400 ^ 2 < distance2 formants (snd e)) vowel_formants
  | vowel =>
      exists ref, In (vowel, ref) vowel_formants
        /\ distance2 formants ref <= 400 ^ 2
        /\ Forall (fun e => distance2 formants ref <= distance2 formants (snd e))
                  vowel_formants
  end.
Proof.
  unfold _classify_vowel_shape.
  pose proof (vowel_loop_lower_bound formants vowel_formants None SCHWA) as HL.
  pose proof (vowel_loop_attained formants vowel_formants None SCHWA) as HA.
  destruct (vowel_loop formants vowel_formants None SCHWA) as [m' b'].
  cbn [fst snd] in HL, HA.
  destruct m' as [d'|]; [|destruct HL as [H _]; discriminate H].
  destruct HL as [Hall _].
  destruct HA as [E | (ref & Hin & E)]; [discriminate E|].
  injection E as ->.
  destruct (Qltb (400 ^ 2) (distance2 formants ref)) eqn:Hfar;
    [apply Qltb_lt in Hfar | apply Qltb_ge in Hfar].
  - eapply List.Forall_impl; [|exact Hall]. cbv beta. intros e He. lra.
  - assert (R : exists ref0, In (b', ref0) vowel_formants
              /\ distance2 formants ref0 <= 400 ^ 2
              /\ Forall (fun e => distance2 formants ref0 <= distance2 formants (snd e))
                        vowel_formants)
      by (exists ref; repeat split; assumption).
    destruct b'; try exact R.
    exfalso. clear -Hin. cbn in Hin.
    repeat (destruct Hin as [Hin | Hin]; [discriminate Hin|]). exact Hin.
Qed.

Variable np_rfft_abs : audio -> list Q.

(** X17.  The frequency bands of the registers: whatever the formants and
    the audio, [_classify_register_advanced] answers UNKNOWN only for a
    frequency that is not positive, VOCAL_FRY only below 80 Hz, CHEST only
    from 80 Hz to below 350 Hz, MIX only from 200 Hz to below 700 Hz, HEAD
    only from 350 Hz to below 2000 Hz, FALSETTO only from 700 Hz to below
    1400 Hz, and WHISTLE only from 2000 Hz. *)
Theorem register_bands (frequency : Q) (formants : FormantProfile)
    (audio_chunk : audio) :
  match _classify_register_advanced np_rfft_abs frequency formants audio_chunk with
  | UNKNOWN => frequency <= 0
  | VOCAL_FRY => 0 < frequency /\ frequency < 80
  | CHEST => 80 <= frequency /\ frequency < 350
  | MIX => 200 <= frequency /\ frequency < 700
  | HEAD => 350 <= frequency /\ frequency < 2000
  | FALSETTO => 700 <= frequency /\ frequency < 1400
  | WHISTLE => 2000 <= frequency
  end.
Proof.
  unfold _classify_register_advanced.
  destruct (Qle_bool frequency 0) eqn:E0;
    [apply Qle_bool_iff in E0; exact E0 | apply Qle_bool_gt in E0].
  destruct (Qltb frequency 80) eqn:E1;
    [apply Qltb_lt in E1; split; assumption | apply Qltb_ge in E1].
  destruct (Qltb frequency 200) eqn:E2;
    [apply Qltb_lt in E2; split; lra | apply Qltb_ge in E2].
  destruct (Qle_bool 200 frequency) eqn:E3;
    [apply Qle_bool_iff in E3 | apply Qle_bool_gt in E3; lra].
  destruct (Qltb frequency 350) eqn:E4;
    [apply Qltb_lt in E4 | apply Qltb_ge in E4]; cbn [andb].
  { destruct (_ && _); split; lra. }
  destruct (Qle_bool 350 frequency) eqn:E5;
    [apply Qle_bool_iff in E5 | apply Qle_bool_gt in E5; lra].
  destruct (Qltb frequency 700) eqn:E6;
    [apply Qltb_lt in E6 | apply Qltb_ge in E6]; cbn [andb].
  { destruct (_ && _); [split; lra|]. destruct (_ && _); split; lra. }
  destruct (Qle_bool 700 frequency) eqn:E7;
    [apply Qle_bool_iff in E7 | apply Qle_bool_gt in E7; lra].
  destruct (Qltb frequency 1400) eqn:E8;
    [apply Qltb_lt in E8 | apply Qltb_ge in E8]; cbn [andb].
  { destruct (Qltb 2000 _); split; lra. }
  destruct (Qle_bool 2000 frequency) eqn:E9;
    [apply Qle_bool_iff in E9; exact E9 | apply Qle_bool_gt in E9].
  split; lra.
Qed.

End VowelAndRegister.

(** ** The assessment of a label *)

Section Assessment.
Import VirtualListener ProfessionalVocalAnalyzer.

Lemma note_names_no_underscore (k : nat) :
  has_underscore (nth k note_names EmptyString) = false.
Proof.
  do 12 (destruct k as [|k]; [reflexivity|]). destruct k; reflexivity.
Qed.

Lemma detailed_note_no_underscore (f : Q) :
  has_underscore (ni_note (_frequency_to_note_detailed f)) = false.
Proof.
  unfold _frequency_to_note_detailed.
  destruct (Qle_bool f 0); [reflexivity|]. apply note_names_no_underscore.
Qed.

Lemma pitch_result_named (c s : engine_reply) :
  named_after_frequency (_analyze_pitch_comprehensive c s).
Proof.
  unfold _analyze_pitch_comprehensive.
  destruct (pitch_comprehensive_try c s) as [r|] eqn:E; cbn [catch].
  - exact (proj1 (pitch_try_inv _ _ _ E)).
  - exact unvoiced_named.
Qed.

(** X18.  [_assess_pitch_accuracy] does not measure anything: it raises
    for a note name with an underscore and otherwise answers "excellent"
    with the score 105, above the scale of 100.  The note names of
    [_analyze_pitch_comprehensive] have no underscore, so every label of the
    analyzer gets that answer. *)
Theorem pitch_accuracy_is_constant (label : ComprehensiveVocalLabel)
    (crepe_response spice_response : engine_reply) :
  ((has_underscore (cl_note label) = true /\ _assess_pitch_accuracy label = Raised)
   \/ (has_underscore (cl_note label) = false
       /\ exists score, _assess_pitch_accuracy label = Ok (score, "excellent"%string)
                        /\ score == 105))
  /\ has_underscore (pa_note (_analyze_pitch_comprehensive crepe_response spice_response))
     = false.
Proof.
  split.
  - unfold _assess_pitch_accuracy.
    destruct (has_underscore (cl_note label)); [left; split; reflexivity|].
    right. split; [reflexivity|]. eexists. split; [reflexivity|].
    vm_compute. reflexivity.
  - destruct (pitch_result_named crepe_response spice_response) as [-> _].
    apply detailed_note_no_underscore.
Qed.

(** X19.  The development priorities come out in one fixed order, health
    first and breath support second, whatever the order of the tests; no
    priority is listed twice and the cut to five entries never removes
    one. *)
Theorem priorities_order (label : ComprehensiveVocalLabel) :
  _generate_development_priorities label = priorities_in_order label
  /\ List.NoDup (_generate_development_priorities label)
  /\ (length (_generate_development_priorities label) <= 5)%nat.
Proof.
  unfold _generate_development_priorities, priorities_in_order.
  destruct (Qltb (cl_confidence label) (8 # 10));
  destruct (weak_breath (cl_breath_support label));
  destruct (poor_articulation (cl_articulation_quality label));
  destruct (Qltb (placement_score (cl_resonance_pattern label)) (6 # 10));
  destruct (String.eqb (risk_level (cl_vocal_health label)) "high");
  cbn [app firstn length];
  (split; [reflexivity|]; split; [|lia]);
  repeat (constructor; [cbn [In]; intuition discriminate|]); constructor.
Qed.

(** X20.  At most eight exercises are recommended, so at most two groups
    of three in full: of a third group the last exercise is dropped and a
    fourth group is dropped whole.  The vibrato exercise, collected last,
    is recommended exactly when no vibrato was detected outside the chest
    register and at most two groups precede it. *)
Theorem exercises_cut (label : ComprehensiveVocalLabel) :
  let r := _generate_exercise_recommendations label in
  length r = Nat.min 8 (3 * exercise_groups label
                        + (if negb (detected (cl_vibrato label))
                              && negb (is_chest (cl_register label)) then 1 else 0))
  /\ (In vibrato_exercise r
      <-> detected (cl_vibrato label) = false
          /\ is_chest (cl_register label) = false
          /\ (exercise_groups label <= 2)%nat).
Proof.
  unfold _generate_exercise_recommendations, exercise_groups.
  destruct (weak_breath (cl_breath_support label));
  destruct (Qltb (cl_confidence label) (8 # 10));
  destruct (Qltb (placement_score (cl_resonance_pattern label)) (6 # 10));
  destruct (poor_articulation (cl_articulation_quality label));
  destruct (detected (cl_vibrato label));
  destruct (is_chest (cl_register label));
  cbn [negb andb app firstn length breath_exercises pitch_exercises
       resonance_exercises articulation_exercises Nat.add Nat.mul Nat.min];
  (split; [reflexivity|]);
  (split;
   [ intros H; cbn [In] in H;
     repeat (destruct H as [H | H]; [try discriminate H|]);
     try contradiction; repeat split; try reflexivity; lia
   | intros (H1 & H2 & H3); try discriminate H1; try discriminate H2; try lia;
     cbn [In]; tauto ]).
Qed.

Lemma letter_rank_monotone (s1 s2 : Q) :
  s1 <= s2 -> (letter_rank (letter_grade s1) <= letter_rank (letter_grade s2))%nat.
Proof.
  intros H. unfold letter_grade.
  repeat match goal with
  | |- context [Qle_bool ?a s1] =>
      let E := fresh "E" in
      destruct (Qle_bool a s1) eqn:E;
      [apply Qle_bool_iff in E | apply Qle_bool_gt in E]
  end;
  repeat match goal with
  | |- context [Qle_bool ?a s2] =>
      let E := fresh "E" in
      destruct (Qle_bool a s2) eqn:E;
      [apply Qle_bool_iff in E | apply Qle_bool_gt in E]
  end; try lra; cbn; lia.
Qed.

(** X21.  The overall grade is monotone: a label that is no worse than
    another in pitch confidence, breath support, articulation, placement
    and vocal strain has an overall score and a letter grade that are no
    worse. *)
Theorem overall_grade_monotone (l1 l2 : ComprehensiveVocalLabel) :
  no_worse l1 l2 ->
  overall_score_of l1 <= overall_score_of l2
  /\ (letter_rank (snd (_calculate_overall_grade l1))
      <= letter_rank (snd (_calculate_overall_grade l2)))%nat.
Proof.
  intros (Hc & Hb & Ha & Hp & Hs).
  assert (H : overall_score_of l1 <= overall_score_of l2).
  { unfold overall_score_of. lra. }
  split; [exact H|].
  unfold _calculate_overall_grade. cbn [snd]. apply letter_rank_monotone. exact H.
Qed.

Lemma overall_grade_monotone_witness :
  no_worse offline_label supported_label
  /\ overall_score_of offline_label <= overall_score_of supported_label
  /\ snd (_calculate_overall_grade offline_label) = "D"%string
  /\ snd (_calculate_overall_grade supported_label) = "B"%string.
Proof.
  assert (H : no_worse offline_label supported_label).
  { unfold no_worse. cbn. repeat split; try apply Qle_refl; vm_compute; discriminate. }
  split; [exact H|].
  split; [exact (proj1 (overall_grade_monotone offline_label supported_label H))|].
  split; vm_compute; reflexivity.
Defined.

End Assessment.

(** ** When the formant server does not answer *)

Section FormantFallback.
Import ProfessionalVocalAnalyzer.

Variable np_rfft_abs : audio -> list Q.
Variable log10 : Q -> Q.

Lemma formants_fallback (response : formant_reply) :
  formants_received response = false ->
  _analyze_formants_detailed response = neutral_formants.
Proof.
  destruct response as [|status [body|]]; cbn; intros H; try reflexivity.
  - rewrite H. reflexivity.
  - destruct (status =? 200)%Z; reflexivity.
Qed.

Lemma spectral_clarity_le_1 (audio_chunk : audio) :
  _calculate_spectral_clarity np_rfft_abs audio_chunk <= 1.
Proof.
  unfold _calculate_spectral_clarity, spectral_clarity_try.
  destruct (is_empty audio_chunk); [cbn; lra|].
  destruct (negb _); [cbn; lra|].
  destruct (Qltb 0 _); cbn [catch]; cbv [default from_option id]; [apply Q.le_min_r | lra].
Qed.

(** X22.  Without an answer of the formant server (no connection, a status
    other than 200, or a body that is not JSON) the profile is the neutral
    one, and for every audio chunk the vowel is SCHWA, the placement score
    is 0.5 with forward placement, no tension area is found, and the
    articulation is never EXCELLENT. *)
Theorem formant_fallback_profile (response : formant_reply) (audio_chunk : audio)
    (pd : pitch_data) :
  formants_received response = false ->
  let formants := _analyze_formants_detailed response in
  formants = neutral_formants
  /\ _classify_vowel_shape formants = SCHWA
  /\ placement_score (_analyze_resonance_pattern np_rfft_abs formants audio_chunk)
     = 5 # 10
  /\ forward_placement (_analyze_resonance_pattern np_rfft_abs formants audio_chunk)
     = true
  /\ tension_areas (_assess_vocal_health log10 audio_chunk pd formants) = []
  /\ _evaluate_articulation_quality np_rfft_abs formants audio_chunk <> AQ_EXCELLENT.
Proof.
  intros H formants. unfold formants. rewrite (formants_fallback response H).
  split; [reflexivity|]. split; [vm_compute; reflexivity|].
  split; [reflexivity|]. split; [vm_compute; reflexivity|].
  split; [vm_compute; reflexivity|].
  unfold _evaluate_articulation_quality.
  pose proof (spectral_clarity_le_1 audio_chunk) as Hs.
  set (sc := _calculate_spectral_clarity np_rfft_abs audio_chunk) in *.
  assert (Hf : _calculate_formant_clarity neutral_formants == 1 # 3)
    by (vm_compute; reflexivity).
  set (fc := _calculate_formant_clarity neutral_formants) in *.
  destruct (Qltb (8 # 10) ((fc + sc) / 2)) eqn:E; [apply Qltb_lt in E|].
  - exfalso. assert ((fc + sc) / 2 == (fc + sc) * (1 # 2)) by (unfold Qdiv; reflexivity).
    lra.
  - destruct (Qltb (6 # 10) _); [discriminate|].
    destruct (Qltb (4 # 10) _); [discriminate|].
    destruct (Qltb (2 # 10) _); discriminate.
Qed.

Lemma in_passaggio_range (frequency : Q) :
  existsb (fun r => Qle_bool (fst (snd r)) frequency && Qle_bool frequency (snd (snd r)))
          passaggio_ranges
  = Qle_bool 200 frequency && Qle_bool frequency 450.
Proof.
  unfold passaggio_ranges. cbn [existsb fst snd].
  destruct (Qle_bool 200 frequency) eqn:A; [apply Qle_bool_iff in A | apply Qle_bool_gt in A];
  (destruct (Qle_bool frequency 450) eqn:B; [apply Qle_bool_iff in B | apply Qle_bool_gt in B]);
  cbn [andb];
  repeat match goal with
  | |- context [Qle_bool ?a ?b] =>
      let E := fresh "E" in
      destruct (Qle_bool a b) eqn:E;
      [apply Qle_bool_iff in E | apply Qle_bool_gt in E]; cbn [andb orb]; try lra;
      try reflexivity
  end.
Qed.

(** X23.  Without an answer of the formant server every frequency from
    200 Hz to below 700 Hz is in the MIX register, and every passaggio
    (200 Hz to 450 Hz) is reported as smooth, with smoothness 5/6 and
    register blend 0.3. *)
Theorem formant_fallback_register (response : formant_reply) (frequency : Q)
    (audio_chunk : audio) :
  formants_received response = false ->
  200 <= frequency -> frequency < 700 ->
  let formants := _analyze_formants_detailed response in
  _classify_register_advanced np_rfft_abs frequency formants audio_chunk = MIX
  /\ match _analyze_passaggio frequency formants with
     | Some p =>
         frequency <= 450
         /\ ps_transition_type p = "smooth"%string
         /\ ps_smoothness p == 5 # 6
         /\ ps_register_blend p = 3 # 10
     | None => 450 < frequency
     end.
Proof.
  intros H Hlo Hhi formants. unfold formants. rewrite (formants_fallback response H).
  split.
  - unfold _classify_register_advanced.
    destruct (Qle_bool frequency 0) eqn:E0; [apply Qle_bool_iff in E0; lra|].
    destruct (Qltb frequency 80) eqn:E1; [apply Qltb_lt in E1; lra|].
    destruct (Qltb frequency 200) eqn:E2; [apply Qltb_lt in E2; lra|].
    destruct (Qle_bool 200 frequency) eqn:E3; [|apply Qle_bool_gt in E3; lra].
    destruct (Qltb frequency 350) eqn:E4; cbn [andb]; [reflexivity|].
    apply Qltb_ge in E4.
    destruct (Qle_bool 350 frequency) eqn:E5; [|apply Qle_bool_gt in E5; lra].
    destruct (Qltb frequency 700) eqn:E6; [|apply Qltb_ge in E6; lra].
    reflexivity.
  - unfold _analyze_passaggio. rewrite in_passaggio_range.
    destruct (Qle_bool 200 frequency) eqn:A; [|apply Qle_bool_gt in A; lra].
    destruct (Qle_bool frequency 450) eqn:B;
      [apply Qle_bool_iff in B | apply Qle_bool_gt in B]; cbn [andb negb].
    + cbn [ps_transition_type ps_smoothness ps_register_blend].
      split; [exact B|]. split; [vm_compute; reflexivity|].
      split; vm_compute; reflexivity.
    + exact B.
Qed.

End FormantFallback.

Section FormantFallbackWitness.
Import ProfessionalVocalAnalyzer.

Lemma formant_fallback_profile_witness :
  formants_received (FormantReply 503 None) = false
  /\ _classify_vowel_shape (_analyze_formants_detailed (FormantReply 503 None)) = SCHWA
  /\ _evaluate_articulation_quality rfft_abs_upto2
       (_analyze_formants_detailed (FormantReply 503 None)) alternating2 = AQ_GOOD.
Proof.
  split; [reflexivity|].
  split.
  - exact (proj1 (proj2 (formant_fallback_profile rfft_abs_upto2 log10_near_one
                           (FormantReply 503 None) alternating2
                           {| pd_frequency := 0; pd_confidence := None |} eq_refl))).
  - vm_compute. reflexivity.
Defined.

Lemma formant_fallback_register_witness :
  formants_received FormantRequestFailed = false
  /\ 200 <= 300 /\ 300 < 700
  /\ _classify_register_advanced rfft_abs_upto2 300
       (_analyze_formants_detailed FormantRequestFailed) silence2 = MIX.
Proof.
  split; [reflexivity|]. split; [discriminate|]. split; [reflexivity|].
  exact (proj1 (formant_fallback_register rfft_abs_upto2 FormantRequestFailed 300 silence2
                  eq_refl ltac:(discriminate) eq_refl)).
Defined.

End FormantFallbackWitness.

(** ** Silence, and the agility of a label *)

Section SilentChunk.
Import ProfessionalVocalAnalyzer.

Variable log10 : Q -> Q.

Lemma Qsum_zip_zero (l1 l2 : list Q) :
  silent l2 -> Qsum (zip_with Qmult l1 l2) == 0.
Proof.
  intros H. revert l1. induction H as [|y l2 Hy _ IH]; intros [|x l1]; cbn; try reflexivity.
  fold (Qsum (zip_with Qmult l1 l2)). rewrite IH, Hy. ring.
Qed.

Lemma Qsum_squares_zero (l : list Q) :
  silent l -> Qsum (map (fun x => x ^ 2) l) == 0.
Proof.
  induction 1 as [|y l Hy _ IH]; cbn; [reflexivity|].
  fold (Qsum (map (fun x => x ^ 2) l)). rewrite IH, Hy. reflexivity.
Qed.

Lemma hnr_of_silence (audio_chunk : audio) :
  silent audio_chunk -> _calculate_hnr log10 audio_chunk = 10.
Proof.
  intros H. unfold _calculate_hnr, hnr_try, autocorr.
  destruct audio_chunk as [|x [|y rest]]; [reflexivity | reflexivity|].
  cbn [length seq map].
  assert (E : autocorr_at (x :: y :: rest) 0 == 0)
    by (unfold autocorr_at; apply Qsum_zip_zero; exact H).
  destruct (Qltb 0 (autocorr_at (x :: y :: rest) 0)) eqn:Hp;
    [apply Qltb_lt in Hp; lra | reflexivity].
Qed.

(** X24.  A silent chunk (and any chunk on which the harmonic-to-noise
    estimate falls back to its default 10) has the vocal strain 1/3: its
    risk level is never "low".  Its breath efficiency and its
    sustainability are 0 whatever the pitch confidence. *)
Theorem silent_chunk_health (audio_chunk : audio) (pd : pitch_data)
    (formants : FormantProfile) :
  audio_chunk <> [] -> silent audio_chunk ->
  let health := _assess_vocal_health log10 audio_chunk pd formants in
  _calculate_hnr log10 audio_chunk = 10
  /\ vocal_strain health == 1 # 3
  /\ breath_efficiency health == 0
  /\ sustainability health == 0
  /\ risk_level health <> "low"%string.
Proof.
  intros Hne Hs health.
  pose proof (hnr_of_silence audio_chunk Hs) as Hh.
  split; [exact Hh|].
  unfold health, _assess_vocal_health. rewrite Hh.
  cbn [vocal_strain breath_efficiency sustainability risk_level].
  assert (He : mean (map (fun x => x ^ 2) audio_chunk) == 0).
  { unfold mean. rewrite (Qsum_squares_zero audio_chunk Hs). unfold Qdiv. ring. }
  set (e := mean (map (fun x => x ^ 2) audio_chunk)) in *.
  set (c := default 0 (pd_confidence pd)).
  assert (Hm : Qmin (e * 10) 1 == e * 10) by (apply Q.min_l; lra).
  assert (Hb : c * Qmin (e * 10) 1 == 0) by (rewrite Hm, He; ring).
  split; [vm_compute; reflexivity|].
  split; [exact Hb|].
  split.
  - assert (Hm2 : Qmin (c * Qmin (e * 10) 1 * 2) 1 == c * Qmin (e * 10) 1 * 2)
      by (apply Q.min_l; lra).
    rewrite Hm2. lra.
  - change (Qltb (Qmax 0 (1 - 10 / 15)) (3 # 10)) with false. cbn [andb].
    destruct (_ && _); discriminate.
Qed.

End SilentChunk.

Section SilentChunkWitness.
Import ProfessionalVocalAnalyzer.

Lemma silent_chunk_health_witness :
  silence2 <> [] /\ Forall (fun x => x == 0) silence2
  /\ risk_level (_assess_vocal_health log10_near_one silence2
                   {| pd_frequency := 440; pd_confidence := Some 1 |} neutral_formants)
     = "moderate"%string
  /\ risk_level (_assess_vocal_health log10_near_one silence2
                   {| pd_frequency := 440; pd_confidence := Some 1 |} neutral_formants)
     <> "low"%string.
Proof.
  assert (Hne : silence2 <> []) by discriminate.
  assert (Hs : Forall (fun x => x == 0) silence2)
    by (repeat constructor).
  split; [exact Hne|]. split; [exact Hs|]. split; [vm_compute; reflexivity|].
  apply (silent_chunk_health log10_near_one silence2
           {| pd_frequency := 440; pd_confidence := Some 1 |} neutral_formants Hne Hs).
Defined.

End SilentChunkWitness.

Section Agility.
Import ProfessionalVocalAnalyzer.

Variable np_std : list Q -> Q.
Variable np_log2 : Q -> Q.

(** A standard deviation is not negative. *)
Hypothesis np_std_nonneg : forall xs, 0 <= np_std xs.

Lemma detected_vibrato_inv (audio_chunk : audio) :
  let v := _analyze_vibrato_professional np_std np_log2 audio_chunk in
  detected v = true -> rate v <= 4 /\ regularity v <= 1.
Proof.
  intros v. unfold v, _analyze_vibrato_professional.
  destruct (Nat.ltb_spec (length audio_chunk) 1024) as [Hlen | Hlen];
    [discriminate|].
  destruct (length (window_pitches audio_chunk) <? 5)%nat; [discriminate|].
  pose proof (window_rate_bound _ (window_pitches_length audio_chunk Hlen)) as [_ Hr].
  cbv zeta in Hr.
  unfold vibrato_decision.
  destruct (_ && _ && _ && _); [|discriminate]. intros _.
  cbn [rate regularity]. split; [exact Hr|].
  unfold stats_of. cbn [diff_regularity].
  set (d := np_diff (window_pitches audio_chunk)).
  destruct (Qltb 0 (mean (map Qabs d))) eqn:E; [apply Qltb_lt in E | lra].
  pose proof (np_std_nonneg d) as Hsd.
  assert (0 <= np_std d / mean (map Qabs d)).
  { apply Qle_shift_div_l; [exact E | lra]. }
  lra.
Qed.

(** X25.  The agility of a label whose vibrato comes from
    [_analyze_vibrato_professional] is never "good": the rate is at most
    4 Hz and the regularity at most 1, so the score is at most 60 where
    "good" needs more than 60. *)
Theorem agility_never_good (label : ComprehensiveVocalLabel) (audio_chunk : audio) :
  cl_vibrato label = _analyze_vibrato_professional np_std np_log2 audio_chunk ->
  (detected (cl_vibrato label) = true
   /\ snd (_assess_vocal_agility label) = "moderate"%string)
  \/ (detected (cl_vibrato label) = false
      /\ _assess_vocal_agility label = (round1 50, "limited"%string)).
Proof.
  intros Hv. pose proof (detected_vibrato_inv audio_chunk) as Hinv. cbv zeta in Hinv.
  rewrite <- Hv in Hinv.
  unfold _assess_vocal_agility.
  destruct (detected (cl_vibrato label)); [left | right; split; reflexivity].
  split; [reflexivity|]. destruct (Hinv eq_refl) as [Hr Hg].
  cbn [snd].
  destruct (Qltb 60 _) eqn:E; [apply Qltb_lt in E | reflexivity].
  exfalso.
  pose proof (Q.le_min_l (rate (cl_vibrato label) * 10 + regularity (cl_vibrato label) * 20) 80).
  lra.
Qed.

End Agility.

Section AgilityWitness.
Import ProfessionalVocalAnalyzer.

Lemma agility_never_good_witness :
  cl_vibrato offline_label
  = _analyze_vibrato_professional (fun _ => 0) (fun _ => 0) silence2
  /\ snd (_assess_vocal_agility offline_label) = "limited"%string.
Proof.
  assert (H : cl_vibrato offline_label
              = _analyze_vibrato_professional (fun _ => 0) (fun _ => 0) silence2)
    by reflexivity.
  split; [exact H|].
  destruct (agility_never_good (fun _ => 0) (fun _ => 0) (fun _ => Qle_refl 0)
              offline_label silence2 H) as [[Hd _] | [_ E]].
  - discriminate Hd.
  - rewrite E. reflexivity.
Defined.

End AgilityWitness.

(** ** The table of labels *)

Section Table.
Import LabelDatabase.

Variable lib : sqlite.

Variable json_dumps : pyval -> string.
Variable json_loads : string -> exc pyval.

Lemma select_by_id_unissued (db : database) (k : Z) :
  db_wf db -> (last_id db < k)%Z -> select_by_id db k = None.
Proof.
  unfold db_wf, select_by_id. intros Hwf Hk.
  induction Hwf as [|row rows (z & Hz & Hle) _ IH]; [reflexivity|].
  cbn [List.find]. rewrite Hz. destruct (Z.eqb_spec z k); [lia | exact IH].
Qed.

Lemma select_by_id_other (db : database) (now : string) (cols : list string)
    (params : list sqlval) (db' : database) (id k : Z) :
  insert lib db now cols params = Ok (db', id) -> k <> id ->
  select_by_id db' k = select_by_id db k.
Proof.
  intros Hins Hk.
  destruct (insert_inv _ _ _ _ _ _ _ Hins) as (_ & _ & Hrows).
  unfold select_by_id. rewrite Hrows. clear Hrows Hins.
  induction (vocal_labels db) as [|row rows IH]; cbn [app List.find].
  - rewrite row_id_new_row. destruct (Z.eqb_spec id k); [congruence | reflexivity].
  - destruct (match row_id row with SqlInteger z => (z =? k)%Z | _ => false end);
      [reflexivity | exact IH].
Qed.

(** X26.  On a table whose ids are bounded by its counter, [save_label]
    hands out the next id, which no row had before, keeps the table in
    that state with one more row, and [get_label] answers [None], not an
    error, for every id beyond the counter. *)
Theorem save_label_fresh_id (db : database) (now : string)
    (label_data : gmap string pyval) (db' : database) (id : Z) :
  db_wf db ->
  save_label lib json_dumps db now label_data = Ok (db', id) ->
  id = (last_id db + 1)%Z
  /\ last_id db' = id
  /\ select_by_id db id = None
  /\ db_wf db'
  /\ length (vocal_labels db') = S (length (vocal_labels db))
  /\ (forall k, (id < k)%Z -> get_label json_loads db' k = Ok None).
Proof.
  intros Hwf Hsave.
  destruct (save_label_inv _ _ _ _ _ _ _ Hsave) as (params & _ & Hins).
  destruct (insert_inv _ _ _ _ _ _ _ Hins) as (Hid & Hlast & Hrows).
  pose proof (insert_wf _ _ _ _ _ _ _ Hwf Hins) as Hwf'.
  split; [exact Hid|]. split; [exact Hlast|].
  split; [apply select_by_id_unissued; [exact Hwf | lia]|].
  split; [exact Hwf'|].
  split; [rewrite Hrows, length_app; cbn [length]; lia|].
  intros k Hk. unfold get_label.
  rewrite (select_by_id_unissued db' k Hwf') by lia. reflexivity.
Qed.

(** X27.  Saving a label leaves every other label as it was: [get_label]
    on any id but the new one answers as before the save. *)
Theorem save_label_keeps_others (db : database) (now : string)
    (label_data : gmap string pyval) (db' : database) (id k : Z) :
  save_label lib json_dumps db now label_data = Ok (db', id) ->
  k <> id ->
  get_label json_loads db' k = get_label json_loads db k.
Proof.
  intros Hsave Hk.
  destruct (save_label_inv _ _ _ _ _ _ _ Hsave) as (params & _ & Hins).
  unfold get_label. rewrite (select_by_id_other _ _ _ _ _ _ _ Hins Hk). reflexivity.
Qed.

Lemma mapM_Raised {A B} (f : A -> exc B) (l : list A) :
  mapM f l = Raised <-> exists x, In x l /\ f x = Raised.
Proof.
  induction l as [|x l IH]; cbn.
  - split; [discriminate | intros (x & [] & _)].
  - destruct (f x) as [y|] eqn:Ey; cbn.
    + destruct (mapM f l) as [k|]; cbn.
      * split; [discriminate|]. intros (x' & [<- | Hin] & Hf); [congruence|].
        destruct IH as [_ IH]. discriminate IH. exists x'. split; assumption.
      * split; [|reflexivity]. intros _.
        destruct IH as [IH _]. destruct (IH eq_refl) as (x' & Hin & Hf).
        exists x'. split; [right; exact Hin | exact Hf].
    + split; [|reflexivity]. intros _. exists x. split; [left; reflexivity | exact Ey].
Qed.





Lemma newer_or_equal_total (a b : list sqlval) :
  newer_or_equal a b = false -> newer_or_equal b a = true.
Proof.
  unfold newer_or_equal.
  destruct (row_created_at a) as [| | |s]; try discriminate;
  destruct (row_created_at b) as [| | |t]; try discriminate.
  intros H. destruct (String.leb_total s t) as [E | E]; [exact E | congruence].
Qed.

Lemma insert_sorted_sorted (row : list sqlval) (sorted : list (list sqlval)) :
  Sorted not_older sorted -> Sorted not_older (insert_sorted row sorted).
Proof.
  induction 1 as [|r rest Hs IH Hhd]; cbn [insert_sorted].
  - repeat constructor.
  - destruct (newer_or_equal row r) eqn:E.
    + constructor; [constructor; assumption | constructor; exact E].
    + constructor; [exact IH|].
      destruct rest as [|r' rest']; cbn [insert_sorted].
      * constructor. apply newer_or_equal_total. exact E.
      * destruct (newer_or_equal row r'); constructor;
          [apply newer_or_equal_total; exact E | inversion Hhd; assumption].
Qed.

Lemma order_by_snoc (rs : list (list sqlval)) (r : list sqlval) :
  order_by_created_at_desc (rs ++ [r]) = insert_sorted r (order_by_created_at_desc rs).
Proof. unfold order_by_created_at_desc. rewrite rev_app_distr. reflexivity. Qed.

Lemma order_by_sorted (rs : list (list sqlval)) :
  Sorted not_older (order_by_created_at_desc rs).
Proof.
  induction rs as [|r rs IH] using rev_ind; [constructor|].
  rewrite order_by_snoc. apply insert_sorted_sorted. exact IH.
Qed.

Lemma insert_sorted_length (row : list sqlval) (sorted : list (list sqlval)) :
  length (insert_sorted row sorted) = S (length sorted).
Proof.
  induction sorted as [|r rest IH]; cbn [insert_sorted]; [reflexivity|].
  destruct (newer_or_equal row r); cbn [length]; [reflexivity | rewrite IH; reflexivity].
Qed.

Lemma order_by_length (rs : list (list sqlval)) :
  length (order_by_created_at_desc rs) = length rs.
Proof.
  induction rs as [|r rs IH] using rev_ind; [reflexivity|].
  rewrite order_by_snoc, insert_sorted_length, length_app, IH. cbn [length]. lia.
Qed.

Lemma In_order_by (row : list sqlval) (rs : list (list sqlval)) :
  In row (order_by_created_at_desc rs) -> In row rs.
Proof.
  induction rs as [|r rs IH] using rev_ind; [auto|].
  rewrite order_by_snoc. intros H. apply in_or_app.
  destruct (In_insert_sorted _ _ _ H) as [-> | Hin];
    [right; left; reflexivity | left; apply IH; exact Hin].
Qed.

Lemma newer_or_equal_same (a b : list sqlval) :
  row_created_at a = row_created_at b -> newer_or_equal a b = true.
Proof.
  unfold newer_or_equal. intros ->.
  destruct (row_created_at b) as [| | |t]; try reflexivity.
  destruct (String.leb_total t t) as [E | E]; exact E.
Qed.

(** A row whose id is above the ids of a listing goes in front of the rows
    of its time stamp. *)
Lemma insert_sorted_listed (row : list sqlval) (sorted : list (list sqlval)) :
  Forall (fun r => id_below r row) sorted ->
  Sorted listed_before sorted -> Sorted listed_before (insert_sorted row sorted).
Proof.
  intros Hf Hs. induction Hs as [|r rest Hs IH Hhd]; cbn [insert_sorted].
  - repeat constructor.
  - inversion Hf as [|? ? Hr Hrest]; subst.
    destruct (newer_or_equal row r) eqn:E.
    + constructor; [constructor; assumption|]. constructor.
      split; [exact E | intros _; exact Hr].
    + constructor; [apply IH; exact Hrest|].
      assert (Hrow : listed_before r row).
      { split; [apply newer_or_equal_total; exact E|].
        intros Heq. symmetry in Heq. apply newer_or_equal_same in Heq. congruence. }
      destruct rest as [|r' rest']; cbn [insert_sorted].
      * constructor. exact Hrow.
      * destruct (newer_or_equal row r'); constructor;
          [exact Hrow | inversion Hhd; assumption].
Qed.

Lemma StronglySorted_snoc {A} (R : A -> A -> Prop) (l : list A) (x : A) :
  StronglySorted R (l ++ [x]) <-> StronglySorted R l /\ Forall (fun y => R y x) l.
Proof.
  induction l as [|y l IH]; cbn [app].
  - split; [intros _; split; constructor | intros _; repeat constructor].
  - split.
    + intros H. inversion H as [|? ? Hs Hall]; subst.
      apply IH in Hs as [Hs Hx]. apply List.Forall_app in Hall as [Hl Hyx].
      split; [constructor; assumption|].
      constructor; [inversion Hyx; assumption | exact Hx].
    + intros [H Hx]. inversion H as [|? ? Hs Hall]; subst.
      inversion Hx as [|? ? Hyx Hlx]; subst.
      constructor; [apply IH; split; assumption|].
      apply List.Forall_app. split; [exact Hall | repeat constructor; exact Hyx].
Qed.

Lemma order_by_listed (rs : list (list sqlval)) :
  StronglySorted id_below rs -> Sorted listed_before (order_by_created_at_desc rs).
Proof.
  induction rs as [|r rs IH] using rev_ind; intros H; [constructor|].
  apply StronglySorted_snoc in H as [Hs Hr].
  rewrite order_by_snoc. apply insert_sorted_listed; [|apply IH; exact Hs].
  apply List.Forall_forall. intros x Hx. apply In_order_by in Hx.
  rewrite List.Forall_forall in Hr. apply Hr. exact Hx.
Qed.

(** [save_label] keeps the rows in the order of their ids. *)
Lemma save_label_ids_increasing (db : database) (now : string)
    (label_data : gmap string pyval) (db' : database) (id : Z) :
  db_wf db -> ids_increasing db ->
  save_label lib json_dumps db now label_data = Ok (db', id) ->
  ids_increasing db'.
Proof.
  intros Hwf Hinc Hsave.
  destruct (save_label_inv _ _ _ _ _ _ _ Hsave) as (params & _ & Hins).
  destruct (insert_inv _ _ _ _ _ _ _ Hins) as (Hid & _ & Hrows).
  unfold ids_increasing. rewrite Hrows. apply StronglySorted_snoc.
  split; [exact Hinc|].
  unfold db_wf in Hwf. rewrite List.Forall_forall in Hwf.
  apply List.Forall_forall. intros row Hrow.
  destruct (Hwf row Hrow) as (z & Hz & Hle).
  unfold id_below. rewrite Hz, row_id_new_row. lia.
Qed.

Lemma Sorted_firstn {A} (R : A -> A -> Prop) (n : nat) (l : list A) :
  Sorted R l -> Sorted R (firstn n l).
Proof.
  intros H. revert n. induction H as [|x l Hs IH Hhd]; intros [|n]; cbn [firstn];
    try constructor.
  - apply IH.
  - destruct Hhd; destruct n; cbn [firstn]; constructor. assumption.
Qed.

(** X29.  [get_recent_labels] answers with the records of stored rows, at
    most [limit] of them (all of them for a negative limit), in an order in
    which no row is older than the next; on a table whose rows are in the
    order of their ids, as [save_label] keeps them, rows with the same time
    stamp are listed from the greatest id to the least; it raises exactly
    when one of these rows does not convert. *)
Theorem recent_labels_listing (db : database) (limit : Z) :
  let rows := select_recent db limit in
  Sorted not_older rows
  /\ (ids_increasing db -> Sorted listed_before rows)
  /\ (forall row, In row rows -> In row (vocal_labels db))
  /\ length rows = (if (limit <? 0)%Z then length (vocal_labels db)
                    else Nat.min (Z.to_nat limit) (length (vocal_labels db)))
  /\ (get_recent_labels json_loads db limit = Raised
      <-> exists row, In row rows /\ _row_to_dict json_loads row = Raised)
  /\ (forall records, get_recent_labels json_loads db limit = Ok records ->
        Forall2 (fun row record => _row_to_dict json_loads row = Ok record)
                rows records).
Proof.
  intros rows.
  split.
  { unfold rows, select_recent. destruct (limit <? 0)%Z;
      [apply order_by_sorted | apply Sorted_firstn, order_by_sorted]. }
  split.
  { intros Hinc. unfold rows, select_recent. destruct (limit <? 0)%Z;
      [|apply Sorted_firstn]; apply order_by_listed; exact Hinc. }
  split; [intros row; apply In_select_recent|].
  split.
  { unfold rows, select_recent. destruct (limit <? 0)%Z.
    - apply order_by_length.
    - rewrite length_firstn, order_by_length. reflexivity. }
  split; [apply mapM_Raised|].
  intros records H. apply mapM_Ok. exact H.
Qed.

End Table.

Section TableWitness.
Import LabelDatabase.

Lemma sample_db_wf : db_wf sample_db.
Proof.
  unfold db_wf. vm_compute vocal_labels. unfold row_id. cbn [nth].
  repeat constructor; eexists; (split; [reflexivity|]); vm_compute; discriminate.
Qed.

(** Of three labels saved within one second the last comes first. *)
Lemma busy_db_listing :
  db_wf busy_db /\ ids_increasing busy_db
  /\ map row_id (select_recent busy_db 1) = [SqlInteger 4]
  /\ map row_id (select_recent busy_db (-1))
     = [SqlInteger 4; SqlInteger 3; SqlInteger 2; SqlInteger 1].
Proof.
  split.
  { unfold db_wf. vm_compute vocal_labels. unfold row_id. cbn [nth].
    repeat constructor; eexists; (split; [reflexivity|]); vm_compute; discriminate. }
  split.
  { unfold ids_increasing. vm_compute vocal_labels.
    repeat constructor; unfold id_below, row_id; cbn [nth]; lia. }
  split; vm_compute; reflexivity.
Qed.

Lemma save_label_fresh_id_witness :
  db_wf sample_db
  /\ exists db',
       save_label reference Codec.dumps sample_db "2025-01-01 12:02:00" sample_label = Ok (db', 3%Z)
       /\ last_id db' = 3%Z
       /\ get_label Codec.loads db' 4 = Ok None.
Proof.
  split; [exact sample_db_wf|].
  destruct (save_label reference Codec.dumps sample_db "2025-01-01 12:02:00" sample_label)
    as [[db' id]|] eqn:E; [|vm_compute in E; discriminate E].
  destruct (save_label_fresh_id reference Codec.dumps Codec.loads sample_db _ _ db' id
              sample_db_wf E) as (Hid & Hlast & _ & _ & _ & Hnone).
  assert (Hid3 : id = 3%Z) by (rewrite Hid; vm_compute; reflexivity).
  subst id. exists db'. split; [reflexivity|]. split; [exact Hlast|].
  apply Hnone. lia.
Defined.

Lemma save_label_keeps_others_witness :
  exists db',
    save_label reference Codec.dumps sample_db "2025-01-01 12:02:00" sample_label = Ok (db', 3%Z)
    /\ (1 <> 3)%Z
    /\ get_label Codec.loads db' 1 = get_label Codec.loads sample_db 1.
Proof.
  destruct (save_label reference Codec.dumps sample_db "2025-01-01 12:02:00" sample_label)
    as [[db' id]|] eqn:E; [|vm_compute in E; discriminate E].
  assert (Hid : id = 3%Z).
  { destruct (save_label_inv _ _ _ _ _ _ _ E) as (params & _ & Hins).
    destruct (insert_inv _ _ _ _ _ _ _ Hins) as (-> & _). vm_compute. reflexivity. }
  subst id. exists db'. split; [reflexivity|].
  assert (Hne : (1 <> 3)%Z) by lia.
  split; [exact Hne|].
  exact (save_label_keeps_others reference Codec.dumps Codec.loads sample_db _ _ db' 3 1 E Hne).
Defined.

End TableWitness.
